(** * Nebula handshake core: certificates and the handshake manager

    A shallow embedding of [cert/cert.go] (certificate model, signing,
    verification against a CA pool, marshalling) and of the handshake
    manager ([handleOutbound], [CheckAndComplete], [hsTimeout]); an
    executable instance of the libraries they call, with sample data; the
    vocabulary of the properties; and the properties themselves, one module
    for each of [hsTimeout], the certificates and the handshake manager.

    Conventions.
    - Go byte slices are [list byte]; a nil slice and an empty slice are both
      [[]] (the code only ever measures and compares them).
    - Fixed-width integers are [Z] or [N] with the wrap-around written out.
    - A Go function that can panic returns an [outcome]; a Go function that
      returns [(T, error)] returns a [result].
    - Functions of the Go standard library and of the protobuf runtime are
      modelled from their documentation ([GoStd]) or, for cryptography and
      the protobuf codec, taken as operations of the class [GoLib]. *)

From Stdlib Require Import ZArith NArith List Bool Ascii String Lia.
From Stdlib Require Strings.Byte.
From stdpp Require Import base decidable option list gmap sets strings.

Local Open Scope Z_scope.

(** ** Bytes, results and panics *)

Abbreviation byte := Init.Byte.byte.
Abbreviation bytes := (list Init.Byte.byte).

#[global] Instance byte_eq_dec : EqDecision byte := Byte.byte_eq_dec.

(** [bytes.Equal]. *)
Definition bytes_Equal (a b : bytes) : bool := bool_decide (a = b).

(** What a Go call does when it does not return normally. *)
Inductive outcome (A : Type) : Type :=
| Ret (a : A)
| Panic (msg : string).
Arguments Ret {A} a.
Arguments Panic {A} msg.

#[global] Instance outcome_ret : MRet outcome := λ A a, Ret a.
#[global] Instance outcome_bind : MBind outcome := λ A B k m,
  match m with
  | Ret a => k a
  | Panic msg => Panic msg
  end.
#[global] Instance outcome_fmap : FMap outcome := λ A B f m,
  match m with
  | Ret a => Ret (f a)
  | Panic msg => Panic msg
  end.

(** ** Fixed-width arithmetic *)

(** Two's-complement wrap of a mathematical integer into Go's [int64]
    ([int] and [time.Duration] on the 64-bit targets nebula is built for). *)
Definition wrap64 (z : Z) : Z := (z + 2 ^ 63) mod 2 ^ 64 - 2 ^ 63.

Definition add64 (a b : Z) : Z := wrap64 (a + b).
Definition sub64 (a b : Z) : Z := wrap64 (a - b).
Definition mul64 (a b : Z) : Z := wrap64 (a * b).
(** Go's [/] truncates toward zero. *)
Definition div64 (a b : Z) : Z := wrap64 (Z.quot a b).

Definition in_int64 (z : Z) : Prop := - 2 ^ 63 <= z < 2 ^ 63.

(** ** The parts of the Go standard library the code calls *)

Module GoStd.

(** *** encoding/binary *)

(** [binary.BigEndian.Uint32]: reads the first four bytes, panics on a
    shorter slice. *)
Definition BigEndian_Uint32 (b : bytes) : outcome N :=
  match b with
  | b0 :: b1 :: b2 :: b3 :: _ =>
      Ret (Byte.to_N b3 + 256 * (Byte.to_N b2 + 256 * (Byte.to_N b1 + 256 * Byte.to_N b0)))%N
  | _ => Panic "index out of range"
  end.

(** The low eight bits of [n] as a byte. *)
Definition byte_of_N (n : N) : byte :=
  default Byte.x00 (Byte.of_N (n mod 256)%N).

(** [binary.BigEndian.PutUint32] into a fresh four-byte slice. *)
Definition BigEndian_PutUint32 (nn : N) : bytes :=
  [ byte_of_N (nn / 16777216); byte_of_N (nn / 65536);
    byte_of_N (nn / 256); byte_of_N nn ].

(** *** encoding/hex *)

Definition hextable : list ascii :=
  list_ascii_of_string "0123456789abcdef".

Definition hexdigit (n : N) : ascii :=
  nth (N.to_nat n) hextable "0"%char.

(** [hex.EncodeToString]: two lower-case digits per byte. *)
Fixpoint hex_EncodeToString (b : bytes) : string :=
  match b with
  | [] => EmptyString
  | x :: rest =>
      String (hexdigit (Byte.to_N x / 16))
        (String (hexdigit (Byte.to_N x mod 16)) (hex_EncodeToString rest))
  end.

(** [reverseHexTable]: the value of a hexadecimal digit of either case. *)
Definition fromHexChar (c : ascii) : option N :=
  let n := N_of_ascii c in
  if ((48 <=? n) && (n <=? 57))%N then Some (n - 48)%N
  else if ((97 <=? n) && (n <=? 102))%N then Some (n - 87)%N
  else if ((65 <=? n) && (n <=? 70))%N then Some (n - 55)%N
  else None.

Inductive hex_error := InvalidByteError (c : ascii) | ErrLength.

(** [hex.DecodeString]: the bytes decoded before the first error, and the
    error if there is one. *)
Fixpoint hex_DecodeString (s : string) : bytes * option hex_error :=
  match s with
  | EmptyString => ([], None)
  | String p EmptyString =>
      match fromHexChar p with
      | None => ([], Some (InvalidByteError p))
      | Some _ => ([], Some ErrLength)
      end
  | String p (String q rest) =>
      match fromHexChar p, fromHexChar q with
      | None, _ => ([], Some (InvalidByteError p))
      | Some _, None => ([], Some (InvalidByteError q))
      | Some a, Some b =>
          let '(out, err) := hex_DecodeString rest in
          (byte_of_N (16 * a + b) :: out, err)
      end
  end.

(** *** time *)

(** A [time.Time] is the instant it denotes, in nanoseconds since the Unix
    epoch; its location and monotonic reading play no part in the code. *)
Definition time_Time := Z.

Definition Before (t u : time_Time) : bool := t <? u.
Definition After (t u : time_Time) : bool := u <? t.
(** [t.Unix()]: whole seconds since the epoch. *)
Definition Unix (t : time_Time) : Z := t / 1000000000.
(** [time.Unix(sec, 0)]. *)
Definition time_Unix (sec : Z) : time_Time := sec * 1000000000.

(** *** net *)

Record IPNet := { IP : bytes; Mask : bytes }.

#[global] Instance IPNet_eq_dec : EqDecision IPNet.
Proof. solve_decision. Defined.

Definition isZeros (b : bytes) : bool :=
  forallb (λ x, bool_decide (x = Byte.x00)) b.

(** [IP.To4]: the four-byte form of an IPv4 address, [None] for nil. *)
Definition To4 (ip : bytes) : option bytes :=
  if (length ip =? 4)%nat then Some ip
  else if (length ip =? 16)%nat && isZeros (take 10 ip)
          && bool_decide (ip !! 10%nat = Some Byte.xff)
          && bool_decide (ip !! 11%nat = Some Byte.xff)
       then Some (take 4 (drop 12 ip))
       else None.

(** [networkNumberAndMask]; [(nil, nil)] is [([], [])]. *)
Definition networkNumberAndMask (n : IPNet) : bytes * bytes :=
  let ip :=
    match To4 (IP n) with
    | Some x => Some x
    | None => if (length (IP n) =? 16)%nat then Some (IP n) else None
    end in
  match ip with
  | None => ([], [])
  | Some ip =>
      let m := Mask n in
      if (length m =? 4)%nat then
        if (length ip =? 4)%nat then (ip, m) else ([], [])
      else if (length m =? 16)%nat then
        if (length ip =? 4)%nat then (ip, drop 12 m) else (ip, m)
      else ([], [])
  end.

Definition byte_and (a b : byte) : N := N.land (Byte.to_N a) (Byte.to_N b).

(** The comparison loop of [IPNet.Contains]; the three slices have the
    same length when it runs. *)
Fixpoint masked_equal (nn m ip : bytes) : bool :=
  match nn, m, ip with
  | a :: nn', k :: m', b :: ip' =>
      if (byte_and a k =? byte_and b k)%N then masked_equal nn' m' ip'
      else false
  | _, _, _ => true
  end.

(** [IPNet.Contains] (pointer receiver). *)
Definition Contains (n : IPNet) (ip : bytes) : bool :=
  let '(nn, m) := networkNumberAndMask n in
  let ip := match To4 ip with Some x => x | None => ip end in
  if (length ip =? length nn)%nat then masked_equal nn m ip else false.

End GoStd.

(** ** cert/cert.go *)

Module cert.
Import GoStd.

Definition publicKeyLen : nat := 32.

(** The protobuf enum [Curve] is an [int32]; any value can occur. *)
Definition Curve_t := Z.
Definition Curve_CURVE25519 : Curve_t := 0.
Definition Curve_P256 : Curve_t := 1.

(** [ed25519.PrivateKeySize] and [ed25519.PublicKeySize]. *)
Definition ed25519_PrivateKeySize : nat := 64.
Definition ed25519_PublicKeySize : nat := 32.

Record NebulaCertificateDetails := {
  Name : string;
  Ips : list IPNet;
  Subnets : list IPNet;
  Groups : list string;
  NotBefore : time_Time;
  NotAfter : time_Time;
  PublicKey : bytes;
  IsCA : bool;
  Issuer : string;
  (** Map of groups for faster lookup: a [map[string]struct{}]. *)
  InvertedGroups : gset string;
  Curve : Curve_t
}.

Record NebulaCertificate := {
  Details : NebulaCertificateDetails;
  Pkcs11Backed : bool;
  Signature : bytes;
  (** the cached hex string of the calculated sha256sum *)
  sha256sum : option string;
  (** the cached public key bytes if they were verified as the signer *)
  signatureVerified : option bytes
}.

(** The messages of [cert.proto], as the generated Go structs hold them. *)
Record RawNebulaCertificateDetails := {
  rName : string;
  rIps : list N;
  rSubnets : list N;
  rGroups : list string;
  rNotBefore : Z;
  rNotAfter : Z;
  rPublicKey : bytes;
  rIsCA : bool;
  rIssuer : bytes;
  rCurve : Curve_t
}.

Record RawNebulaCertificate := {
  rDetails : option RawNebulaCertificateDetails;
  rSignature : bytes
}.

Inductive error :=
| ErrNilByteArray
| ErrDetailsNil
| ErrOddIps
| ErrOddSubnets
| ErrPublicKeyTooShort (len : nat)
| ErrCurveMismatch
| ErrInvalidCurve (c : Curve_t)
| ErrBlockListed
| ErrRootExpired
| ErrExpired
| ErrSignatureMismatch
| ErrNoIssuer
| ErrCaNotFound
| ErrExpiresAfterSigner
| ErrValidBeforeSigner
| ErrGroupNotOnCA (g : string)
| ErrIpOutsideCA (ip : IPNet)
| ErrSubnetOutsideCA (subnet : IPNet)
(** an error produced inside a library ([proto], [ecdsa]) *)
| ErrLibrary (what : string).

Inductive result (A : Type) : Type :=
| Ok (a : A)
| Err (e : error).
Arguments Ok {A} a.
Arguments Err {A} e.

(** The cryptographic primitives and the protobuf codec the package
    calls.  [ed25519_Sign] and [ed25519_Verify] are the functions on keys of
    the right size; the length checks that make the Go functions panic are
    written out where they are called.  [ecdsa_P256_SignASN1] stands for
    building the P-256 key from the scalar and [ecdsa.SignASN1] with the
    bytes read from [rand.Reader]; [ecdsa_P256_VerifyASN1] for
    [elliptic.Unmarshal] followed by [ecdsa.VerifyASN1]. *)
Class GoLib := {
  proto_Marshal_Details : RawNebulaCertificateDetails → result bytes;
  proto_Marshal : RawNebulaCertificate → result bytes;
  proto_Unmarshal : bytes → result RawNebulaCertificate;
  sha256_Sum256 : bytes → bytes;
  ed25519_Sign : bytes → bytes → bytes;
  ed25519_Verify : bytes → bytes → bytes → bool;
  ecdsa_P256_SignASN1 : bytes → bytes → bytes → result bytes;
  ecdsa_P256_VerifyASN1 : bytes → bytes → bytes → outcome bool
}.

Definition with_Signature (nc : NebulaCertificate) (sig : bytes) : NebulaCertificate :=
  {| Details := Details nc; Pkcs11Backed := Pkcs11Backed nc; Signature := sig;
     sha256sum := sha256sum nc; signatureVerified := signatureVerified nc |}.

Definition with_sha256sum (nc : NebulaCertificate) (s : option string) : NebulaCertificate :=
  {| Details := Details nc; Pkcs11Backed := Pkcs11Backed nc; Signature := Signature nc;
     sha256sum := s; signatureVerified := signatureVerified nc |}.

Definition with_signatureVerified (nc : NebulaCertificate) (k : option bytes) : NebulaCertificate :=
  {| Details := Details nc; Pkcs11Backed := Pkcs11Backed nc; Signature := Signature nc;
     sha256sum := sha256sum nc; signatureVerified := k |}.

(** *** Address helpers *)

Definition ip2int (ip : bytes) : outcome N :=
  if (length ip =? 16)%nat then BigEndian_Uint32 (take 4 (drop 12 ip))
  else BigEndian_Uint32 ip.

Definition int2ip (nn : N) : bytes := BigEndian_PutUint32 nn.

Definition maskTo4 (ip : bytes) : option bytes :=
  if (length ip =? 4)%nat then Some ip
  else if (length ip =? 16)%nat && isZeros (take 10 ip)
          && bool_decide (ip !! 10%nat = Some Byte.xff)
          && bool_decide (ip !! 11%nat = Some Byte.xff)
       then Some (take 4 (drop 12 ip))
       else None.

(** The loop of [maskContains]: [n] iterations left, index [i].  The bound
    of the Go loop is [len(caMask)], the indexed slices are the converted
    [caM] and [cM]. *)
Fixpoint maskContains_loop (caM cM : bytes) (i n : nat) : outcome bool :=
  match n with
  | O => Ret true
  | S n' =>
      match caM !! i, cM !! i with
      | Some a, Some c =>
          if (Byte.to_N c <? Byte.to_N a)%N then Ret false
          else maskContains_loop caM cM (S i) n'
      | _, _ => Panic "index out of range"
      end
  end.

Definition maskContains (caMask certMask : bytes) : outcome bool :=
  match maskTo4 caMask, maskTo4 certMask with
  | Some caM, Some cM => maskContains_loop caM cM 0 (length caMask)
  | _, _ => Ret false
  end.

Fixpoint netMatch (certIp : IPNet) (rootIps : list IPNet) : outcome bool :=
  match rootIps with
  | [] => Ret false
  | net :: rest =>
      if Contains net (IP certIp) then
        b ← maskContains (Mask net) (Mask certIp);
        if b : bool then Ret true else netMatch certIp rest
      else netMatch certIp rest
  end.

(** *** Marshalling *)

(** The two [append] loops of [getRawDetails]. *)
Fixpoint rawNets (l : list IPNet) : outcome (list N) :=
  match l with
  | [] => Ret []
  | ipNet :: rest =>
      a ← ip2int (IP ipNet);
      m ← ip2int (Mask ipNet);
      tl ← rawNets rest;
      Ret (a :: m :: tl)
  end.

Definition getRawDetails (nc : NebulaCertificate) : outcome RawNebulaCertificateDetails :=
  let d := Details nc in
  ips ← rawNets (Ips d);
  subnets ← rawNets (Subnets d);
  Ret {| rName := Name d;
         rIps := ips;
         rSubnets := subnets;
         rGroups := Groups d;
         rNotBefore := Unix (NotBefore d);
         rNotAfter := Unix (NotAfter d);
         rPublicKey := PublicKey d;
         rIsCA := IsCA d;
         rIssuer := fst (hex_DecodeString (Issuer d));
         rCurve := Curve d |}.

(** The loop that rebuilds [Ips] (or [Subnets]) from the flat word list: an
    even index starts an entry, the odd index after it sets its mask.  The
    caller has checked that the length is even. *)
Fixpoint netsOfRaw (l : list N) : list IPNet :=
  match l with
  | a :: m :: rest => {| IP := int2ip a; Mask := int2ip m |} :: netsOfRaw rest
  | [a] => [ {| IP := int2ip a; Mask := [] |} ]
  | [] => []
  end.

Section WithLib.
Context `{!GoLib}.

Definition Marshal (nc : NebulaCertificate) : outcome (result bytes) :=
  rd ← getRawDetails nc;
  Ret (proto_Marshal {| rDetails := Some rd; rSignature := Signature nc |}).

Definition UnmarshalNebulaCertificate (b : bytes) : result NebulaCertificate :=
  if (length b =? 0)%nat then Err ErrNilByteArray
  else
    match proto_Unmarshal b with
    | Err e => Err e
    | Ok rc =>
        match rDetails rc with
        | None => Err ErrDetailsNil
        | Some rd =>
            if negb ((length (rIps rd) mod 2 =? 0)%nat) then Err ErrOddIps
            else if negb ((length (rSubnets rd) mod 2 =? 0)%nat) then Err ErrOddSubnets
            else if (length (rPublicKey rd) <? publicKeyLen)%nat
            then Err (ErrPublicKeyTooShort (length (rPublicKey rd)))
            else
              Ok {| Details :=
                      {| Name := rName rd;
                         Ips := netsOfRaw (rIps rd);
                         Subnets := netsOfRaw (rSubnets rd);
                         Groups := rGroups rd;
                         NotBefore := time_Unix (rNotBefore rd);
                         NotAfter := time_Unix (rNotAfter rd);
                         PublicKey := rPublicKey rd;
                         IsCA := rIsCA rd;
                         Issuer := hex_EncodeToString (rIssuer rd);
                         InvertedGroups := list_to_set (rGroups rd);
                         Curve := rCurve rd |};
                    Pkcs11Backed := false;
                    Signature := rSignature rc;
                    sha256sum := None;
                    signatureVerified := None |}
        end
    end.

(** *** Signing and checking *)

(** [rnd] is what [ecdsa.SignASN1] reads from [rand.Reader].  The
    certificate is updated in place in Go; here the updated certificate is
    returned with the error. *)
Definition Sign (rnd : bytes) (nc : NebulaCertificate) (curve : Curve_t) (key : bytes)
  : outcome (NebulaCertificate * option error) :=
  if negb (curve =? Curve (Details nc)) then Ret (nc, Some ErrCurveMismatch)
  else
    rd ← getRawDetails nc;
    match proto_Marshal_Details rd with
    | Err e => Ret (nc, Some e)
    | Ok b =>
        if curve =? Curve_CURVE25519 then
          (* ed25519.Sign panics unless len(privateKey) = PrivateKeySize *)
          if negb (length key =? ed25519_PrivateKeySize)%nat
          then Panic "ed25519: bad private key length"
          else Ret (with_Signature nc (ed25519_Sign key b), None)
        else if curve =? Curve_P256 then
          match ecdsa_P256_SignASN1 rnd key (sha256_Sum256 b) with
          | Err e => Ret (nc, Some e)
          | Ok sig => Ret (with_Signature nc sig, None)
          end
        else Ret (nc, Some (ErrInvalidCurve (Curve (Details nc))))
    end.

Definition CheckSignature (nc : NebulaCertificate) (key : bytes) : outcome bool :=
  rd ← getRawDetails nc;
  match proto_Marshal_Details rd with
  | Err _ => Ret false
  | Ok b =>
      if Curve (Details nc) =? Curve_CURVE25519 then
        (* ed25519.Verify panics unless len(publicKey) = PublicKeySize *)
        if negb (length key =? ed25519_PublicKeySize)%nat
        then Panic "ed25519: bad public key length"
        else Ret (ed25519_Verify key b (Signature nc))
      else if Curve (Details nc) =? Curve_P256 then
        ecdsa_P256_VerifyASN1 key (sha256_Sum256 b) (Signature nc)
      else Ret false
  end.

Definition checkSignatureWithCache (nc : NebulaCertificate) (key : bytes) (useCache : bool)
  : outcome (NebulaCertificate * bool) :=
  if negb useCache then
    b ← CheckSignature nc key; Ret (nc, b)
  else
    match signatureVerified nc with
    | Some v => Ret (nc, bytes_Equal v key)
    | None =>
        verified ← CheckSignature nc key;
        if verified : bool
        then Ret (with_signatureVerified nc (Some key), true)
        else Ret (nc, false)
    end.

Definition Expired (nc : NebulaCertificate) (t : time_Time) : bool :=
  After (NotBefore (Details nc)) t || Before (NotAfter (Details nc)) t.

Definition ResetCache (nc : NebulaCertificate) : NebulaCertificate :=
  with_signatureVerified (with_sha256sum nc None) None.

Definition Sha256Sum (nc : NebulaCertificate) : outcome (result string) :=
  r ← Marshal nc;
  match r with
  | Err e => Ret (Err e)
  | Ok b => Ret (Ok (hex_EncodeToString (sha256_Sum256 b)))
  end.

Definition sha256SumWithCache (nc : NebulaCertificate) (useCache : bool)
  : outcome (NebulaCertificate * result string) :=
  if negb useCache then
    r ← Sha256Sum nc; Ret (nc, r)
  else
    match sha256sum nc with
    | Some s => Ret (nc, Ok s)
    | None =>
        r ← Sha256Sum nc;
        match r with
        | Err e => Ret (nc, Err e)
        | Ok s => Ret (with_sha256sum nc (Some s), Ok s)
        end
    end.

(** *** Root constraints *)

Fixpoint checkGroups (inv : gset string) (gs : list string) : option error :=
  match gs with
  | [] => None
  | g :: rest =>
      if bool_decide (g ∈ inv) then checkGroups inv rest
      else Some (ErrGroupNotOnCA g)
  end.

Fixpoint checkNets (mkErr : IPNet → error) (nets rootNets : list IPNet)
  : outcome (option error) :=
  match nets with
  | [] => Ret None
  | ip :: rest =>
      b ← netMatch ip rootNets;
      if b : bool then checkNets mkErr rest rootNets
      else Ret (Some (mkErr ip))
  end.

Definition CheckRootConstrains (nc signer : NebulaCertificate) : outcome (option error) :=
  let d := Details nc in
  let sd := Details signer in
  if Before (NotAfter sd) (NotAfter d) then Ret (Some ErrExpiresAfterSigner)
  else if After (NotBefore sd) (NotBefore d) then Ret (Some ErrValidBeforeSigner)
  else
    match (if (0 <? size (InvertedGroups sd))%nat
           then checkGroups (InvertedGroups sd) (Groups d) else None) with
    | Some e => Ret (Some e)
    | None =>
        r ← (if (0 <? length (Ips sd))%nat
             then checkNets ErrIpOutsideCA (Ips d) (Ips sd) else Ret None);
        match r with
        | Some e => Ret (Some e)
        | None =>
            if (0 <? length (Subnets sd))%nat
            then checkNets ErrSubnetOutsideCA (Subnets d) (Subnets sd)
            else Ret None
        end
    end.

(** *** The CA pool *)

(** Modelled from the spec: the CA pool type of [cert/ca.go], which is
    not among the sources.  "A set of CA certificates indexed by their
    issuer fingerprint, plus a blocklist: a set of fingerprint
    strings." *)
Record CAPool := {
  CAs : gmap string NebulaCertificate;
  certBlocklist : gset string
}.

(** Modelled from the spec: [isBlocklistedWithCache] is not among the
    sources.  "Blocklist check by fingerprint", the fingerprint being
    "computed once and memoized" when the cache is in use.  A certificate
    whose fingerprint cannot be computed counts as blocklisted. *)
Definition isBlocklistedWithCache (ncp : CAPool) (c : NebulaCertificate) (useCache : bool)
  : outcome (NebulaCertificate * bool) :=
  '(c, h) ← sha256SumWithCache c useCache;
  match h with
  | Err _ => Ret (c, true)
  | Ok h => Ret (c, bool_decide (h ∈ certBlocklist ncp))
  end.

(** Modelled from the spec: [GetCAForCert] is not among the sources.
    "Resolve signer via ca_pool.get(issuer_hex)", failing for "no issuer
    set" and for "unknown issuer". *)
Definition GetCAForCert (ncp : CAPool) (c : NebulaCertificate) : result NebulaCertificate :=
  if bool_decide (Issuer (Details c) = EmptyString) then Err ErrNoIssuer
  else
    match CAs ncp !! Issuer (Details c) with
    | Some signer => Ok signer
    | None => Err ErrCaNotFound
    end.

(** *** Verification *)

(** The certificate is returned with the caches as the call leaves
    them, next to the Go result [(bool, error)]. *)
Definition verify (nc : NebulaCertificate) (t : time_Time) (ncp : CAPool) (useCache : bool)
  : outcome (NebulaCertificate * (bool * option error)) :=
  '(nc, blocked) ← isBlocklistedWithCache ncp nc useCache;
  if blocked : bool then Ret (nc, (false, Some ErrBlockListed))
  else
    match GetCAForCert ncp nc with
    | Err e => Ret (nc, (false, Some e))
    | Ok signer =>
        if Expired signer t then Ret (nc, (false, Some ErrRootExpired))
        else if Expired nc t then Ret (nc, (false, Some ErrExpired))
        else
          '(nc, ok) ← checkSignatureWithCache nc (PublicKey (Details signer)) useCache;
          if negb ok then Ret (nc, (false, Some ErrSignatureMismatch))
          else
            r ← CheckRootConstrains nc signer;
            match r with
            | Some e => Ret (nc, (false, Some e))
            | None => Ret (nc, (true, None))
            end
    end.

Definition Verify (nc : NebulaCertificate) (t : time_Time) (ncp : CAPool) :=
  verify nc t ncp false.

Definition VerifyWithCache (nc : NebulaCertificate) (t : time_Time) (ncp : CAPool) :=
  verify nc t ncp true.

End WithLib.

(** *** Copy *)

Definition copyNet (p : IPNet) : IPNet := {| IP := IP p; Mask := Mask p |}.

(** The composite literal of [Copy] names every field of the details
    except [Curve], and neither [Pkcs11Backed] nor the caches of the
    certificate: those take their zero values. *)
Definition Copy (nc : NebulaCertificate) : NebulaCertificate :=
  let d := Details nc in
  {| Details :=
       {| Name := Name d;
          Ips := map copyNet (Ips d);
          Subnets := map copyNet (Subnets d);
          Groups := Groups d;
          NotBefore := NotBefore d;
          NotAfter := NotAfter d;
          PublicKey := PublicKey d;
          IsCA := IsCA d;
          Issuer := Issuer d;
          InvertedGroups := InvertedGroups d;
          Curve := 0 |};
     Pkcs11Backed := false;
     Signature := Signature nc;
     sha256sum := None;
     signatureVerified := None |}.

(** *** Private keys *)

(** [ed25519.PrivateKey(key).Public()]: a fresh slice of 32 bytes into
    which [priv[32:]] is copied; the slice expression panics on a key of
    fewer than 32 bytes. *)
Definition ed25519_PrivateKey_Public (priv : bytes) : outcome bytes :=
  if (length priv <? 32)%nat then Panic "slice bounds out of range"
  else Ret (take ed25519_PublicKeySize (drop 32 priv ++ replicate ed25519_PublicKeySize Byte.x00)).

(** The errors of [VerifyPrivateKey], by their messages: "curve in cert and
    private key supplied don't match", "key was not 64 bytes, is invalid
    ed25519 private key", "public key in cert and private key supplied
    don't match", "cannot parse private key as P256", "invalid curve", and
    the error of [curve25519.X25519] or [ecdh.P256().NewPrivateKey] passed
    on. *)
Inductive key_error :=
| ErrKeyCurveMismatch
| ErrKeyNot64Bytes
| ErrKeyMismatch
| ErrKeyNotP256
| ErrKeyInvalidCurve (c : Curve_t)
| ErrKeyLibrary (e : error).

(** The errors of [SignPkcs11] of its own: "certificate is not PKCS#11
    backed", "curve in cert and private key supplied don't match", "only
    P256 is supported by PKCS#11"; and the error of [proto.Marshal] or of
    the client passed on. *)
Inductive pkcs11_error :=
| ErrNotPkcs11Backed
| ErrPkcs11CurveMismatch
| ErrPkcs11OnlyP256
| ErrPkcs11Library (e : error).

(** The key derivations [VerifyPrivateKey] calls:
    [curve25519.X25519(key, curve25519.Basepoint)], and
    [ecdh.P256().NewPrivateKey(key)] followed by [PublicKey().Bytes()]. *)
Class KeyLib := {
  curve25519_X25519_Basepoint : bytes → result bytes;
  ecdh_P256_PublicKey : bytes → result bytes
}.

Section WithKeyLib.
Context `{!GoLib} `{!KeyLib}.

Definition VerifyPrivateKey (nc : NebulaCertificate) (curve : Curve_t) (key : bytes)
  : outcome (option key_error) :=
  if Pkcs11Backed nc then Ret None
  else if negb (curve =? Curve (Details nc)) then Ret (Some ErrKeyCurveMismatch)
  else if IsCA (Details nc) then
    if curve =? Curve_CURVE25519 then
      if negb (length key =? ed25519_PrivateKeySize)%nat then Ret (Some ErrKeyNot64Bytes)
      else
        pub ← ed25519_PrivateKey_Public key;
        if negb (bytes_Equal (PublicKey (Details nc)) pub)
        then Ret (Some ErrKeyMismatch) else Ret None
    else if curve =? Curve_P256 then
      match ecdh_P256_PublicKey key with
      | Err _ => Ret (Some ErrKeyNotP256)
      | Ok pub =>
          if negb (bytes_Equal pub (PublicKey (Details nc)))
          then Ret (Some ErrKeyMismatch) else Ret None
      end
    else Ret (Some (ErrKeyInvalidCurve curve))
  else
    let derived :=
      if curve =? Curve_CURVE25519 then Some (curve25519_X25519_Basepoint key)
      else if curve =? Curve_P256 then Some (ecdh_P256_PublicKey key)
      else None in
    match derived with
    | None => Ret (Some (ErrKeyInvalidCurve curve))
    | Some (Err e) => Ret (Some (ErrKeyLibrary e))
    | Some (Ok pub) =>
        if negb (bytes_Equal pub (PublicKey (Details nc)))
        then Ret (Some ErrKeyMismatch) else Ret None
    end.

(** [client_SignASN1] is the [SignASN1] of the PKCS#11 client.  As for
    [Sign], the updated certificate is returned with the error. *)
Definition SignPkcs11 (nc : NebulaCertificate) (curve : Curve_t)
    (client_SignASN1 : bytes → result bytes)
  : outcome (NebulaCertificate * option pkcs11_error) :=
  if negb (Pkcs11Backed nc) then Ret (nc, Some ErrNotPkcs11Backed)
  else if negb (curve =? Curve (Details nc)) then Ret (nc, Some ErrPkcs11CurveMismatch)
  else if negb (curve =? Curve_P256) then Ret (nc, Some ErrPkcs11OnlyP256)
  else
    rd ← getRawDetails nc;
    match proto_Marshal_Details rd with
    | Err e => Ret (nc, Some (ErrPkcs11Library e))
    | Ok b =>
        match client_SignASN1 b with
        | Err e => Ret (nc, Some (ErrPkcs11Library e))
        | Ok sig => Ret (with_Signature nc sig, None)
        end
    end.

End WithKeyLib.

End cert.

(** ** The handshake manager *)

Module nebula.

Definition VpnIp := N.

(** The address of a [HostInfo]: every [*HostInfo] of the Go code is one
    of these.  The tables only ever receive pointers that were
    dereferenced before being stored, so they hold no nil. *)
Definition loc := positive.

Record udp_Addr := { addr_IP : bytes; addr_Port : N }.

(** Modelled from the spec: the relay table entry and its state, declared
    outside the sources.  "map from relay peer vpn_ip to relay state:
    {Requested, Established}"; any other stored value is [OtherState]. *)
Inductive RelayState := Requested | Established | OtherState.
Record Relay := { State : RelayState; LocalIndex : N }.

(** Modelled from the spec: [RemoteList] is declared outside the sources.
    "ordered, deduplicated list of UDP endpoints": [addrs] is the sequence
    [ForEach(preferredRanges, _)] visits and [Len(preferredRanges)] counts;
    [relays] is the field of that name. *)
Record RemoteList := { addrs : list udp_Addr; relays : list VpnIp }.

(** The fields of [HostInfo] that the handshake manager reads or writes;
    the struct itself is declared outside the sources.  [HandshakePacket]
    is a Go map from stage to packet: a missing stage reads as nil. *)
Record HostInfo := {
  remote : option udp_Addr;
  remotes : option RemoteList;
  ConnectionState : option N;
  HandshakeReady : bool;
  HandshakeCounter : Z;
  HandshakeComplete : bool;
  HandshakePacket : gmap N bytes;
  packetStore : list bytes;
  remoteIndexId : N;
  localIndexId : N;
  vpnIp : VpnIp;
  relayState : gmap VpnIp Relay;
  lastHandshakeTime : N
}.

#[global] Instance HostInfo_inhabited : Inhabited HostInfo :=
  populate {| remote := None; remotes := None; ConnectionState := None;
              HandshakeReady := false; HandshakeCounter := 0;
              HandshakeComplete := false; HandshakePacket := ∅;
              packetStore := []; remoteIndexId := 0%N; localIndexId := 0%N;
              vpnIp := 0%N; relayState := ∅; lastHandshakeTime := 0%N |}.

Record HostMap := {
  Hosts : gmap VpnIp loc;
  Indexes : gmap N loc;
  RemoteIndexes : gmap N loc;
  Relays : gmap N loc
}.

Record HandshakeConfig := {
  tryInterval : Z;
  retries : Z;
  triggerBuffer : Z;
  useRelays : bool
}.

Definition DefaultHandshakeTryInterval : Z := 100 * 1000000.
Definition DefaultHandshakeRetries : Z := 10.
Definition DefaultHandshakeTriggerBuffer : Z := 64.
Definition DefaultUseRelays : bool := true.

Definition defaultHandshakeConfig : HandshakeConfig :=
  {| tryInterval := DefaultHandshakeTryInterval;
     retries := DefaultHandshakeRetries;
     triggerBuffer := DefaultHandshakeTriggerBuffer;
     useRelays := DefaultUseRelays |}.

(** Modelled from the spec: the lighthouse, consumed through its contract.
    "QueryCache(vpn_ip) → RemoteList: non-blocking, returns known
    endpoints." *)
Record LightHouse := {
  myVpnIp : VpnIp;
  lh_cache : gmap VpnIp RemoteList
}.

Definition QueryCache (lh : LightHouse) (ip : VpnIp) : RemoteList :=
  default {| addrs := []; relays := [] |} (lh_cache lh !! ip).

Record NebulaControl := {
  Type_ : N;
  InitiatorRelayIndex : N;
  ResponderRelayIndex : N;
  RelayFromIp : N;
  RelayToIp : N
}.
Definition NebulaControl_CreateRelayRequest : N := 1.

(** What the manager does to its collaborators: the UDP socket
    ([outside.WriteTo]), the metrics, the lighthouse ([QueryServer]) and
    the [udp.EncWriter] it is handed. *)
Inductive effect :=
| WriteTo (b : bytes) (addr : udp_Addr)
| MetricTx (subtype : byte)
| MetricTimedOut
| QueryServer (ip : VpnIp)
| Handshake (ip : VpnIp)
| SendVia (via : loc) (relay : Relay) (ad : bytes)
| SendMessageToVpnIp (ip : VpnIp) (p : bytes).

(** Modelled from the spec: the timer wheel is declared outside the
    sources.  It is represented by the [Add(vpn_ip, duration)] requests it
    has received, oldest first; "Items are plain IDs, never HostInfo
    pointers". *)
Definition SystemTimerWheel := list (VpnIp * Z).

(** Modelled from the spec: "Add(vpn_ip, duration) places the item in the
    slot (cursor + ⌈duration/tick⌉) mod N". *)
Definition wheel_slot (tick wheelLen cursor duration : Z) : Z :=
  (cursor + (duration + tick - 1) / tick) mod wheelLen.

(** The manager, the [HostInfo] objects its tables point to ([heap]) and
    the effects it has had so far ([effects], oldest first). *)
Record HandshakeManager := {
  heap : gmap loc HostInfo;
  pendingHostMap : HostMap;
  mainHostMap : HostMap;
  lightHouse : LightHouse;
  config : HandshakeConfig;
  OutboundHandshakeTimer : SystemTimerWheel;
  effects : list effect
}.

Inductive error :=
| ErrExistingHostInfo
| ErrAlreadySeen
| ErrLocalIndexCollision
| ErrExistingHandshake.

(** The protobuf encoding of a control message ([None] when [proto.Marshal]
    fails) and the index [AddRelay] draws from the random source ([None]
    when it gives up). *)
Class Env := {
  proto_Marshal_Control : NebulaControl → option bytes;
  generateRelayIndex : gmap N loc → option N
}.

(** *** State access *)

Definition deref (c : HandshakeManager) (p : loc) : HostInfo := heap c !!! p.

Definition with_heap (c : HandshakeManager) (h : gmap loc HostInfo) : HandshakeManager :=
  {| heap := h; pendingHostMap := pendingHostMap c; mainHostMap := mainHostMap c;
     lightHouse := lightHouse c; config := config c;
     OutboundHandshakeTimer := OutboundHandshakeTimer c; effects := effects c |}.

Definition with_pending (c : HandshakeManager) (m : HostMap) : HandshakeManager :=
  {| heap := heap c; pendingHostMap := m; mainHostMap := mainHostMap c;
     lightHouse := lightHouse c; config := config c;
     OutboundHandshakeTimer := OutboundHandshakeTimer c; effects := effects c |}.

Definition with_main (c : HandshakeManager) (m : HostMap) : HandshakeManager :=
  {| heap := heap c; pendingHostMap := pendingHostMap c; mainHostMap := m;
     lightHouse := lightHouse c; config := config c;
     OutboundHandshakeTimer := OutboundHandshakeTimer c; effects := effects c |}.

Definition emit (c : HandshakeManager) (e : effect) : HandshakeManager :=
  {| heap := heap c; pendingHostMap := pendingHostMap c; mainHostMap := mainHostMap c;
     lightHouse := lightHouse c; config := config c;
     OutboundHandshakeTimer := OutboundHandshakeTimer c; effects := effects c ++ [e] |}.

(** [c.OutboundHandshakeTimer.Add(vpnIp, d)]. *)
Definition timer_Add (c : HandshakeManager) (ip : VpnIp) (d : Z) : HandshakeManager :=
  {| heap := heap c; pendingHostMap := pendingHostMap c; mainHostMap := mainHostMap c;
     lightHouse := lightHouse c; config := config c;
     OutboundHandshakeTimer := OutboundHandshakeTimer c ++ [(ip, d)];
     effects := effects c |}.

Definition store (c : HandshakeManager) (p : loc) (h : HostInfo) : HandshakeManager :=
  with_heap c (<[p := h]> (heap c)).

Definition set_remotes (h : HostInfo) (r : option RemoteList) : HostInfo :=
  {| remote := remote h; remotes := r; ConnectionState := ConnectionState h;
     HandshakeReady := HandshakeReady h; HandshakeCounter := HandshakeCounter h;
     HandshakeComplete := HandshakeComplete h; HandshakePacket := HandshakePacket h;
     packetStore := packetStore h; remoteIndexId := remoteIndexId h;
     localIndexId := localIndexId h; vpnIp := vpnIp h;
     relayState := relayState h; lastHandshakeTime := lastHandshakeTime h |}.

Definition set_HandshakeCounter (h : HostInfo) (n : Z) : HostInfo :=
  {| remote := remote h; remotes := remotes h; ConnectionState := ConnectionState h;
     HandshakeReady := HandshakeReady h; HandshakeCounter := n;
     HandshakeComplete := HandshakeComplete h; HandshakePacket := HandshakePacket h;
     packetStore := packetStore h; remoteIndexId := remoteIndexId h;
     localIndexId := localIndexId h; vpnIp := vpnIp h;
     relayState := relayState h; lastHandshakeTime := lastHandshakeTime h |}.

Definition set_packetStore (h : HostInfo) (ps : list bytes) : HostInfo :=
  {| remote := remote h; remotes := remotes h; ConnectionState := ConnectionState h;
     HandshakeReady := HandshakeReady h; HandshakeCounter := HandshakeCounter h;
     HandshakeComplete := HandshakeComplete h; HandshakePacket := HandshakePacket h;
     packetStore := ps; remoteIndexId := remoteIndexId h;
     localIndexId := localIndexId h; vpnIp := vpnIp h;
     relayState := relayState h; lastHandshakeTime := lastHandshakeTime h |}.

Definition set_relayState (h : HostInfo) (rs : gmap VpnIp Relay) : HostInfo :=
  {| remote := remote h; remotes := remotes h; ConnectionState := ConnectionState h;
     HandshakeReady := HandshakeReady h; HandshakeCounter := HandshakeCounter h;
     HandshakeComplete := HandshakeComplete h; HandshakePacket := HandshakePacket h;
     packetStore := packetStore h; remoteIndexId := remoteIndexId h;
     localIndexId := localIndexId h; vpnIp := vpnIp h;
     relayState := rs; lastHandshakeTime := lastHandshakeTime h |}.

(** [hostinfo.HandshakePacket[i]]. *)
Definition packet (h : HostInfo) (i : N) : bytes :=
  default [] (HandshakePacket h !! i).

(** *** Host-map operations *)

(** Modelled from the spec: [QueryVpnIp] is not among the sources.
    "QueryVpnIp(vpn_ip) → HostInfo | NotFound." *)
Definition QueryVpnIp (hm : HostMap) (ip : VpnIp) : option loc := Hosts hm !! ip.

(** Modelled from the spec: [unlockedDeleteHostInfo] (and [DeleteHostInfo],
    which takes the lock around it) is not among the sources.  "removes
    from all three indices ...; idempotent." *)
Definition unlockedDeleteHostInfo (hm : HostMap) (h : HostInfo) : HostMap :=
  {| Hosts := delete (vpnIp h) (Hosts hm);
     Indexes := delete (localIndexId h) (Indexes hm);
     RemoteIndexes := delete (remoteIndexId h) (RemoteIndexes hm);
     Relays := Relays hm |}.

(** Modelled from the spec: [addHostInfo] is not among the sources.
    "installs in all three tables." *)
Definition addHostInfo (hm : HostMap) (p : loc) (h : HostInfo) : HostMap :=
  {| Hosts := <[vpnIp h := p]> (Hosts hm);
     Indexes := <[localIndexId h := p]> (Indexes hm);
     RemoteIndexes := <[remoteIndexId h := p]> (RemoteIndexes hm);
     Relays := Relays hm |}.

(** Modelled from the spec: [AddRelay] is not among the sources.  It
    records, on the relay's [HostInfo], a relay for the target in the given
    state (here always [Requested]) under a freshly drawn index, and
    returns that index; when no index can be drawn it returns index 0 and
    an error. *)
Definition AddRelay `{!Env} (c : HandshakeManager) (relayHostInfo : loc) (ip : VpnIp)
  : HandshakeManager * (N * bool) :=
  match generateRelayIndex (Relays (mainHostMap c)) with
  | None => (c, (0%N, true))
  | Some index =>
      let rh := deref c relayHostInfo in
      let newRelay := {| State := Requested; LocalIndex := index |} in
      let c := store c relayHostInfo (set_relayState rh (<[ip := newRelay]> (relayState rh))) in
      let hm := mainHostMap c in
      (with_main c {| Hosts := Hosts hm; Indexes := Indexes hm;
                      RemoteIndexes := RemoteIndexes hm;
                      Relays := <[index := relayHostInfo]> (Relays hm) |},
       (index, false))
  end.

(** *** hsTimeout *)

(** [tries / 2 * ((2 * int(interval)) + (tries-1)*int(interval))], in Go's
    [int]: [/] and [*] associate to the left, so the halving is done first
    and on [tries] alone. *)
Definition hsTimeout (tries : Z) (interval : Z) : Z :=
  mul64 (div64 tries 2)
        (add64 (mul64 2 interval) (mul64 (sub64 tries 1) interval)).

(** The window [NewHandshakeManager] gives the timer wheel. *)
Definition NewHandshakeManager_wheelDuration (cfg : HandshakeConfig) : Z :=
  hsTimeout (retries cfg) (tryInterval cfg).

(** *** handleOutbound *)

(** The callback of [hostinfo.remotes.ForEach]: a transmit metric keyed by
    the second byte of the packet, then the write.  A failed write is only
    logged. *)
Fixpoint sendToAll (pkt : bytes) (to : list udp_Addr) (c : HandshakeManager)
  : outcome HandshakeManager :=
  match to with
  | [] => Ret c
  | addr :: rest =>
      match pkt !! 1%nat with
      | None => Panic "index out of range"
      | Some subtype =>
          sendToAll pkt rest (emit (emit c (MetricTx subtype)) (WriteTo pkt addr))
      end
  end.

Definition createRelayRequest (c : HandshakeManager) (index : N) (ip : VpnIp) : NebulaControl :=
  {| Type_ := NebulaControl_CreateRelayRequest;
     InitiatorRelayIndex := index;
     ResponderRelayIndex := 0;
     RelayFromIp := myVpnIp (lightHouse c);
     RelayToIp := ip |}.

Section WithEnv.
Context `{!Env}.

Definition sendControl (c : HandshakeManager) (relay : VpnIp) (m : NebulaControl)
  : HandshakeManager :=
  match proto_Marshal_Control m with
  | None => c
  | Some msg => emit c (SendMessageToVpnIp relay msg)
  end.

(** One iteration of the loop over [hostinfo.remotes.relays]. *)
Definition relayAttempt (ip : VpnIp) (hostinfo : loc) (c : HandshakeManager) (relay : VpnIp)
  : HandshakeManager :=
  if (relay =? ip)%N || (relay =? myVpnIp (lightHouse c))%N then c
  else
    match QueryVpnIp (mainHostMap c) relay with
    | None => emit c (Handshake relay)
    | Some relayHostInfo =>
        match remote (deref c relayHostInfo) with
        | None => emit c (Handshake relay)
        | Some _ =>
            match relayState (deref c relayHostInfo) !! ip with
            | Some existingRelay =>
                match State existingRelay with
                | Established =>
                    emit c (SendVia relayHostInfo existingRelay (packet (deref c hostinfo) 0))
                | Requested =>
                    sendControl c relay (createRelayRequest c (LocalIndex existingRelay) ip)
                | OtherState => c
                end
            | None =>
                let '(c, (idx, _)) := AddRelay c relayHostInfo ip in
                sendControl c relay (createRelayRequest c idx ip)
            end
        end
    end.

Definition handleOutbound (c : HandshakeManager) (ip : VpnIp) (lighthouseTriggered : bool)
  : outcome HandshakeManager :=
  match QueryVpnIp (pendingHostMap c) ip with
  | None => Ret c
  | Some p =>
      let hostinfo := deref c p in
      if HandshakeComplete hostinfo then
        Ret (with_pending c (unlockedDeleteHostInfo (pendingHostMap c) hostinfo))
      else if negb (HandshakeReady hostinfo) then
        Ret (timer_Add c ip (mul64 (tryInterval (config c)) (HandshakeCounter hostinfo)))
      else if retries (config c) <=? HandshakeCounter hostinfo then
        let c := emit c MetricTimedOut in
        Ret (with_pending c (unlockedDeleteHostInfo (pendingHostMap c) hostinfo))
      else if lighthouseTriggered && (0 <? HandshakeCounter hostinfo) then Ret c
      else
        let c :=
          match remotes hostinfo with
          | None => store c p (set_remotes hostinfo (Some (QueryCache (lightHouse c) ip)))
          | Some _ => c
          end in
        let rl := default {| addrs := []; relays := [] |} (remotes (deref c p)) in
        let c := if (length (addrs rl) <=? 1)%nat then emit c (QueryServer ip) else c in
        c ← sendToAll (packet (deref c p) 0) (addrs rl) c;
        let c := if useRelays (config c)
                 then foldl (relayAttempt ip p) c (relays rl) else c in
        let h := deref c p in
        let c := store c p (set_HandshakeCounter h (add64 (HandshakeCounter h) 1)) in
        if negb lighthouseTriggered then
          Ret (timer_Add c ip (mul64 (tryInterval (config c))
                                     (HandshakeCounter (deref c p))))
        else Ret c
  end.

End WithEnv.

(** *** CheckAndComplete *)

(** The first check: an existing tunnel in the main table that has seen
    this very packet, or whose handshake is at least as recent. *)
Definition checkExistingTunnel (c : HandshakeManager) (h : HostInfo)
    (existingHostInfo : option loc) (handshakePacket : N) : option error :=
  match existingHostInfo with
  | None => None
  | Some existingHostInfo =>
      let e := deref c existingHostInfo in
      if bytes_Equal (packet h handshakePacket) (packet e handshakePacket)
      then Some ErrAlreadySeen
      else if (lastHandshakeTime h <=? lastHandshakeTime e)%N
      then Some ErrExistingHostInfo
      else None
  end.

(** The tail of [CheckAndComplete], after every check has passed: drop the
    old references of the tunnel being replaced, install the new one. *)
Definition installInMain (c : HandshakeManager) (hostinfo : loc)
    (existingHostInfo : option loc)
  : HandshakeManager * (option loc * option error) :=
  let c :=
    match existingHostInfo with
    | Some e =>
        let eh := deref c e in
        let hm := mainHostMap c in
        with_main c {| Hosts := delete (vpnIp eh) (Hosts hm);
                       Indexes := delete (localIndexId eh) (Indexes hm);
                       RemoteIndexes := delete (remoteIndexId eh) (RemoteIndexes hm);
                       Relays := Relays hm |}
    | None => c
    end in
  (with_main c (addHostInfo (mainHostMap c) hostinfo (deref c hostinfo)),
   (existingHostInfo, None)).

(** The check against a handshake of our own that is still pending, and
    what follows it. *)
Definition checkPendingHandshake (c : HandshakeManager) (hostinfo : loc)
    (existingHostInfo : option loc) (overwrite : bool)
  : outcome (HandshakeManager * (option loc * option error)) :=
  match Hosts (pendingHostMap c) !! vpnIp (deref c hostinfo) with
  | Some pendingHostInfo =>
      if negb overwrite
      then Ret (c, (Some pendingHostInfo, Some ErrExistingHandshake))
      else
        match ConnectionState (deref c pendingHostInfo) with
        | None => Panic "nil pointer dereference"
        | Some _ =>
            let c1 :=
              store c hostinfo
                (set_packetStore (deref c hostinfo)
                   (packetStore (deref c hostinfo)
                      ++ packetStore (deref c pendingHostInfo))) in
            let c2 :=
              with_pending c1
                (unlockedDeleteHostInfo (pendingHostMap c1) (deref c1 pendingHostInfo)) in
            Ret (installInMain c2 hostinfo existingHostInfo)
        end
  | None => Ret (installInMain c hostinfo existingHostInfo)
  end.

(** The pointer returned with an error is the conflicting [HostInfo]; with
    no error it is the tunnel that was replaced, if any. *)
Definition CheckAndComplete (c : HandshakeManager) (hostinfo : loc)
    (handshakePacket : N) (overwrite : bool)
  : outcome (HandshakeManager * (option loc * option error)) :=
  let h := deref c hostinfo in
  let existingHostInfo := Hosts (mainHostMap c) !! vpnIp h in
  match checkExistingTunnel c h existingHostInfo handshakePacket with
  | Some err => Ret (c, (existingHostInfo, Some err))
  | None =>
      match Indexes (mainHostMap c) !! localIndexId h with
      | Some existingIndex => Ret (c, (Some existingIndex, Some ErrLocalIndexCollision))
      | None =>
          match Indexes (pendingHostMap c) !! localIndexId h with
          | Some existingIndex =>
              if bool_decide (existingIndex ≠ hostinfo)
              then Ret (c, (Some existingIndex, Some ErrLocalIndexCollision))
              else checkPendingHandshake c hostinfo existingHostInfo overwrite
          | None => checkPendingHandshake c hostinfo existingHostInfo overwrite
          end
      end
  end.

(** *** Complete *)

(** The lookup in [RemoteIndexes] between the two steps only logs a
    collision; it changes nothing. *)
Definition Complete (c : HandshakeManager) (hostinfo : loc) : HandshakeManager :=
  let c :=
    match Hosts (mainHostMap c) !! vpnIp (deref c hostinfo) with
    | Some e =>
        let eh := deref c e in
        let hm := mainHostMap c in
        with_main c {| Hosts := delete (vpnIp eh) (Hosts hm);
                       Indexes := delete (localIndexId eh) (Indexes hm);
                       RemoteIndexes := delete (remoteIndexId eh) (RemoteIndexes hm);
                       Relays := Relays hm |}
    | None => c
    end in
  let c := with_main c (addHostInfo (mainHostMap c) hostinfo (deref c hostinfo)) in
  with_pending c (unlockedDeleteHostInfo (pendingHostMap c) (deref c hostinfo)).

(** *** generateIndex and AddIndexHostInfo *)

(** [crypto/rand]: what the successive calls of [rand.Read] leave in the
    four-byte buffer, [None] for a call that fails.  A run makes finitely
    many calls; a call past the end of the list fails. *)
Definition rand_Reader := list (option (byte * byte * byte * byte)).

(** [binary.BigEndian.Uint32] of the four-byte buffer. *)
Definition buffer_Uint32 (b : byte * byte * byte * byte) : N :=
  let '(b0, b1, b2, b3) := b in
  (Byte.to_N b3 + 256 * (Byte.to_N b2 + 256 * (Byte.to_N b1 + 256 * Byte.to_N b0)))%N.

(** The index, or [None] for [(0, err)], and what is left of the random
    source. *)
Fixpoint generateIndex (rnd : rand_Reader) : rand_Reader * option N :=
  match rnd with
  | [] => ([], None)
  | None :: rest => (rest, None)
  | Some b :: rest =>
      if (buffer_Uint32 b =? 0)%N then generateIndex rest
      else (rest, Some (buffer_Uint32 b))
  end.

Inductive index_error :=
| ErrRandRead
| ErrNoUniqueIndex.

Definition set_localIndexId (h : HostInfo) (i : N) : HostInfo :=
  {| remote := remote h; remotes := remotes h; ConnectionState := ConnectionState h;
     HandshakeReady := HandshakeReady h; HandshakeCounter := HandshakeCounter h;
     HandshakeComplete := HandshakeComplete h; HandshakePacket := HandshakePacket h;
     packetStore := packetStore h; remoteIndexId := remoteIndexId h;
     localIndexId := i; vpnIp := vpnIp h;
     relayState := relayState h; lastHandshakeTime := lastHandshakeTime h |}.

(** The loop of [AddIndexHostInfo] with [n] iterations left. *)
Fixpoint AddIndexHostInfo_loop (n : nat) (rnd : rand_Reader) (c : HandshakeManager) (h : loc)
  : rand_Reader * (HandshakeManager * option index_error) :=
  match n with
  | O => (rnd, (c, Some ErrNoUniqueIndex))
  | S n' =>
      match generateIndex rnd with
      | (rnd, None) => (rnd, (c, Some ErrRandRead))
      | (rnd, Some index) =>
          let inPending := bool_decide (is_Some (Indexes (pendingHostMap c) !! index)) in
          let inMain := bool_decide (is_Some (Indexes (mainHostMap c) !! index)) in
          if negb inMain && negb inPending then
            let c := store c h (set_localIndexId (deref c h) index) in
            let hm := pendingHostMap c in
            (rnd, (with_pending c {| Hosts := Hosts hm;
                                     Indexes := <[index := h]> (Indexes hm);
                                     RemoteIndexes := RemoteIndexes hm;
                                     Relays := Relays hm |}, None))
          else AddIndexHostInfo_loop n' rnd c h
      end
  end.

Definition AddIndexHostInfo (rnd : rand_Reader) (c : HandshakeManager) (h : loc)
  : rand_Reader * (HandshakeManager * option index_error) :=
  AddIndexHostInfo_loop 32 rnd c h.

End nebula.

(** ** The protobuf wire format of [cert.proto] and of the control message

    The encoding proto3 prescribes for the messages above, written out so
    that the definitions can be run on examples: base-128 varints, tags
    [(field << 3) | wire_type], length-delimited strings, bytes and
    sub-messages, packed repeated scalars, fields with their zero value
    omitted, fields in field-number order. *)

Module protowire.
Import GoStd.

Fixpoint varint_go (fuel : nat) (n : N) : bytes :=
  match fuel with
  | O => []
  | S f =>
      if (n <? 128)%N then [byte_of_N n]
      else byte_of_N (128 + n mod 128) :: varint_go f (n / 128)
  end.

(** A 64-bit value takes at most ten bytes. *)
Definition varint (n : N) : bytes := varint_go 10 n.

(** Signed integers are written as their 64-bit two's complement. *)
Definition uint64_of_Z (z : Z) : N := Z.to_N (z mod 2 ^ 64).
Definition int64_of_N (n : N) : Z := wrap64 (Z.of_N n).
Definition int32_of_N (n : N) : Z :=
  (Z.of_N n + 2 ^ 31) mod 2 ^ 32 - 2 ^ 31.

Definition tag (field wire_type : N) : bytes := varint (field * 8 + wire_type).

Definition enc_len (field : N) (payload : bytes) : bytes :=
  tag field 2 ++ varint (N.of_nat (length payload)) ++ payload.

Definition enc_bytes (field : N) (b : bytes) : bytes :=
  match b with [] => [] | _ => enc_len field b end.

Definition enc_string (field : N) (s : string) : bytes :=
  enc_bytes field (list_byte_of_string s).

Definition enc_varint (field : N) (n : N) : bytes :=
  if (n =? 0)%N then [] else tag field 0 ++ varint n.

Definition enc_packed (field : N) (l : list N) : bytes :=
  enc_bytes field (concat (map varint l)).

Definition enc_Details (rd : cert.RawNebulaCertificateDetails) : bytes :=
  enc_string 1 (cert.rName rd)
  ++ enc_packed 2 (cert.rIps rd)
  ++ enc_packed 3 (cert.rSubnets rd)
  ++ concat (map (λ g, enc_len 4 (list_byte_of_string g)) (cert.rGroups rd))
  ++ enc_varint 5 (uint64_of_Z (cert.rNotBefore rd))
  ++ enc_varint 6 (uint64_of_Z (cert.rNotAfter rd))
  ++ enc_bytes 7 (cert.rPublicKey rd)
  ++ enc_varint 8 (if cert.rIsCA rd then 1 else 0)
  ++ enc_bytes 9 (cert.rIssuer rd)
  ++ enc_varint 100 (uint64_of_Z (cert.rCurve rd)).

Definition enc_Certificate (rc : cert.RawNebulaCertificate) : bytes :=
  match cert.rDetails rc with
  | Some rd => enc_len 1 (enc_Details rd)
  | None => []
  end
  ++ enc_bytes 2 (cert.rSignature rc).

Definition enc_Control (m : nebula.NebulaControl) : bytes :=
  enc_varint 1 (nebula.Type_ m)
  ++ enc_varint 2 (nebula.InitiatorRelayIndex m)
  ++ enc_varint 3 (nebula.ResponderRelayIndex m)
  ++ enc_varint 4 (nebula.RelayFromIp m)
  ++ enc_varint 5 (nebula.RelayToIp m).

(** *** Decoding *)

Fixpoint read_varint_go (fuel : nat) (b : bytes) : option (N * bytes) :=
  match fuel, b with
  | S f, x :: rest =>
      let v := Byte.to_N x in
      if (v <? 128)%N then Some (v, rest)
      else
        match read_varint_go f rest with
        | Some (hi, rest') => Some ((v - 128) + 128 * hi, rest')%N
        | None => None
        end
  | _, _ => None
  end.

Definition read_varint (b : bytes) : option (N * bytes) :=
  match read_varint_go 10 b with
  | Some (n, rest) => Some (n mod 2 ^ 64, rest)%N
  | None => None
  end.

Inductive wire_value :=
| Varint (n : N)
| LengthDelimited (b : bytes).

(** The fields of a message in the order they occur; fixed-width wire
    types do not occur in these messages and are refused. *)
Fixpoint read_fields (fuel : nat) (b : bytes) : option (list (N * wire_value)) :=
  match fuel with
  | O => match b with [] => Some [] | _ => None end
  | S f =>
      match b with
      | [] => Some []
      | _ =>
          '(t, rest) ← read_varint b;
          if (t mod 8 =? 0)%N then
            '(v, rest) ← read_varint rest;
            tl ← read_fields f rest;
            Some ((t / 8, Varint v)%N :: tl)
          else if (t mod 8 =? 2)%N then
            '(n, rest) ← read_varint rest;
            if (length rest <? N.to_nat n)%nat then None
            else
              tl ← read_fields f (drop (N.to_nat n) rest);
              Some ((t / 8, LengthDelimited (take (N.to_nat n) rest))%N :: tl)
          else None
      end
  end.

Fixpoint read_packed (fuel : nat) (b : bytes) : option (list N) :=
  match fuel with
  | O => match b with [] => Some [] | _ => None end
  | S f =>
      match b with
      | [] => Some []
      | _ =>
          '(v, rest) ← read_varint b;
          tl ← read_packed f rest;
          Some ((v mod 2 ^ 32)%N :: tl)
      end
  end.

Definition emptyDetails : cert.RawNebulaCertificateDetails :=
  {| cert.rName := EmptyString; cert.rIps := []; cert.rSubnets := [];
     cert.rGroups := []; cert.rNotBefore := 0; cert.rNotAfter := 0;
     cert.rPublicKey := []; cert.rIsCA := false; cert.rIssuer := [];
     cert.rCurve := 0 |}.

Definition set_field (rd : cert.RawNebulaCertificateDetails) (f : N * wire_value)
  : option cert.RawNebulaCertificateDetails :=
  let upd name ips subnets groups nb na pk ca iss cv :=
    Some {| cert.rName := name; cert.rIps := ips; cert.rSubnets := subnets;
            cert.rGroups := groups; cert.rNotBefore := nb; cert.rNotAfter := na;
            cert.rPublicKey := pk; cert.rIsCA := ca; cert.rIssuer := iss;
            cert.rCurve := cv |} in
  let '(cert.Build_RawNebulaCertificateDetails name ips subnets groups nb na pk ca iss cv) := rd in
  match f with
  | (1, LengthDelimited b)%N =>
      upd (string_of_list_byte b) ips subnets groups nb na pk ca iss cv
  | (2, LengthDelimited b)%N =>
      l ← read_packed (length b) b;
      upd name (ips ++ l) subnets groups nb na pk ca iss cv
  | (2, Varint v)%N => upd name (ips ++ [(v mod 2 ^ 32)%N]) subnets groups nb na pk ca iss cv
  | (3, LengthDelimited b)%N =>
      l ← read_packed (length b) b;
      upd name ips (subnets ++ l) groups nb na pk ca iss cv
  | (3, Varint v)%N => upd name ips (subnets ++ [(v mod 2 ^ 32)%N]) groups nb na pk ca iss cv
  | (4, LengthDelimited b)%N =>
      upd name ips subnets (groups ++ [string_of_list_byte b]) nb na pk ca iss cv
  | (5, Varint v)%N => upd name ips subnets groups (int64_of_N v) na pk ca iss cv
  | (6, Varint v)%N => upd name ips subnets groups nb (int64_of_N v) pk ca iss cv
  | (7, LengthDelimited b)%N => upd name ips subnets groups nb na b ca iss cv
  | (8, Varint v)%N => upd name ips subnets groups nb na pk (negb (v =? 0)%N) iss cv
  | (9, LengthDelimited b)%N => upd name ips subnets groups nb na pk ca b cv
  | (100, Varint v)%N => upd name ips subnets groups nb na pk ca iss (int32_of_N v)
  | (n, _) =>
      (* a known field with the wrong wire type is an error, an unknown
         field is kept aside *)
      if bool_decide (n ∈ [1; 2; 3; 4; 5; 6; 7; 8; 9; 100]%N) then None else Some rd
  end.

Definition dec_Details (b : bytes) : option cert.RawNebulaCertificateDetails :=
  fields ← read_fields (length b) b;
  foldl (λ acc f, rd ← acc; set_field rd f) (Some emptyDetails) fields.

Definition set_cert_field (rc : cert.RawNebulaCertificate) (f : N * wire_value)
  : option cert.RawNebulaCertificate :=
  match f with
  | (1, LengthDelimited b)%N =>
      rd ← dec_Details b;
      Some {| cert.rDetails := Some rd; cert.rSignature := cert.rSignature rc |}
  | (2, LengthDelimited b)%N =>
      Some {| cert.rDetails := cert.rDetails rc; cert.rSignature := b |}
  | (n, _) => if bool_decide (n ∈ [1; 2]%N) then None else Some rc
  end.

Definition dec_Certificate (b : bytes) : option cert.RawNebulaCertificate :=
  fields ← read_fields (length b) b;
  foldl (λ acc f, rc ← acc; set_cert_field rc f)
        (Some {| cert.rDetails := None; cert.rSignature := [] |}) fields.

End protowire.

(** ** An executable instance of the libraries

    The protobuf codec is the wire format above.  SHA-256 and the two
    signature schemes are replaced by keyed checksums with the same
    interface: an Ed25519 private key is 64 bytes whose second half is the
    public key, a P-256 public key is 65 bytes starting with [0x04], and a
    signature made with a private key verifies under its public key. *)

Module testlib.
Import GoStd.

Definition be_bytes (len : nat) (n : N) : bytes :=
  map (λ i, byte_of_N (n / 256 ^ N.of_nat i)) (rev (seq 0 len)).

(** A 32-byte checksum. *)
Definition digest (b : bytes) : bytes :=
  be_bytes 32
    (foldl (λ acc x, (acc * 1000003 + Byte.to_N x + 1) mod 2 ^ 256)%N 7%N b).

Definition p256_public (key : bytes) : bytes :=
  Byte.x04 :: digest key ++ digest (digest key).

#[global] Instance lib : cert.GoLib := {|
  cert.proto_Marshal_Details rd := cert.Ok (protowire.enc_Details rd);
  cert.proto_Marshal rc := cert.Ok (protowire.enc_Certificate rc);
  cert.proto_Unmarshal b :=
    match protowire.dec_Certificate b with
    | Some rc => cert.Ok rc
    | None => cert.Err (cert.ErrLibrary "proto: cannot parse invalid wire-format data")
    end;
  cert.sha256_Sum256 := digest;
  cert.ed25519_Sign priv msg :=
    let pub := drop 32 priv in digest (pub ++ msg) ++ digest (msg ++ pub);
  cert.ed25519_Verify pub msg sig :=
    bytes_Equal sig (digest (pub ++ msg) ++ digest (msg ++ pub));
  cert.ecdsa_P256_SignASN1 rnd key hashed :=
    cert.Ok (digest (p256_public key ++ hashed));
  cert.ecdsa_P256_VerifyASN1 pub hashed sig :=
    Ret ((length pub =? 65)%nat
         && bool_decide (head pub = Some Byte.x04)
         && bytes_Equal sig (digest (pub ++ hashed)))
|}.

#[global] Instance env : nebula.Env := {|
  nebula.proto_Marshal_Control m := Some (protowire.enc_Control m);
  nebula.generateRelayIndex used :=
    Some (1 + map_fold (λ k _ acc, N.max k acc) 0 used)%N
|}.

(** *** Sample certificates *)

Definition seed (x : byte) : bytes := repeat x 32.

Definition caPublicKey : bytes :=
  Eval vm_compute in
    (digest (seed Byte.x01)).
Definition caPrivateKey : bytes :=
    Eval vm_compute in
      (seed Byte.x01 ++ caPublicKey).

Definition net4 (a b c d : N) (m0 m1 m2 m3 : N) : IPNet :=
  {| IP := [byte_of_N a; byte_of_N b; byte_of_N c; byte_of_N d];
     Mask := [byte_of_N m0; byte_of_N m1; byte_of_N m2; byte_of_N m3] |}.

Definition unsigned (d : cert.NebulaCertificateDetails) : cert.NebulaCertificate :=
  {| cert.Details := d; cert.Pkcs11Backed := false; cert.Signature := [];
     cert.sha256sum := None; cert.signatureVerified := None |}.

(** What [Sign] leaves in the certificate, the unsigned certificate when it
    fails. *)
Definition signed (nc : cert.NebulaCertificate) (curve : cert.Curve_t) (key : bytes)
  : cert.NebulaCertificate :=
  match cert.Sign [] nc curve key with
  | Ret (nc', None) => nc'
  | _ => nc
  end.

Definition fingerprint (nc : cert.NebulaCertificate) : string :=
  match cert.Sha256Sum nc with
  | Ret (cert.Ok s) => s
  | _ => EmptyString
  end.

(** A self-signed Curve25519 CA, valid from second 1000 to second 9000,
    limited to group "ops" and to 10.0.0.0/8. *)
Definition sampleCA : cert.NebulaCertificate :=
  Eval vm_compute in
    (signed
      (unsigned
         {| cert.Name := "ca"; cert.Ips := [net4 10 0 0 0 255 0 0 0];
            cert.Subnets := []; cert.Groups := ["ops"];
            cert.NotBefore := time_Unix 1000; cert.NotAfter := time_Unix 9000;
            cert.PublicKey := caPublicKey; cert.IsCA := true;
            cert.Issuer := EmptyString;
            cert.InvertedGroups := {["ops"]};
            cert.Curve := cert.Curve_CURVE25519 |})
      cert.Curve_CURVE25519 caPrivateKey).

Definition leafDetails : cert.NebulaCertificateDetails :=
  Eval vm_compute in
    ({| cert.Name := "host"; cert.Ips := [net4 10 1 2 3 255 255 255 0];
       cert.Subnets := []; cert.Groups := ["ops"];
       cert.NotBefore := time_Unix 2000; cert.NotAfter := time_Unix 8000;
       cert.PublicKey := digest (seed Byte.x02); cert.IsCA := false;
       cert.Issuer := fingerprint sampleCA;
       cert.InvertedGroups := {["ops"]};
       cert.Curve := cert.Curve_CURVE25519 |}).

(** A leaf signed by [sampleCA] and within its constraints. *)
Definition sampleLeaf : cert.NebulaCertificate :=
  Eval vm_compute in
    (signed (unsigned leafDetails) cert.Curve_CURVE25519 caPrivateKey).

Definition samplePool : cert.CAPool :=
  Eval vm_compute in
    ({| cert.CAs := {[ fingerprint sampleCA := sampleCA ]}; cert.certBlocklist := ∅ |}).

(** The sample CA re-issued on P-256, with its 65-byte public key. *)
Definition p256CA : cert.NebulaCertificate :=
  Eval vm_compute in
    (let d := cert.Details sampleCA in
    signed
      (unsigned
         {| cert.Name := cert.Name d; cert.Ips := cert.Ips d;
            cert.Subnets := cert.Subnets d; cert.Groups := cert.Groups d;
            cert.NotBefore := cert.NotBefore d; cert.NotAfter := cert.NotAfter d;
            cert.PublicKey := p256_public (seed Byte.x03);
            cert.IsCA := true; cert.Issuer := cert.Issuer d;
            cert.InvertedGroups := cert.InvertedGroups d;
            cert.Curve := cert.Curve_P256 |})
      cert.Curve_P256 (seed Byte.x03)).

(** A pool that holds both CAs, each under its own fingerprint. *)
Definition widePool : cert.CAPool :=
  Eval vm_compute in
    ({| cert.CAs := {[ fingerprint sampleCA := sampleCA; fingerprint p256CA := p256CA ]};
        cert.certBlocklist := ∅ |}).

(** A Curve25519 leaf that names the P-256 CA as its issuer. *)
Definition strayLeaf : cert.NebulaCertificate :=
  Eval vm_compute in
    (signed
      (unsigned
         {| cert.Name := "host"; cert.Ips := [net4 10 1 2 3 255 255 255 0];
            cert.Subnets := []; cert.Groups := ["ops"];
            cert.NotBefore := time_Unix 2000; cert.NotAfter := time_Unix 8000;
            cert.PublicKey := digest (seed Byte.x02); cert.IsCA := false;
            cert.Issuer := fingerprint p256CA;
            cert.InvertedGroups := {["ops"]};
            cert.Curve := cert.Curve_CURVE25519 |})
      cert.Curve_CURVE25519 caPrivateKey).

(** The sample leaf after one [VerifyWithCache] against [samplePool]. *)
Definition cachedLeaf : cert.NebulaCertificate :=
  Eval vm_compute in
    (match cert.VerifyWithCache sampleLeaf (time_Unix 3000) samplePool with
    | Ret (nc, _) => nc
    | Panic _ => sampleLeaf
    end).

(** A certificate whose issuer is written in upper-case hexadecimal. *)
Definition upperIssuerCert : cert.NebulaCertificate :=
  unsigned
    {| cert.Name := "host"; cert.Ips := [net4 10 1 2 3 255 255 255 0];
       cert.Subnets := []; cert.Groups := ["ops"];
       cert.NotBefore := time_Unix 2000; cert.NotAfter := time_Unix 8000;
       cert.PublicKey := digest (seed Byte.x02); cert.IsCA := false;
       cert.Issuer := "AB";
       cert.InvertedGroups := {["ops"]};
       cert.Curve := cert.Curve_CURVE25519 |}.

(** Its details as [getRawDetails] hands them to the codec. *)
Definition upperIssuerRaw : cert.RawNebulaCertificateDetails :=
  Eval vm_compute in
    (match cert.getRawDetails upperIssuerCert with
     | Ret rd => rd
     | Panic _ => protowire.emptyDetails
       end).

(** The sample CA with its address range written with a 16-byte mask, the
    form [net.IPMask(net.ParseIP("255.0.0.0"))] has and [maskTo4] converts. *)
Definition mappedMask (m0 m1 m2 m3 : N) : bytes :=
  repeat Byte.x00 10 ++ [Byte.xff; Byte.xff]
  ++ [byte_of_N m0; byte_of_N m1; byte_of_N m2; byte_of_N m3].

Definition mappedCA : cert.NebulaCertificate :=
  Eval vm_compute in
    (signed
      (unsigned
         {| cert.Name := "ca";
            cert.Ips := [ {| IP := [byte_of_N 10; byte_of_N 0; byte_of_N 0; byte_of_N 0];
                             Mask := mappedMask 255 0 0 0 |} ];
            cert.Subnets := []; cert.Groups := ["ops"];
            cert.NotBefore := time_Unix 1000; cert.NotAfter := time_Unix 9000;
            cert.PublicKey := caPublicKey; cert.IsCA := true;
            cert.Issuer := EmptyString;
            cert.InvertedGroups := {["ops"]};
            cert.Curve := cert.Curve_CURVE25519 |})
      cert.Curve_CURVE25519 caPrivateKey).

(** The sample leaf issued by [mappedCA]. *)
Definition mappedLeaf : cert.NebulaCertificate :=
  Eval vm_compute in
    (signed
      (unsigned
         {| cert.Name := "host"; cert.Ips := [net4 10 1 2 3 255 255 255 0];
            cert.Subnets := []; cert.Groups := ["ops"];
            cert.NotBefore := time_Unix 2000; cert.NotAfter := time_Unix 8000;
            cert.PublicKey := digest (seed Byte.x02); cert.IsCA := false;
            cert.Issuer := fingerprint mappedCA;
            cert.InvertedGroups := {["ops"]};
            cert.Curve := cert.Curve_CURVE25519 |})
      cert.Curve_CURVE25519 caPrivateKey).

Definition mappedPool : cert.CAPool :=
  Eval vm_compute in
    ({| cert.CAs := {[ fingerprint mappedCA := mappedCA ]}; cert.certBlocklist := ∅ |}).

(** *** Sample keys and messages *)

(** Stand-ins for the two key derivations: a checksum of a 32-byte scalar;
    any other length is refused, as both libraries do. *)
#[global] Instance keys : cert.KeyLib := {|
  cert.curve25519_X25519_Basepoint key :=
    if (length key =? 32)%nat then cert.Ok (digest key)
    else cert.Err (cert.ErrLibrary "bad scalar length");
  cert.ecdh_P256_PublicKey key :=
    if (length key =? 32)%nat then cert.Ok (p256_public key)
    else cert.Err (cert.ErrLibrary "crypto/ecdh: invalid private key size")
|}.

(** The marshalled sample leaf. *)
Definition leafBytes : bytes :=
  Eval vm_compute in
    (match cert.Marshal sampleLeaf with
     | Ret (cert.Ok b) => b
     | _ => []
     end).

(** The sample leaf with the mask of its address left nil. *)
Definition nilMaskLeaf : cert.NebulaCertificate :=
  unsigned
    {| cert.Name := "host";
       cert.Ips := [ {| IP := [byte_of_N 10; byte_of_N 1; byte_of_N 2; byte_of_N 3];
                        Mask := [] |} ];
       cert.Subnets := []; cert.Groups := ["ops"];
       cert.NotBefore := time_Unix 2000; cert.NotAfter := time_Unix 8000;
       cert.PublicKey := digest (seed Byte.x02); cert.IsCA := false;
       cert.Issuer := fingerprint sampleCA;
       cert.InvertedGroups := {["ops"]};
       cert.Curve := cert.Curve_CURVE25519 |}.

(** A P-256 certificate whose key lives in a PKCS#11 token, not yet
    signed, and the [SignASN1] of a client for that token. *)
Definition tokenCert : cert.NebulaCertificate :=
  Eval vm_compute in
    ({| cert.Details := cert.Details p256CA; cert.Pkcs11Backed := true;
        cert.Signature := []; cert.sha256sum := None;
        cert.signatureVerified := None |}).

Definition tokenSignASN1 (b : bytes) : cert.result bytes :=
  cert.Ok (digest (p256_public (seed Byte.x03) ++ digest b)).

(** *** Sample manager states *)

Definition addr1 : nebula.udp_Addr :=
  {| nebula.addr_IP := [Byte.xc0; Byte.x00; Byte.x02; Byte.x01]; nebula.addr_Port := 4242 |}.
Definition addr2 : nebula.udp_Addr :=
  {| nebula.addr_IP := [Byte.xc6; Byte.x33; Byte.x64; Byte.x02]; nebula.addr_Port := 4242 |}.

(** The first sixteen bytes of a stage-1 handshake packet: version and
    type, subtype, reserved, remote index, message counter. *)
Definition stage1Header : bytes :=
  [Byte.x10; Byte.x00; Byte.x00; Byte.x00; Byte.x00; Byte.x00; Byte.x00; Byte.x00;
   Byte.x00; Byte.x00; Byte.x00; Byte.x00; Byte.x00; Byte.x00; Byte.x00; Byte.x01].

Definition host (ip localIndex : N) (ready : bool) (counter : Z) (rl : option nebula.RemoteList)
  : nebula.HostInfo :=
  {| nebula.remote := None; nebula.remotes := rl; nebula.ConnectionState := Some 1%N;
     nebula.HandshakeReady := ready; nebula.HandshakeCounter := counter;
     nebula.HandshakeComplete := false;
     nebula.HandshakePacket := if ready then {[ 0%N := stage1Header ]} else ∅;
     nebula.packetStore := []; nebula.remoteIndexId := 0%N; nebula.localIndexId := localIndex;
     nebula.vpnIp := ip; nebula.relayState := ∅; nebula.lastHandshakeTime := 0%N |}.

Definition emptyHostMap : nebula.HostMap :=
  {| nebula.Hosts := ∅; nebula.Indexes := ∅; nebula.RemoteIndexes := ∅; nebula.Relays := ∅ |}.

(** A manager with default configuration and three pending handshakes: to
    10.0.0.7, whose first packet is not built yet; to 10.0.0.9, ready to
    send to two remotes and never tried; to 10.0.0.11, ready and tried
    twice.  At address 4 lives the [HostInfo] of an inbound handshake from
    10.0.0.7 that has just been verified. *)
Definition sampleManager : nebula.HandshakeManager :=
  let rl := {| nebula.addrs := [addr1; addr2]; nebula.relays := [] |} in
  {| nebula.heap :=
       {[ 1%positive := host 167772167 101 false 0 None;
          2%positive := host 167772169 102 true 0 (Some rl);
          3%positive := host 167772171 103 true 2 (Some rl);
          4%positive := host 167772167 104 true 0 None ]};
     nebula.pendingHostMap :=
       {| nebula.Hosts := {[ 167772167%N := 1%positive; 167772169%N := 2%positive;
                             167772171%N := 3%positive ]};
          nebula.Indexes := {[ 101%N := 1%positive; 102%N := 2%positive;
                               103%N := 3%positive ]};
          nebula.RemoteIndexes := ∅; nebula.Relays := ∅ |};
     nebula.mainHostMap := emptyHostMap;
     nebula.lightHouse := {| nebula.myVpnIp := 167772161%N; nebula.lh_cache := ∅ |};
     nebula.config := nebula.defaultHandshakeConfig;
     nebula.OutboundHandshakeTimer := [];
     nebula.effects := [] |}.

(** A newer stage-1 packet, from a handshake with another remote index. *)
Definition stage1Header' : bytes :=
  [Byte.x10; Byte.x00; Byte.x00; Byte.x00; Byte.x00; Byte.x00; Byte.x00; Byte.x09;
   Byte.x00; Byte.x00; Byte.x00; Byte.x00; Byte.x00; Byte.x00; Byte.x00; Byte.x01].

(** A manager with a tunnel to 10.0.0.7 in its main table (address 5), a
    handshake of its own to 10.0.0.7 pending (address 1), and the
    [HostInfo] of a more recent inbound handshake from 10.0.0.7 (address 4),
    which has its local index but is not filed under its vpn ip yet. *)
Definition busyManager : nebula.HandshakeManager :=
  {| nebula.heap :=
       {[ 1%positive := host 167772167 101 false 0 None;
          4%positive :=
            {| nebula.remote := Some addr2; nebula.remotes := None;
               nebula.ConnectionState := Some 1%N;
               nebula.HandshakeReady := true; nebula.HandshakeCounter := 0;
               nebula.HandshakeComplete := false;
               nebula.HandshakePacket := {[ 0%N := stage1Header' ]};
               nebula.packetStore := []; nebula.remoteIndexId := 9%N;
               nebula.localIndexId := 104%N; nebula.vpnIp := 167772167%N;
               nebula.relayState := ∅; nebula.lastHandshakeTime := 20%N |};
          5%positive :=
            {| nebula.remote := Some addr1; nebula.remotes := None;
               nebula.ConnectionState := Some 1%N;
               nebula.HandshakeReady := true; nebula.HandshakeCounter := 1;
               nebula.HandshakeComplete := true;
               nebula.HandshakePacket := {[ 0%N := stage1Header ]};
               nebula.packetStore := []; nebula.remoteIndexId := 7%N;
               nebula.localIndexId := 105%N; nebula.vpnIp := 167772167%N;
               nebula.relayState := ∅; nebula.lastHandshakeTime := 10%N |} ]};
     nebula.pendingHostMap :=
       {| nebula.Hosts := {[ 167772167%N := 1%positive ]};
          nebula.Indexes := {[ 101%N := 1%positive; 104%N := 4%positive ]};
          nebula.RemoteIndexes := ∅; nebula.Relays := ∅ |};
     nebula.mainHostMap :=
       {| nebula.Hosts := {[ 167772167%N := 5%positive ]};
          nebula.Indexes := {[ 105%N := 5%positive ]};
          nebula.RemoteIndexes := {[ 7%N := 5%positive ]}; nebula.Relays := ∅ |};
     nebula.lightHouse := {| nebula.myVpnIp := 167772161%N; nebula.lh_cache := ∅ |};
     nebula.config := nebula.defaultHandshakeConfig;
     nebula.OutboundHandshakeTimer := [];
     nebula.effects := [] |}.

(** What [rand.Read] yields in the sample runs: a zero word, the word 105,
    the word 4242. *)
Definition sampleReads : nebula.rand_Reader :=
  [ Some (Byte.x00, Byte.x00, Byte.x00, Byte.x00);
    Some (Byte.x00, Byte.x00, Byte.x00, Byte.x69);
    Some (Byte.x00, Byte.x00, Byte.x10, Byte.x92) ].

(** [busyManager] after [AddIndexHostInfo] has given the [HostInfo] at
    address 4 a new local index. *)
Definition indexedManager : nebula.HandshakeManager :=
  Eval vm_compute in
    (nebula.AddIndexHostInfo sampleReads busyManager 4%positive).2.1.

End testlib.

(** * The vocabulary of the properties

    The predicates the statements below are written with: the constraints,
    validity conditions and effects in the words of the specification, and
    the invariants the proofs carry. *)

Module cert_spec.
Import GoStd cert.

(** *** Verification *)

(** Two certificates that differ at most in their caches. *)
Definition same_body (a b : NebulaCertificate) : Prop :=
  Details a = Details b ∧ Pkcs11Backed a = Pkcs11Backed b ∧ Signature a = Signature b.

(** The errors [CheckRootConstrains] can return. *)
Definition is_constraint_error (e : error) : Prop :=
  match e with
  | ErrExpiresAfterSigner | ErrValidBeforeSigner
  | ErrGroupNotOnCA _ | ErrIpOutsideCA _ | ErrSubnetOutsideCA _ => True
  | _ => False
  end.

(** The constraints in the words of the specification.  "Mask at least as
    wide": byte for byte, the signer's IPv4 mask is at most the leaf's. *)
Definition mask_at_least_as_wide (caMask certMask : bytes) : Prop :=
  ∃ caM cM, maskTo4 caMask = Some caM ∧ maskTo4 certMask = Some cM
            ∧ ∀ j a c, caM !! j = Some a → cM !! j = Some c →
                       (Byte.to_N a <= Byte.to_N c)%N.

(** "Contained (address covered and mask at least as wide) by some signer
    entry". *)
Definition contained_in (certIp : IPNet) (rootIps : list IPNet) : Prop :=
  ∃ net, net ∈ rootIps ∧ Contains net (IP certIp) = true
         ∧ mask_at_least_as_wide (Mask net) (Mask certIp).

(** The constraints a signer [s] puts on a leaf [l]: the validity window
    of the leaf inside the signer's, and, for each of groups, ips and
    subnets the signer restricts, every entry of the leaf covered. *)
Definition root_constraints (l s : NebulaCertificate) : Prop :=
  NotBefore (Details s) <= NotBefore (Details l)
  ∧ NotAfter (Details l) <= NotAfter (Details s)
  ∧ (InvertedGroups (Details s) ≠ ∅ →
     ∀ g, g ∈ Groups (Details l) → g ∈ InvertedGroups (Details s))
  ∧ (Ips (Details s) ≠ [] →
     ∀ ip, ip ∈ Ips (Details l) → contained_in ip (Ips (Details s)))
  ∧ (Subnets (Details s) ≠ [] →
     ∀ ip, ip ∈ Subnets (Details l) → contained_in ip (Subnets (Details s))).

(** The constraint an error of [CheckRootConstrains] names, violated. *)
Definition violated_by (e : error) (l s : NebulaCertificate) : Prop :=
  match e with
  | ErrExpiresAfterSigner => NotAfter (Details s) < NotAfter (Details l)
  | ErrValidBeforeSigner => NotBefore (Details l) < NotBefore (Details s)
  | ErrGroupNotOnCA g =>
      InvertedGroups (Details s) ≠ ∅ ∧ g ∈ Groups (Details l)
      ∧ g ∉ InvertedGroups (Details s)
  | ErrIpOutsideCA ip =>
      Ips (Details s) ≠ [] ∧ ip ∈ Ips (Details l)
      ∧ ¬ contained_in ip (Ips (Details s))
  | ErrSubnetOutsideCA ip =>
      Subnets (Details s) ≠ [] ∧ ip ∈ Subnets (Details l)
      ∧ ¬ contained_in ip (Subnets (Details s))
  | _ => False
  end.

(** No mask of [nets] is written in the 16-byte form. *)
Definition plain_masks (nets : list IPNet) : Prop :=
  ∀ net, net ∈ nets → length (Mask net) ≠ 16%nat.

(** A call of [Verify] ([false]) or [VerifyWithCache] ([true]) on the
    certificate, at a time and against a pool. *)
Definition call : Type := bool * time_Time * CAPool.

(** *** Marshalling *)

(** An address and a mask of four bytes each. *)
Definition v4net (n : IPNet) : Prop := length (IP n) = 4%nat ∧ length (Mask n) = 4%nat.

(** One of the digits [0-9a-f]. *)
Definition lower_hex_digit (c : ascii) : bool :=
  let n := N_of_ascii c in
  ((48 <=? n) && (n <=? 57))%N || ((97 <=? n) && (n <=? 102))%N.

(** What [hex.EncodeToString] produces: an even number of digits, none of
    them upper case. *)
Fixpoint canonical_hex (s : string) : bool :=
  match s with
  | EmptyString => true
  | String p (String q rest) => lower_hex_digit p && lower_hex_digit q && canonical_hex rest
  | String _ EmptyString => false
  end.

(** The certificates the round trip is stated for: IPv4 addresses and
    masks of four bytes, a public key of at least 32 bytes, an issuer in the
    form [hex.EncodeToString] produces, whole-second timestamps. *)
Definition roundtrip_valid (c : NebulaCertificate) : Prop :=
  Forall v4net (Ips (Details c))
  ∧ Forall v4net (Subnets (Details c))
  ∧ (publicKeyLen <= length (PublicKey (Details c)))%nat
  ∧ canonical_hex (Issuer (Details c)) = true
  ∧ NotBefore (Details c) mod 1000000000 = 0
  ∧ NotAfter (Details c) mod 1000000000 = 0.

(** The same with the issuer only required to be accepted by
    [hex.DecodeString], as the specification words it. *)
Definition roundtrip_valid_as_specified (c : NebulaCertificate) : Prop :=
  Forall v4net (Ips (Details c))
  ∧ Forall v4net (Subnets (Details c))
  ∧ (publicKeyLen <= length (PublicKey (Details c)))%nat
  ∧ snd (hex_DecodeString (Issuer (Details c))) = None
  ∧ NotBefore (Details c) mod 1000000000 = 0
  ∧ NotAfter (Details c) mod 1000000000 = 0.

(** Equality of everything that is serialized. *)
Definition equal_modulo_inverted_groups (c' c : NebulaCertificate) : Prop :=
  Name (Details c') = Name (Details c)
  ∧ Ips (Details c') = Ips (Details c)
  ∧ Subnets (Details c') = Subnets (Details c)
  ∧ Groups (Details c') = Groups (Details c)
  ∧ NotBefore (Details c') = NotBefore (Details c)
  ∧ NotAfter (Details c') = NotAfter (Details c)
  ∧ PublicKey (Details c') = PublicKey (Details c)
  ∧ IsCA (Details c') = IsCA (Details c)
  ∧ Issuer (Details c') = Issuer (Details c)
  ∧ Curve (Details c') = Curve (Details c)
  ∧ Signature c' = Signature c.

(** What comes back: the certificate with its inverted groups rebuilt from
    its groups, not PKCS#11-backed, its caches empty. *)
Definition rebuilt (c : NebulaCertificate) : NebulaCertificate :=
  let d := Details c in
  {| Details :=
       {| Name := Name d; Ips := Ips d; Subnets := Subnets d; Groups := Groups d;
          NotBefore := NotBefore d; NotAfter := NotAfter d;
          PublicKey := PublicKey d; IsCA := IsCA d; Issuer := Issuer d;
          InvertedGroups := list_to_set (Groups d); Curve := Curve d |};
     Pkcs11Backed := false;
     Signature := Signature c;
     sha256sum := None;
     signatureVerified := None |}.

(** *** Pools *)


(** The pools resolve the issuer to signers of one public key. *)
Definition pools_agree (issuer : string) (pools : list CAPool) : Prop :=
  ∀ p p' s s', p ∈ pools → p' ∈ pools →
    CAs p !! issuer = Some s → CAs p' !! issuer = Some s' →
    PublicKey (Details s) = PublicKey (Details s').


Section WithLib.
Context `{!GoLib}.

(** The certificate after a sequence of calls, none of which panicked. *)
Fixpoint run_calls (calls : list call) (nc : NebulaCertificate) : outcome NebulaCertificate :=
  match calls with
  | [] => Ret nc
  | (useCache, t, ncp) :: rest =>
      '(nc', _) ← verify nc t ncp useCache;
      run_calls rest nc'
  end.

(** What the caches hold was computed from the certificate: the cached
    fingerprint is its fingerprint, the cached key verified its signature. *)
Definition cache_sound (nc : NebulaCertificate) : Prop :=
  (∀ s, sha256sum nc = Some s → Sha256Sum nc = Ret (Ok s))
  ∧ (∀ k, signatureVerified nc = Some k → CheckSignature nc k = Ret true).

(** A pool in the words of the specification: "a set of CA certificates
    indexed by their issuer fingerprint (hex SHA-256 of the CA's marshaled
    form)". *)
Definition fingerprint_indexed (ncp : CAPool) : Prop :=
  ∀ fp ca, CAs ncp !! fp = Some ca → Sha256Sum ca = Ret (Ok fp).

(** No two certificates with different public keys have the same
    fingerprint: what the collision resistance of SHA-256 gives, the
    encoding of the details being injective. *)
Definition fingerprint_binds_key : Prop :=
  ∀ a b fp, Sha256Sum a = Ret (Ok fp) → Sha256Sum b = Ret (Ok fp) →
            PublicKey (Details a) = PublicKey (Details b).

(** The round trip as the specification words it: for a valid
    certificate whose marshalled form the codec decodes to what it encoded,
    unmarshalling succeeds and gives back every serialized field. *)
Definition roundtrip_as_specified : Prop :=
  ∀ c rd b,
    roundtrip_valid_as_specified c →
    getRawDetails c = Ret rd →
    proto_Marshal {| rDetails := Some rd; rSignature := Signature c |} = Ok b →
    b ≠ [] →
    proto_Unmarshal b = Ok {| rDetails := Some rd; rSignature := Signature c |} →
    ∃ c', Marshal c = Ret (Ok b)
          ∧ UnmarshalNebulaCertificate b = Ok c'
          ∧ equal_modulo_inverted_groups c' c.

End WithLib.

(** *** Marshalling, the other way round *)

(** A word that fits the [uint32] of the protobuf message. *)
Definition uint32 (n : N) : Prop := (n < 4294967296)%N.

(** An address or a mask too short for [ip2int] to read: fewer than four
    bytes, as a nil mask is. *)
Definition short_net (n : IPNet) : Prop :=
  (length (IP n) < 4)%nat ∨ (length (Mask n) < 4)%nat.

#[global] Instance short_net_dec n : Decision (short_net n).
Proof. unfold short_net. apply _. Defined.

End cert_spec.

Module nebula_spec.
Import nebula.

(** The worst-case retry horizon under linear backoff:
    [interval * (1 + 2 + ... + tries)]. *)
Fixpoint retryHorizon (tries : nat) (interval : Z) : Z :=
  match tries with
  | O => 0
  | S n => retryHorizon n interval + Z.of_nat (S n) * interval
  end.



(** The datagrams handed to the UDP socket among some effects. *)
Definition writes_of (l : list effect) : list (bytes * udp_Addr) :=
  flat_map (λ e, match e with WriteTo b addr => [(b, addr)] | _ => [] end) l.

(** The remotes a handshake is sent to: the list the [HostInfo] holds, or
    the lighthouse's cached list when it holds none yet. *)
Definition knownRemotes (c : HandshakeManager) (ip : VpnIp) (p : loc) : RemoteList :=
  match remotes (deref c p) with
  | Some rl => rl
  | None => QueryCache (lightHouse c) ip
  end.

(** What an attempt through a relay leaves alone: the wheel, the retry
    counter of every [HostInfo], and the UDP socket of the manager. *)
Definition quiet (c c' : HandshakeManager) : Prop :=
  OutboundHandshakeTimer c' = OutboundHandshakeTimer c
  ∧ (∀ p, HandshakeCounter (deref c' p) = HandshakeCounter (deref c p))
  ∧ ∃ new, effects c' = effects c ++ new ∧ writes_of new = [].

(** *** Retries *)

(** Two [HostInfo]s that differ at most in their relay table. *)
Definition same_handshake (h h' : HostInfo) : Prop :=
  remotes h' = remotes h
  ∧ HandshakeReady h' = HandshakeReady h
  ∧ HandshakeCounter h' = HandshakeCounter h
  ∧ HandshakeComplete h' = HandshakeComplete h
  ∧ HandshakePacket h' = HandshakePacket h
  ∧ vpnIp h' = vpnIp h
  ∧ localIndexId h' = localIndexId h
  ∧ remoteIndexId h' = remoteIndexId h.

(** What the attempts through relays leave alone besides: the pending
    table, the three indices of the main table, the configuration, the
    lighthouse, and every [HostInfo] up to its relay table. *)
Definition relay_frame (c c' : HandshakeManager) : Prop :=
  pendingHostMap c' = pendingHostMap c
  ∧ Hosts (mainHostMap c') = Hosts (mainHostMap c)
  ∧ Indexes (mainHostMap c') = Indexes (mainHostMap c)
  ∧ RemoteIndexes (mainHostMap c') = RemoteIndexes (mainHostMap c)
  ∧ config c' = config c
  ∧ lightHouse c' = lightHouse c
  ∧ ∀ q, same_handshake (deref c q) (deref c' q).

(** The [HostInfo] after an attempt, up to its relay table: the remotes
    fetched if they were missing, the counter incremented. *)
Definition attempted (c : HandshakeManager) (ip : VpnIp) (p : loc) : HandshakeManager :=
  store c p (set_HandshakeCounter
               (set_remotes (deref c p) (Some (knownRemotes c ip p)))
               (add64 (HandshakeCounter (deref c p)) 1)).

(** [n] ticks of the wheel in a row that each hand [ip] to
    [handleOutbound]. *)
Fixpoint ticks `{!Env} (n : nat) (c : HandshakeManager) (ip : VpnIp)
  : outcome HandshakeManager :=
  match n with
  | O => Ret c
  | S n' => c' ← handleOutbound c ip false; ticks n' c' ip
  end.

(** The requests the wheel receives in the course of attempts [k+1] to
    [k+n]: the delay grows by one interval with every attempt. *)
Definition backoff (ip : VpnIp) (interval : Z) (k : Z) (n : nat) : list (VpnIp * Z) :=
  map (λ i, (ip, interval * (k + Z.of_nat i))) (seq 1 n).

(** A pending handshake that [handleOutbound] will transmit: ready, not
    complete, its stage-0 packet long enough to carry a header subtype. *)
Definition transmittable (c : HandshakeManager) (ip : VpnIp) (p : loc) : Prop :=
  QueryVpnIp (pendingHostMap c) ip = Some p
  ∧ HandshakeComplete (deref c p) = false
  ∧ HandshakeReady (deref c p) = true
  ∧ (2 <= length (packet (deref c p) 0))%nat.

(** *** The tables *)

(** The entries of [Hosts] and [Indexes] of a table point to [HostInfo]s
    that carry the key they are filed under, and each is filed in the other
    index too. *)
Definition indexed (c : HandshakeManager) (hm : HostMap) : Prop :=
  (∀ ip p, Hosts hm !! ip = Some p →
     vpnIp (deref c p) = ip ∧ Indexes hm !! localIndexId (deref c p) = Some p)
  ∧ (∀ i p, Indexes hm !! i = Some p →
       localIndexId (deref c p) = i ∧ Hosts hm !! vpnIp (deref c p) = Some p).

(** The ids of every [HostInfo] are the same in two states. *)
Definition same_ids (c c' : HandshakeManager) : Prop :=
  ∀ q, vpnIp (deref c' q) = vpnIp (deref c q)
       ∧ localIndexId (deref c' q) = localIndexId (deref c q)
       ∧ remoteIndexId (deref c' q) = remoteIndexId (deref c q).

(** The main table [installInMain] and [Complete] build. *)
Definition installed (c : HandshakeManager) (hostinfo : loc) : HostMap :=
  mainHostMap (installInMain c hostinfo
                 (Hosts (mainHostMap c) !! vpnIp (deref c hostinfo))).1.

(** The entries of [Hosts] point to [HostInfo]s that carry the vpn ip they
    are filed under. *)
Definition hosts_keyed (c : HandshakeManager) (hm : HostMap) : Prop :=
  ∀ ip p, Hosts hm !! ip = Some p → vpnIp (deref c p) = ip.

(** No local index is in use for two [HostInfo]s: an index filed in both
    tables is filed for the same one. *)
Definition indexes_agree (c : HandshakeManager) : Prop :=
  ∀ i p q, Indexes (pendingHostMap c) !! i = Some p →
           Indexes (mainHostMap c) !! i = Some q → p = q.

(** What a successful [AddIndexHostInfo] leaves. *)
Definition index_added (c : HandshakeManager) (h : loc) (index : N) : HandshakeManager :=
  let c := store c h (set_localIndexId (deref c h) index) in
  let hm := pendingHostMap c in
  with_pending c {| Hosts := Hosts hm;
                    Indexes := <[index := h]> (Indexes hm);
                    RemoteIndexes := RemoteIndexes hm;
                    Relays := Relays hm |}.

End nebula_spec.

(** * Properties *)

(** ** 64-bit arithmetic *)

Lemma wrap64_id (z : Z) : in_int64 z → wrap64 z = z.
Proof.
  unfold in_int64, wrap64. intros Hz.
  rewrite Z.mod_small by lia. lia.
Qed.

Lemma wrap64_range (z : Z) : in_int64 (wrap64 z).
Proof.
  unfold in_int64, wrap64.
  pose proof (Z.mod_pos_bound (z + 2 ^ 63) (2 ^ 64) ltac:(lia)). lia.
Qed.

Lemma mul64_zero_r (a : Z) : mul64 a 0 = 0.
Proof. unfold mul64. rewrite Z.mul_0_r. reflexivity. Qed.

(** ** The retry horizon and [hsTimeout] *)

Module hsTimeout_theory.
Import nebula nebula_spec.

Lemma retryHorizon_closed (tries : nat) (interval : Z) :
  2 * retryHorizon tries interval = interval * Z.of_nat tries * (Z.of_nat tries + 1).
Proof.
  induction tries as [|n IH]; [simpl; lia|].
  change (retryHorizon (S n) interval)
    with (retryHorizon n interval + Z.of_nat (S n) * interval).
  rewrite Z.mul_add_distr_l, IH. lia.
Qed.

(** Without overflow, [hsTimeout] is [tries/2] (rounded down) times
    [(tries + 1) * interval]. *)
Lemma hsTimeout_exact (tries interval : Z) :
  0 <= tries → 0 <= interval →
  (tries + 1) * (tries + 1) * (interval + 1) < 2 ^ 62 →
  hsTimeout tries interval = tries / 2 * ((tries + 1) * interval).
Proof.
  intros Ht Hi Hb. unfold hsTimeout, div64, mul64, add64, sub64.
  rewrite Z.quot_div_nonneg by lia.
  assert (Hq : 0 <= tries / 2 <= tries).
  { split; [apply Z.div_pos; lia|]. apply Z.div_le_upper_bound; lia. }
  assert (Hprod : (tries + 1) * interval <= (tries + 1) * (tries + 1) * (interval + 1)) by nia.
  assert (Hprod0 : 0 <= (tries + 1) * interval) by nia.
  rewrite (wrap64_id (tries / 2)) by (unfold in_int64; nia).
  rewrite (wrap64_id (2 * interval)) by (unfold in_int64; nia).
  rewrite (wrap64_id (tries - 1)) by (unfold in_int64; nia).
  rewrite (wrap64_id ((tries - 1) * interval)) by (unfold in_int64; nia).
  rewrite (wrap64_id (2 * interval + (tries - 1) * interval)) by (unfold in_int64; nia).
  replace (2 * interval + (tries - 1) * interval) with ((tries + 1) * interval) by lia.
  apply wrap64_id. unfold in_int64.
  assert (tries / 2 * ((tries + 1) * interval) <= tries * ((tries + 1) * interval)) by nia.
  nia.
Qed.

(** X1.  For an even number of tries, the default of ten among them, and
    without overflow, the window [hsTimeout] gives the timer wheel is exactly
    the retry horizon [interval * (1 + 2 + ... + tries)]. *)
Lemma hsTimeout_even (k : nat) (interval : Z) :
  0 <= interval →
  (2 * Z.of_nat k + 1) * (2 * Z.of_nat k + 1) * (interval + 1) < 2 ^ 62 →
  hsTimeout (2 * Z.of_nat k) interval = retryHorizon (2 * k) interval.
Proof.
  intros Hi Hb. rewrite hsTimeout_exact by lia.
  pose proof (retryHorizon_closed (2 * k) interval) as Hc.
  replace (Z.of_nat (2 * k)) with (2 * Z.of_nat k) in Hc by lia.
  replace (2 * Z.of_nat k / 2) with (Z.of_nat k)
    by (symmetry; rewrite Z.mul_comm; apply Z.div_mul; lia).
  lia.
Qed.

(** X2.  For an odd number of tries, and without overflow, the window
    [hsTimeout] gives the timer wheel falls short of the retry horizon by
    [(tries + 1) / 2] intervals. *)
Lemma hsTimeout_odd (k : nat) (interval : Z) :
  0 <= interval →
  (2 * Z.of_nat k + 2) * (2 * Z.of_nat k + 2) * (interval + 1) < 2 ^ 62 →
  hsTimeout (2 * Z.of_nat k + 1) interval
  = retryHorizon (2 * k + 1) interval - (Z.of_nat k + 1) * interval.
Proof.
  intros Hi Hb. rewrite hsTimeout_exact by lia.
  pose proof (retryHorizon_closed (2 * k + 1) interval) as Hc.
  replace (Z.of_nat (2 * k + 1)) with (2 * Z.of_nat k + 1) in Hc by lia.
  replace ((2 * Z.of_nat k + 1) / 2) with (Z.of_nat k).
  - lia.
  - apply Z.div_unique with (r := 1); lia.
Qed.

(** The default configuration: ten tries of 100ms. *)
Lemma hsTimeout_even_witness :
  hsTimeout (2 * Z.of_nat 5) DefaultHandshakeTryInterval
  = retryHorizon (2 * 5) DefaultHandshakeTryInterval.
Proof. apply hsTimeout_even; unfold DefaultHandshakeTryInterval; lia. Defined.

(** Seven tries of 100ms. *)
Lemma hsTimeout_odd_witness :
  hsTimeout (2 * Z.of_nat 3 + 1) DefaultHandshakeTryInterval
  = retryHorizon (2 * 3 + 1) DefaultHandshakeTryInterval
    - (Z.of_nat 3 + 1) * DefaultHandshakeTryInterval.
Proof. apply hsTimeout_odd; unfold DefaultHandshakeTryInterval; lia. Defined.

(** C6.  The window [hsTimeout] gives the timer wheel is not always at
    least the retry horizon [interval * (1 + 2 + ... + tries)]: with three
    tries of 100ms it is 400ms, the horizon is 600ms; with a single try it
    is zero. *)
Theorem hsTimeout_short_of_retry_horizon :
  hsTimeout 3 DefaultHandshakeTryInterval = 4 * DefaultHandshakeTryInterval
  ∧ retryHorizon 3 DefaultHandshakeTryInterval = 6 * DefaultHandshakeTryInterval
  ∧ hsTimeout 3 DefaultHandshakeTryInterval < retryHorizon 3 DefaultHandshakeTryInterval
  ∧ hsTimeout 1 DefaultHandshakeTryInterval = 0
  ∧ NewHandshakeManager_wheelDuration
      {| tryInterval := DefaultHandshakeTryInterval; retries := 3;
         triggerBuffer := DefaultHandshakeTriggerBuffer; useRelays := DefaultUseRelays |}
    < retryHorizon 3 DefaultHandshakeTryInterval.
Proof. vm_compute. repeat split; reflexivity. Qed.

End hsTimeout_theory.

(** ** Certificates *)

Module cert_theory.
Import GoStd cert cert_spec.

Ltac unfold_outcome :=
  unfold mbind, outcome_bind, mret, outcome_ret, fmap, outcome_fmap in *.

(** *** The caches do not touch what is signed *)


Lemma same_body_trans a b c : same_body a b → same_body b c → same_body a c.
Proof. unfold same_body. intros (-> & -> & ->) (-> & -> & ->). by repeat split. Qed.

Lemma same_body_sym a b : same_body a b → same_body b a.
Proof. unfold same_body. intros (-> & -> & ->). by repeat split. Qed.

Lemma getRawDetails_body a b : same_body a b → getRawDetails a = getRawDetails b.
Proof. intros (Hd & _ & _). unfold getRawDetails. by rewrite Hd. Qed.

Section WithLib.
Context `{!GoLib}.

Lemma Marshal_body a b : same_body a b → Marshal a = Marshal b.
Proof.
  intros Hs. unfold Marshal. rewrite (getRawDetails_body a b Hs).
  destruct Hs as (_ & _ & ->). reflexivity.
Qed.

Lemma Sha256Sum_body a b : same_body a b → Sha256Sum a = Sha256Sum b.
Proof. intros Hs. unfold Sha256Sum. by rewrite (Marshal_body a b Hs). Qed.

Lemma CheckSignature_body a b key :
  same_body a b → CheckSignature a key = CheckSignature b key.
Proof.
  intros Hs. unfold CheckSignature. rewrite (getRawDetails_body a b Hs).
  destruct Hs as (-> & _ & ->). reflexivity.
Qed.

Lemma Expired_body a b t : same_body a b → Expired a t = Expired b t.
Proof. intros (Hd & _ & _). unfold Expired. by rewrite Hd. Qed.

Lemma CheckRootConstrains_body a b signer :
  same_body a b → CheckRootConstrains a signer = CheckRootConstrains b signer.
Proof. intros (Hd & _ & _). unfold CheckRootConstrains. by rewrite Hd. Qed.

Lemma GetCAForCert_body ncp a b :
  same_body a b → GetCAForCert ncp a = GetCAForCert ncp b.
Proof. intros (Hd & _ & _). unfold GetCAForCert. by rewrite Hd. Qed.

Lemma sha256SumWithCache_body nc useCache nc' r :
  sha256SumWithCache nc useCache = Ret (nc', r) →
  same_body nc' nc ∧ signatureVerified nc' = signatureVerified nc.
Proof.
  unfold sha256SumWithCache. unfold_outcome. intros Heq.
  repeat case_match; simplify_eq; by repeat split.
Qed.

Lemma isBlocklistedWithCache_body ncp nc useCache nc' b :
  isBlocklistedWithCache ncp nc useCache = Ret (nc', b) →
  same_body nc' nc ∧ signatureVerified nc' = signatureVerified nc.
Proof.
  unfold isBlocklistedWithCache. unfold_outcome. intros Heq.
  destruct (sha256SumWithCache nc useCache) as [[c h]|] eqn:Hs; [|done].
  apply sha256SumWithCache_body in Hs.
  destruct h; simplify_eq; exact Hs.
Qed.

Lemma checkSignatureWithCache_body nc key useCache nc' b :
  checkSignatureWithCache nc key useCache = Ret (nc', b) →
  same_body nc' nc ∧ sha256sum nc' = sha256sum nc.
Proof.
  unfold checkSignatureWithCache. unfold_outcome. intros Heq.
  repeat case_match; simplify_eq; by repeat split.
Qed.

(** *** Errors of the root-constraint check *)

Lemma checkGroups_error inv gs e :
  checkGroups inv gs = Some e → ∃ g, g ∈ gs ∧ (g ∉ inv) ∧ e = ErrGroupNotOnCA g.
Proof.
  induction gs as [|g gs IH]; simpl; [done|].
  case_bool_decide as Hin.
  - intros Hc. destruct (IH Hc) as (g' & ? & ? & ?).
    exists g'. split; [by right|done].
  - intros [= <-]. exists g. split; [by left|done].
Qed.

Lemma checkGroups_None inv gs :
  checkGroups inv gs = None ↔ ∀ g, g ∈ gs → g ∈ inv.
Proof.
  induction gs as [|g gs IH]; simpl.
  - split; [intros _ g Hg; inversion Hg|done].
  - case_bool_decide as Hin.
    + rewrite IH. split.
      * intros Hall g' Hg'. apply elem_of_cons in Hg' as [->|]; auto.
      * intros Hall g' Hg'. apply Hall. by right.
    + split; [done|]. intros Hall. exfalso. apply Hin, Hall. by left.
Qed.

Lemma checkNets_error mkErr nets rootNets e :
  checkNets mkErr nets rootNets = Ret (Some e) →
  ∃ ip, ip ∈ nets ∧ netMatch ip rootNets = Ret false ∧ e = mkErr ip.
Proof.
  induction nets as [|ip nets IH]; simpl; [done|]. unfold_outcome.
  destruct (netMatch ip rootNets) as [[]|] eqn:Hm; [| |done].
  - intros Hc. destruct (IH Hc) as (ip' & ? & ? & ?).
    exists ip'. split; [by right|done].
  - intros [= <-]. exists ip. split; [by left|done].
Qed.

Lemma CheckRootConstrains_error nc signer e :
  CheckRootConstrains nc signer = Ret (Some e) → is_constraint_error e.
Proof.
  unfold CheckRootConstrains. unfold_outcome. intros Heq.
  repeat case_match; simplify_eq; try exact I;
    repeat match goal with
    | H : checkGroups _ _ = Some _ |- _ =>
        apply checkGroups_error in H as (? & _ & _ & ->)
    | H : checkNets _ _ _ = Ret (Some _) |- _ =>
        apply checkNets_error in H as (? & _ & _ & ->)
    end; exact I.
Qed.

(** *** Expiry *)

Lemma Expired_false_iff nc t :
  Expired nc t = false ↔ NotBefore (Details nc) <= t <= NotAfter (Details nc).
Proof.
  unfold Expired, After, Before.
  rewrite orb_false_iff, !Z.ltb_ge. lia.
Qed.

Lemma verify_ErrExpired nc t ncp useCache nc' b :
  verify nc t ncp useCache = Ret (nc', (b, Some ErrExpired)) → Expired nc t = true.
Proof.
  unfold verify. unfold_outcome. intros Heq.
  destruct (isBlocklistedWithCache ncp nc useCache) as [[c blocked]|] eqn:Hb; [|done].
  apply isBlocklistedWithCache_body in Hb as [Hb _].
  destruct blocked; [done|].
  unfold GetCAForCert in Heq.
  case_bool_decide; [done|].
  destruct (CAs ncp !! Issuer (Details c)) as [signer|]; [|done].
  destruct (Expired signer t); [done|].
  destruct (Expired c t) eqn:He.
  { by rewrite <- (Expired_body c nc t Hb). }
  destruct (checkSignatureWithCache c (PublicKey (Details signer)) useCache)
    as [[c' ok]|] eqn:Hc; [|done].
  destruct ok; simpl in Heq; [|done].
  destruct (CheckRootConstrains c' signer) as [[e|]|] eqn:Hr; [| done | done].
  simplify_eq. by apply CheckRootConstrains_error in Hr.
Qed.

End WithLib.

(** C10.  [Expired(t)] is false exactly when
    [NotBefore <= t <= NotAfter], both ends included; so a certificate
    whose window is not empty is not expired at its [NotBefore] instant nor
    at its [NotAfter] instant, and verification at an instant of the window
    never answers [ErrExpired]. *)
Theorem Expired_boundaries_inclusive :
  (∀ nc t, Expired nc t = false
           ↔ NotBefore (Details nc) <= t <= NotAfter (Details nc))
  ∧ (∀ nc, NotBefore (Details nc) <= NotAfter (Details nc) →
           Expired nc (NotBefore (Details nc)) = false
           ∧ Expired nc (NotAfter (Details nc)) = false)
  ∧ (∀ (L : GoLib) nc t ncp useCache nc' b,
       NotBefore (Details nc) <= t <= NotAfter (Details nc) →
       verify nc t ncp useCache ≠ Ret (nc', (b, Some ErrExpired))).
Proof.
  split; [exact Expired_false_iff|]. split.
  - intros nc Hle. split; apply Expired_false_iff; lia.
  - intros L nc t ncp useCache nc' b Hw Hv.
    apply verify_ErrExpired in Hv.
    apply Expired_false_iff in Hw. congruence.
Qed.

(** At the first and at the last second of its validity the sample leaf
    verifies. *)
Lemma Expired_boundaries_inclusive_witness :
  Expired testlib.sampleLeaf (time_Unix 2000) = false
  ∧ Expired testlib.sampleLeaf (time_Unix 8000) = false
  ∧ verify testlib.sampleLeaf (time_Unix 2000) testlib.samplePool false
    ≠ Ret (testlib.sampleLeaf, (false, Some ErrExpired)).
Proof.
  destruct Expired_boundaries_inclusive as (_ & Hb & Hv).
  destruct (Hb testlib.sampleLeaf) as [H1 H2]; [vm_compute; discriminate|].
  split; [exact H1|]. split; [exact H2|].
  apply Hv. vm_compute. split; discriminate.
Defined.

(** *** Root constraints *)

Lemma maskTo4_length m m4 : maskTo4 m = Some m4 → length m4 = 4%nat.
Proof.
  unfold maskTo4. destruct (Nat.eqb_spec (length m) 4).
  - by intros [= <-].
  - destruct (Nat.eqb_spec (length m) 16); simpl; [|done].
    repeat case_match; try done. intros [= <-].
    rewrite length_take, length_drop. lia.
Qed.

Lemma maskTo4_not_16 m m4 :
  length m ≠ 16%nat → maskTo4 m = Some m4 → m4 = m ∧ length m = 4%nat.
Proof.
  intros Hne. unfold maskTo4. destruct (Nat.eqb_spec (length m) 4).
  - by intros [= <-].
  - destruct (Nat.eqb_spec (length m) 16); [done|]. done.
Qed.

(** The loop while it stays inside both slices. *)
Lemma maskContains_loop_in_range caM cM i n :
  (i + n <= length caM)%nat → (i + n <= length cM)%nat →
  ∃ b, maskContains_loop caM cM i n = Ret b
       ∧ (b = true ↔ ∀ j a c, (i <= j < i + n)%nat →
                      caM !! j = Some a → cM !! j = Some c →
                      (Byte.to_N a <= Byte.to_N c)%N).
Proof.
  revert i. induction n as [|n IH]; intros i Ha Hc; simpl.
  - exists true. split; [done|]. split; [|done]. intros _ j a c Hj. lia.
  - assert (is_Some (caM !! i)) as [a Hla] by (apply lookup_lt_is_Some_2; lia).
    assert (is_Some (cM !! i)) as [c Hlc] by (apply lookup_lt_is_Some_2; lia).
    rewrite Hla, Hlc. destruct (N.ltb_spec (Byte.to_N c) (Byte.to_N a)) as [Hlt|Hge].
    + exists false. split; [done|]. split; [done|]. intros Hall. exfalso.
      specialize (Hall i a c ltac:(lia) Hla Hlc). lia.
    + destruct (IH (S i) ltac:(lia) ltac:(lia)) as (b & Hrun & Hb).
      exists b. split; [exact Hrun|]. rewrite Hb. split.
      * intros Hall j a' c' Hj Hja Hjc.
        destruct (decide (j = i)) as [->|Hne].
        -- by simplify_eq.
        -- apply (Hall j a' c'); [lia|done|done].
      * intros Hall j a' c' Hj. apply Hall. lia.
Qed.

(** The loop when its bound lies beyond the converted mask: unless some
    byte of the signer's mask exceeds the leaf's, it runs off the end. *)
Lemma maskContains_loop_overrun caM cM i n :
  (i <= length caM)%nat → (length caM < i + n)%nat →
  (∀ j a c, caM !! j = Some a → cM !! j = Some c → (Byte.to_N a <= Byte.to_N c)%N) →
  maskContains_loop caM cM i n = Panic "index out of range".
Proof.
  revert i. induction n as [|n IH]; intros i Hi Hn Hall; simpl; [lia|].
  destruct (caM !! i) as [a|] eqn:Hla; [|done].
  destruct (cM !! i) as [c|] eqn:Hlc; [|done].
  destruct (N.ltb_spec (Byte.to_N c) (Byte.to_N a)) as [Hlt|Hge].
  { specialize (Hall i a c Hla Hlc). lia. }
  apply lookup_lt_Some in Hla. apply IH; [lia|lia|exact Hall].
Qed.

(** With a signer mask in the 16-byte form, a leaf mask the specification
    accepts makes [maskContains] panic: it is never answered with [true]. *)
Lemma maskContains_mapped_mask caMask certMask :
  length caMask = 16%nat →
  mask_at_least_as_wide caMask certMask →
  maskContains caMask certMask = Panic "index out of range".
Proof.
  intros Hlen (caM & cM & Hca & Hcert & Hall).
  unfold maskContains. rewrite Hca, Hcert.
  apply maskTo4_length in Hca.
  apply maskContains_loop_overrun; [lia|lia|exact Hall].
Qed.

(** With a signer mask in any other form, [maskContains] decides the
    relation of the specification. *)
Lemma maskContains_decides caMask certMask :
  length caMask ≠ 16%nat →
  ∃ b, maskContains caMask certMask = Ret b
       ∧ (b = true ↔ mask_at_least_as_wide caMask certMask).
Proof.
  intros Hne. unfold maskContains, mask_at_least_as_wide.
  destruct (maskTo4 caMask) as [caM|] eqn:Hca.
  2: { exists false. split; [done|]. split; [done|]. by intros (? & ? & ? & _). }
  destruct (maskTo4 certMask) as [cM|] eqn:Hcert.
  2: { exists false. split; [done|]. split; [done|]. by intros (? & ? & _ & ? & _). }
  destruct (maskTo4_not_16 _ _ Hne Hca) as [-> Hlen].
  apply maskTo4_length in Hcert.
  destruct (maskContains_loop_in_range caMask cM 0 (length caMask) ltac:(lia) ltac:(lia))
    as (b & Hrun & Hb).
  exists b. split; [exact Hrun|]. rewrite Hb. split.
  - intros Hall. exists caMask, cM. split; [done|]. split; [done|].
    intros j a c Hja Hjc. apply (Hall j a c); [|done|done].
    apply lookup_lt_Some in Hja. lia.
  - intros (caM' & cM' & [= <-] & [= <-] & Hall) j a c _. apply Hall.
Qed.

Lemma netMatch_decides certIp rootIps :
  plain_masks rootIps →
  ∃ b, netMatch certIp rootIps = Ret b ∧ (b = true ↔ contained_in certIp rootIps).
Proof.
  induction rootIps as [|net rest IH]; intros Hplain; simpl.
  - exists false. split; [done|]. split; [done|].
    intros (net & Hin & _). by apply elem_of_nil in Hin.
  - destruct IH as (b & Hrun & Hb).
    { intros n Hn. apply Hplain. by right. }
    assert (Hrest : contained_in certIp rest → contained_in certIp (net :: rest)).
    { intros (n & Hn & Hc). exists n. split; [by right|done]. }
    destruct (Contains net (IP certIp)) eqn:Hcont.
    + destruct (maskContains_decides (Mask net) (Mask certIp)) as (m & Hm & Hmb).
      { apply Hplain. by left. }
      unfold_outcome. rewrite Hm. destruct m.
      * exists true. split; [done|]. split; [|done]. intros _.
        exists net. split; [by left|]. split; [done|]. by apply Hmb.
      * exists b. split; [exact Hrun|]. rewrite Hb. split; [exact Hrest|].
        intros (n & Hn & Hc & Hw). apply elem_of_cons in Hn as [->|Hn].
        -- apply Hmb in Hw. done.
        -- exists n. done.
    + exists b. split; [exact Hrun|]. rewrite Hb. split; [exact Hrest|].
      intros (n & Hn & Hc & Hw). apply elem_of_cons in Hn as [->|Hn].
      * congruence.
      * exists n. done.
Qed.

Lemma checkNets_decides mkErr nets rootNets :
  plain_masks rootNets →
  ∃ r, checkNets mkErr nets rootNets = Ret r
       ∧ (r = None ↔ ∀ ip, ip ∈ nets → contained_in ip rootNets)
       ∧ (∀ e, r = Some e →
               ∃ ip, ip ∈ nets ∧ ¬ contained_in ip rootNets ∧ e = mkErr ip).
Proof.
  intros Hplain. induction nets as [|ip nets IH]; simpl.
  - exists None. split; [done|]. split; [|done]. split; [|done].
    intros _ ip Hin. by apply elem_of_nil in Hin.
  - destruct (netMatch_decides ip rootNets Hplain) as (b & Hm & Hb).
    unfold_outcome. rewrite Hm. destruct b.
    + destruct IH as (r & Hrun & Hnone & Hsome).
      exists r. split; [exact Hrun|]. split.
      * rewrite Hnone. split.
        -- intros Hall ip' Hin. apply elem_of_cons in Hin as [->|Hin]; [by apply Hb|auto].
        -- intros Hall ip' Hin. apply Hall. by right.
      * intros e He. destruct (Hsome e He) as (ip' & Hin & Hnot & ->).
        exists ip'. split; [by right|done].
    + assert (Hnot : ¬ contained_in ip rootNets) by (intros Hc; apply Hb in Hc; done).
      exists (Some (mkErr ip)). split; [done|]. split.
      * split; [done|]. intros Hall. exfalso. apply Hnot, Hall. by left.
      * intros e [= <-]. exists ip. split; [by left|done].
Qed.

Lemma groups_check_decides (l s : NebulaCertificate) :
  let G := if (0 <? size (InvertedGroups (Details s)))%nat
           then checkGroups (InvertedGroups (Details s)) (Groups (Details l))
           else None in
  (G = None ↔ (InvertedGroups (Details s) ≠ ∅ →
               ∀ g, g ∈ Groups (Details l) → g ∈ InvertedGroups (Details s)))
  ∧ (∀ e, G = Some e → violated_by e l s).
Proof.
  simpl. destruct (Nat.ltb_spec 0 (size (InvertedGroups (Details s)))) as [Hpos|Hzero].
  - assert (Hne : InvertedGroups (Details s) ≠ ∅).
    { intros Heq. rewrite Heq, size_empty in Hpos. lia. }
    split.
    + rewrite checkGroups_None. split; [auto|]. intros Hall. by apply Hall.
    + intros e He. apply checkGroups_error in He as (g & Hin & Hnot & ->).
      simpl. done.
  - assert (Heq : InvertedGroups (Details s) = ∅).
    { apply leibniz_equiv, size_empty_iff. lia. }
    split; [|done]. split; [|done]. intros _ Hne. done.
Qed.

Lemma nets_check_decides mkErr (nets rootNets : list IPNet) :
  plain_masks rootNets →
  ∃ r, (if (0 <? length rootNets)%nat then checkNets mkErr nets rootNets else Ret None)
       = Ret r
       ∧ (r = None ↔ (rootNets ≠ [] → ∀ ip, ip ∈ nets → contained_in ip rootNets))
       ∧ (∀ e, r = Some e →
               ∃ ip, rootNets ≠ [] ∧ ip ∈ nets ∧ ¬ contained_in ip rootNets ∧ e = mkErr ip).
Proof.
  intros Hplain. destruct rootNets as [|net rest] eqn:Hroot; simpl.
  - exists None. split; [done|]. split; [|done]. split; [|done]. intros _ Hne. done.
  - destruct (checkNets_decides mkErr nets (net :: rest) Hplain) as (r & Hrun & Hnone & Hsome).
    exists r. split; [exact Hrun|]. split.
    + rewrite Hnone. split; [auto|]. intros Hall. by apply Hall.
    + intros e He. destruct (Hsome e He) as (ip & Hin & Hnot & ->).
      exists ip. done.
Qed.

(** When no signer mask is in the 16-byte form, [CheckRootConstrains]
    decides the constraints of the specification, and the error it returns
    names a constraint that is violated. *)
Lemma CheckRootConstrains_decides (l s : NebulaCertificate) :
  plain_masks (Ips (Details s)) → plain_masks (Subnets (Details s)) →
  ∃ r, CheckRootConstrains l s = Ret r
       ∧ (r = None ↔ root_constraints l s)
       ∧ (∀ e, r = Some e → violated_by e l s).
Proof.
  intros Hpi Hps. unfold CheckRootConstrains, root_constraints, Before, After.
  destruct (Z.ltb_spec (NotAfter (Details s)) (NotAfter (Details l))) as [Hna|Hna].
  { exists (Some ErrExpiresAfterSigner). split; [done|]. split.
    - split; [done|]. intros (_ & H & _). lia.
    - intros e [= <-]. exact Hna. }
  destruct (Z.ltb_spec (NotBefore (Details l)) (NotBefore (Details s))) as [Hnb|Hnb].
  { exists (Some ErrValidBeforeSigner). split; [done|]. split.
    - split; [done|]. intros (H & _). lia.
    - intros e [= <-]. exact Hnb. }
  destruct (groups_check_decides l s) as [HGnone HGsome]. simpl in HGnone, HGsome.
  destruct (if (0 <? size (InvertedGroups (Details s)))%nat
            then checkGroups (InvertedGroups (Details s)) (Groups (Details l))
            else None) as [eg|].
  { exists (Some eg). split; [done|]. split.
    - split; [done|]. intros (_ & _ & Hg & _). by apply HGnone in Hg.
    - intros e [= <-]. by apply HGsome. }
  destruct (nets_check_decides ErrIpOutsideCA (Ips (Details l)) (Ips (Details s)) Hpi)
    as (ri & Hri & Hinone & Hisome).
  unfold_outcome. rewrite Hri. destruct ri as [ei|].
  { exists (Some ei). split; [done|]. split.
    - split; [done|]. intros (_ & _ & _ & Hi & _). by apply Hinone in Hi.
    - intros e [= <-]. destruct (Hisome ei eq_refl) as (ip & ? & ? & ? & ->). done. }
  destruct (nets_check_decides ErrSubnetOutsideCA (Subnets (Details l))
              (Subnets (Details s)) Hps) as (rs & Hrs & Hsnone & Hssome).
  exists rs. split; [exact Hrs|]. split.
  - rewrite Hsnone. split.
    + intros Hsub. split; [lia|]. split; [lia|]. split; [by apply HGnone|].
      split; [by apply Hinone|exact Hsub].
    + intros (_ & _ & _ & _ & Hsub). exact Hsub.
  - intros e He. destruct (Hssome e He) as (ip & ? & ? & ? & ->). done.
Qed.

Section Verify.
Context `{!GoLib}.

(** Past the blocklist, the signer lookup, the two expiry checks and the
    signature check, the answer of [Verify] is that of
    [CheckRootConstrains]. *)
Lemma Verify_reaches_constraints l s t ncp :
  isBlocklistedWithCache ncp l false = Ret (l, false) →
  GetCAForCert ncp l = Ok s →
  Expired s t = false →
  Expired l t = false →
  CheckSignature l (PublicKey (Details s)) = Ret true →
  Verify l t ncp
  = (r ← CheckRootConstrains l s;
     Ret (l, match r with Some e => (false, Some e) | None => (true, None) end)).
Proof.
  intros Hb Hca Hes Hel Hsig.
  unfold Verify, verify. rewrite Hb. unfold_outcome. rewrite Hca, Hes, Hel.
  unfold checkSignatureWithCache. simpl. unfold_outcome. rewrite Hsig. simpl.
  destruct (CheckRootConstrains l s) as [[e|]|]; reflexivity.
Qed.

(** X3.  For signers whose masks are not in the 16-byte form: with the leaf
    not blocklisted, its signer resolved, both valid at [t] and the signature
    good, [Verify] returns, succeeds exactly when the root constraints hold
    (validity window inside the signer's; groups, ips and subnets covered
    wherever the signer restricts them), and otherwise returns the error of
    a constraint that is violated. *)
Lemma Verify_iff_root_constraints l s t ncp :
  isBlocklistedWithCache ncp l false = Ret (l, false) →
  GetCAForCert ncp l = Ok s →
  Expired s t = false →
  Expired l t = false →
  CheckSignature l (PublicKey (Details s)) = Ret true →
  plain_masks (Ips (Details s)) → plain_masks (Subnets (Details s)) →
  ∃ r, Verify l t ncp = Ret (l, r)
       ∧ (r = (true, None) ↔ root_constraints l s)
       ∧ (∀ b e, r = (b, Some e) → b = false ∧ violated_by e l s).
Proof.
  intros Hb Hca Hes Hel Hsig Hpi Hps.
  destruct (CheckRootConstrains_decides l s Hpi Hps) as (r & Hr & Hnone & Hsome).
  rewrite (Verify_reaches_constraints l s t ncp Hb Hca Hes Hel Hsig), Hr.
  unfold_outcome. destruct r as [e|].
  - exists (false, Some e). split; [done|]. split.
    + split; [done|]. intros Hc. by apply Hnone in Hc.
    + intros b e' [= <- <-]. split; [done|]. by apply Hsome.
  - exists (true, None). split; [done|]. split.
    + split; [|done]. intros _. by apply Hnone.
    + intros b e [=].
Qed.

(** C1.  The constraints of the specification can all hold and [Verify]
    still not succeed: when the first range of the signer is written with a
    16-byte mask and contains, address and mask, the first address of the
    leaf, [maskContains] indexes the converted four-byte mask up to the
    length of the unconverted one, and [Verify] panics. *)
Theorem Verify_panics_on_16_byte_ca_mask l s t ncp net rest ip ips :
  isBlocklistedWithCache ncp l false = Ret (l, false) →
  GetCAForCert ncp l = Ok s →
  Expired s t = false →
  Expired l t = false →
  CheckSignature l (PublicKey (Details s)) = Ret true →
  root_constraints l s →
  Ips (Details s) = net :: rest →
  Ips (Details l) = ip :: ips →
  length (Mask net) = 16%nat →
  Contains net (IP ip) = true →
  mask_at_least_as_wide (Mask net) (Mask ip) →
  Verify l t ncp = Panic "index out of range".
Proof.
  intros Hb Hca Hes Hel Hsig (Hnb & Hna & Hgroups & _) Hsips Hlips Hlen Hcont Hwide.
  rewrite (Verify_reaches_constraints l s t ncp Hb Hca Hes Hel Hsig).
  unfold CheckRootConstrains, Before, After.
  rewrite (proj2 (Z.ltb_ge _ _) Hna), (proj2 (Z.ltb_ge _ _) Hnb).
  destruct (groups_check_decides l s) as [HG _]. cbn zeta in HG.
  rewrite (proj2 HG Hgroups).
  rewrite Hsips, Hlips. cbn [length Nat.ltb Nat.leb checkNets netMatch].
  rewrite Hcont. unfold_outcome.
  by rewrite (maskContains_mapped_mask _ _ Hlen Hwide).
Qed.

End Verify.

(** The sample CA with its range written with a 16-byte mask, and the
    sample leaf issued by it. *)
Lemma Verify_panics_on_16_byte_ca_mask_witness :
  root_constraints testlib.mappedLeaf testlib.mappedCA
  ∧ Verify testlib.mappedLeaf (time_Unix 3000) testlib.mappedPool
    = Panic "index out of range".
Proof.
  assert (Hwide : mask_at_least_as_wide (testlib.mappedMask 255 0 0 0)
                    [Byte.xff; Byte.xff; Byte.xff; Byte.x00]).
  { exists [Byte.xff; Byte.x00; Byte.x00; Byte.x00],
           [Byte.xff; Byte.xff; Byte.xff; Byte.x00].
    split; [vm_compute; reflexivity|]. split; [vm_compute; reflexivity|].
    intros [|[|[|[|j]]]] a c Ha Hc; cbn in Ha, Hc; simplify_eq;
      vm_compute; intros Hx; discriminate Hx. }
  assert (Hroot : root_constraints testlib.mappedLeaf testlib.mappedCA).
  { split; [vm_compute; discriminate|]. split; [vm_compute; discriminate|].
    split; [|split].
    - intros _ g Hg. apply list_elem_of_singleton in Hg as ->.
      apply (bool_decide_unpack _). vm_compute. exact I.
    - intros _ ip Hip. apply list_elem_of_singleton in Hip as ->.
      eexists. split; [by left|]. split; [vm_compute; reflexivity|exact Hwide].
    - intros Hne. exfalso. by apply Hne. }
  split; [exact Hroot|].
  eapply (@Verify_panics_on_16_byte_ca_mask testlib.lib);
    [vm_compute; reflexivity | vm_compute; reflexivity | vm_compute; reflexivity
    | vm_compute; reflexivity | vm_compute; reflexivity | exact Hroot
    | reflexivity | reflexivity | reflexivity | vm_compute; reflexivity | exact Hwide].
Defined.

(** The same leaf under the sample CA with its four-byte mask verifies. *)
Example Verify_sample_leaf :
  snd <$> Verify testlib.sampleLeaf (time_Unix 3000) testlib.samplePool
  = Ret (true, None).
Proof. vm_compute. reflexivity. Qed.

(** *** The verification caches *)

Section Caches.
Context `{!GoLib}.

Lemma cache_sound_ResetCache nc : cache_sound (ResetCache nc).
Proof. split; intros ? [=]. Qed.

Lemma sha256SumWithCache_sound nc useCache nc' r :
  cache_sound nc →
  sha256SumWithCache nc useCache = Ret (nc', r) →
  cache_sound nc' ∧ Sha256Sum nc = Ret r.
Proof.
  intros Hsound. pose proof Hsound as [Hsha Hsig].
  unfold sha256SumWithCache. unfold_outcome.
  destruct useCache; simpl.
  - destruct (sha256sum nc) as [s|] eqn:Hs.
    + intros [= <- <-]. split; [exact Hsound|]. by apply Hsha.
    + destruct (Sha256Sum nc) as [[s|e]|] eqn:Hsum; [| |done].
      * intros [= <- <-]. split; [|done]. split; simpl.
        -- intros s' [= <-].
           rewrite (Sha256Sum_body _ nc); [done|by repeat split].
        -- intros k Hk. rewrite (CheckSignature_body _ nc); [auto|by repeat split].
      * intros [= <- <-]. split; [exact Hsound|done].
  - destruct (Sha256Sum nc) as [r'|] eqn:Hsum; [|done].
    intros [= <- <-]. split; [exact Hsound|done].
Qed.

Lemma isBlocklisted_cache_transparent ncp nc nc' b :
  cache_sound nc →
  isBlocklistedWithCache ncp nc true = Ret (nc', b) →
  cache_sound nc' ∧ isBlocklistedWithCache ncp nc false = Ret (nc, b).
Proof.
  intros Hsound. unfold isBlocklistedWithCache. unfold_outcome.
  destruct (sha256SumWithCache nc true) as [[c h]|] eqn:Hs; [|done].
  destruct (sha256SumWithCache_sound _ _ _ _ Hsound Hs) as [Hsound' Hsum].
  unfold sha256SumWithCache. simpl. unfold_outcome. rewrite Hsum.
  destruct h; intros [= <- <-]; by split.
Qed.

Lemma isBlocklisted_cache_panics ncp nc msg :
  cache_sound nc →
  isBlocklistedWithCache ncp nc true = Panic msg →
  isBlocklistedWithCache ncp nc false = Panic msg.
Proof.
  intros [Hsha _]. unfold isBlocklistedWithCache, sha256SumWithCache. simpl.
  unfold_outcome. destruct (sha256sum nc) as [s|] eqn:Hs; [done|].
  destruct (Sha256Sum nc) as [[s|e]|]; done.
Qed.

Lemma isBlocklisted_uncached ncp nc nc' b :
  isBlocklistedWithCache ncp nc false = Ret (nc', b) → nc' = nc.
Proof.
  unfold isBlocklistedWithCache, sha256SumWithCache. simpl. unfold_outcome.
  destruct (Sha256Sum nc) as [[s|e]|]; by intros [= <- _].
Qed.

Lemma checkSignatureWithCache_sound nc key useCache nc' b :
  cache_sound nc →
  checkSignatureWithCache nc key useCache = Ret (nc', b) →
  cache_sound nc'.
Proof.
  intros Hsound. pose proof Hsound as [Hsha Hsig].
  unfold checkSignatureWithCache. unfold_outcome.
  destruct useCache; simpl.
  - destruct (signatureVerified nc) as [v|] eqn:Hv.
    + by intros [= <- _].
    + destruct (CheckSignature nc key) as [[]|] eqn:Hc; [| |done].
      * intros [= <- _]. split; simpl.
        -- intros s Hs. rewrite (Sha256Sum_body _ nc); [auto|by repeat split].
        -- intros k [= <-]. rewrite (CheckSignature_body _ nc); [done|by repeat split].
      * by intros [= <- _].
  - destruct (CheckSignature nc key) as [b'|]; [|done].
    by intros [= <- _].
Qed.

Lemma verify_sound nc t ncp useCache nc' r :
  cache_sound nc →
  verify nc t ncp useCache = Ret (nc', r) →
  cache_sound nc'.
Proof.
  intros Hsound. unfold verify. unfold_outcome.
  destruct (isBlocklistedWithCache ncp nc useCache) as [[c blocked]|] eqn:Hb; [|done].
  assert (Hc : cache_sound c).
  { destruct useCache.
    - by destruct (isBlocklisted_cache_transparent _ _ _ _ Hsound Hb).
    - by rewrite (isBlocklisted_uncached _ _ _ _ Hb). }
  destruct blocked; [by intros [= <- _]|].
  destruct (GetCAForCert ncp c) as [signer|e]; [|by intros [= <- _]].
  destruct (Expired signer t); [by intros [= <- _]|].
  destruct (Expired c t); [by intros [= <- _]|].
  destruct (checkSignatureWithCache c (PublicKey (Details signer)) useCache)
    as [[c' ok]|] eqn:Hcs; [|done].
  apply checkSignatureWithCache_sound in Hcs; [|done].
  destruct ok; simpl; [|by intros [= <- _]].
  destruct (CheckRootConstrains c' signer) as [[e|]|]; [| |done]; by intros [= <- _].
Qed.

Lemma run_calls_sound calls nc nc' :
  cache_sound nc → run_calls calls nc = Ret nc' → cache_sound nc'.
Proof.
  revert nc. induction calls as [|[[useCache t] ncp] calls IH]; intros nc Hsound; simpl.
  - by intros [= <-].
  - unfold_outcome.
    destruct (verify nc t ncp useCache) as [[c r]|] eqn:Hv; [|done].
    apply IH. by eapply verify_sound.
Qed.

(** The signature check through the cache agrees with the check itself
    when the key presented is the cached one or one the check rejects. *)
Lemma checkSignature_cache_transparent nc key :
  cache_sound nc →
  (∀ k, signatureVerified nc = Some k → key ≠ k → CheckSignature nc key = Ret false) →
  snd <$> checkSignatureWithCache nc key true = CheckSignature nc key.
Proof.
  intros [_ Hsig] Hother. unfold checkSignatureWithCache. simpl. unfold_outcome.
  destruct (signatureVerified nc) as [v|] eqn:Hv.
  - unfold bytes_Equal. case_bool_decide as Heq.
    + subst. by rewrite Hsig.
    + rewrite (Hother v eq_refl); [done|]. congruence.
  - by destruct (CheckSignature nc key) as [[]|].
Qed.

Lemma verify_cache_transparent nc t ncp :
  cache_sound nc →
  (∀ k s, signatureVerified nc = Some k →
          GetCAForCert ncp nc = Ok s →
          PublicKey (Details s) ≠ k →
          CheckSignature nc (PublicKey (Details s)) = Ret false) →
  snd <$> VerifyWithCache nc t ncp = snd <$> Verify nc t ncp.
Proof.
  intros Hsound Hother. unfold VerifyWithCache, Verify, verify. unfold_outcome.
  destruct (isBlocklistedWithCache ncp nc true) as [[c blocked]|] eqn:Hb.
  2: { by rewrite (isBlocklisted_cache_panics _ _ _ Hsound Hb). }
  destruct (isBlocklistedWithCache_body _ _ _ _ _ Hb) as [Hbody Hkey].
  destruct (isBlocklisted_cache_transparent _ _ _ _ Hsound Hb) as [Hc ->].
  destruct blocked; [done|].
  rewrite (GetCAForCert_body ncp c nc Hbody).
  destruct (GetCAForCert ncp nc) as [signer|e] eqn:Hca; [|done].
  destruct (Expired signer t); [done|].
  rewrite (Expired_body c nc t Hbody).
  destruct (Expired nc t); [done|].
  assert (Hcs : snd <$> checkSignatureWithCache c (PublicKey (Details signer)) true
                = CheckSignature nc (PublicKey (Details signer))).
  { rewrite checkSignature_cache_transparent; [by apply CheckSignature_body|done|].
    intros k Hk Hne. rewrite (CheckSignature_body c nc _ Hbody).
    apply (Hother k signer); [congruence|done|done]. }
  unfold checkSignatureWithCache at 2. simpl. unfold_outcome.
  destruct (checkSignatureWithCache c (PublicKey (Details signer)) true)
    as [[c' ok]|] eqn:Hrun; simpl in Hcs; rewrite <- Hcs; [|done].
  apply checkSignatureWithCache_body in Hrun as [Hbody' _].
  destruct ok; simpl; [|done].
  rewrite (CheckRootConstrains_body c' nc signer (same_body_trans _ _ _ Hbody' Hbody)).
  by destruct (CheckRootConstrains nc signer) as [[e|]|].
Qed.

(** The same after any sequence of calls on a certificate that starts with
    empty caches, in terms of the key the cache holds at the end. *)
Lemma VerifyWithCache_transparent nc0 calls nc t ncp :
  run_calls calls (ResetCache nc0) = Ret nc →
  (∀ k s, signatureVerified nc = Some k →
          GetCAForCert ncp nc = Ok s →
          PublicKey (Details s) ≠ k →
          CheckSignature nc (PublicKey (Details s)) = Ret false) →
  snd <$> VerifyWithCache nc t ncp = snd <$> Verify nc t ncp.
Proof.
  intros Hrun Hother. apply verify_cache_transparent; [|exact Hother].
  eapply run_calls_sound; [apply cache_sound_ResetCache|exact Hrun].
Qed.

End Caches.

(** *** Pools *)




Section Pools.
Context `{!GoLib}.

(** Pools as the specification defines them agree on the key of the
    signer of any issuer, SHA-256 being free of collisions. *)
Lemma fingerprint_indexed_pools_agree issuer pools :
  Forall fingerprint_indexed pools → fingerprint_binds_key →
  pools_agree issuer pools.
Proof.
  rewrite Forall_forall. intros Hidx Hbind p p' s s' Hp Hp' Hs Hs'.
  apply (Hbind s s' issuer); [by apply (Hidx p)|by apply (Hidx p')].
Qed.





End Pools.


(** The answer in question, and the two pools resolving the issuer of the
    leaf to the same CA. *)
Example cachedLeaf_against_widePool :
  snd <$> @VerifyWithCache testlib.lib testlib.cachedLeaf (time_Unix 5000) testlib.widePool
  = Ret (true, None)
  ∧ CAs testlib.widePool !! Issuer (Details testlib.cachedLeaf) = Some testlib.sampleCA
  ∧ CAs testlib.samplePool !! Issuer (Details testlib.cachedLeaf) = Some testlib.sampleCA
  ∧ @fingerprint_indexed testlib.lib testlib.widePool
  ∧ @fingerprint_indexed testlib.lib testlib.samplePool.
Proof.
  split; [vm_compute; reflexivity|]. split; [vm_compute; reflexivity|].
  split; [vm_compute; reflexivity|].
  assert (Hidx : ∀ ncp,
            bool_decide (map_Forall (λ fp ca, testlib.fingerprint ca = fp
                                              ∧ testlib.fingerprint ca ≠ EmptyString)
                           (CAs ncp)) = true →
            @fingerprint_indexed testlib.lib ncp).
  { intros ncp Hd fp ca Hca. apply bool_decide_eq_true in Hd.
    destruct (Hd fp ca Hca) as [Hfp Hne]. unfold testlib.fingerprint in Hfp, Hne.
    destruct (Sha256Sum ca) as [[s|e]|]; [by subst|done|done]. }
  split; apply Hidx; vm_compute; reflexivity.
Qed.

(** With pools as the specification defines them, a Curve25519 certificate
    whose issuer is a P-256 CA makes [Verify] and [VerifyWithCache] panic
    alike: [ed25519.Verify] is handed the 65-byte key of the signer. *)
Example Verify_panics_on_stray_leaf :
  snd <$> @Verify testlib.lib testlib.strayLeaf (time_Unix 3000) testlib.widePool
  = Panic "ed25519: bad public key length"
  ∧ snd <$> @VerifyWithCache testlib.lib testlib.strayLeaf (time_Unix 3000) testlib.widePool
    = Panic "ed25519: bad public key length".
Proof. split; vm_compute; reflexivity. Qed.

(** *** Marshal and Unmarshal *)

Lemma to_N_byte_of_N n : Byte.to_N (byte_of_N n) = (n mod 256)%N.
Proof.
  unfold byte_of_N.
  destruct (Byte.of_N (n mod 256)) as [x|] eqn:Hx.
  - simpl. by apply Byte.to_of_N.
  - apply Byte.of_N_None_iff in Hx.
    pose proof (N.mod_upper_bound n 256 ltac:(lia)). lia.
Qed.

Lemma byte_of_N_to_N (x : byte) (hi : N) : byte_of_N (Byte.to_N x + 256 * hi) = x.
Proof.
  unfold byte_of_N.
  replace ((Byte.to_N x + 256 * hi) mod 256)%N with (Byte.to_N x).
  - by rewrite Byte.of_to_N.
  - pose proof (Byte.to_N_bounded x).
    rewrite (N.mul_comm 256 hi), N.Div0.mod_add, N.mod_small; lia.
Qed.

Lemma div_256 (x : byte) (hi : N) : ((Byte.to_N x + 256 * hi) / 256)%N = hi.
Proof.
  pose proof (Byte.to_N_bounded x).
  rewrite (N.mul_comm 256 hi), N.div_add by lia.
  rewrite N.div_small; lia.
Qed.

(** [PutUint32] writes back the four bytes [Uint32] read. *)
Lemma PutUint32_Uint32 (a b c d : byte) :
  ∃ n, BigEndian_Uint32 [a; b; c; d] = Ret n ∧ BigEndian_PutUint32 n = [a; b; c; d].
Proof.
  eexists. split; [reflexivity|]. unfold BigEndian_PutUint32.
  set (n := (Byte.to_N d + 256 * (Byte.to_N c + 256 * (Byte.to_N b + 256 * Byte.to_N a)))%N).
  assert (H1 : (n / 256 = Byte.to_N c + 256 * (Byte.to_N b + 256 * Byte.to_N a))%N)
    by apply div_256.
  assert (H2 : (n / 65536 = Byte.to_N b + 256 * Byte.to_N a)%N).
  { change 65536%N with (256 * 256)%N. rewrite <- N.Div0.div_div, H1. apply div_256. }
  assert (H3 : (n / 16777216 = Byte.to_N a)%N).
  { change 16777216%N with (65536 * 256)%N. rewrite <- N.Div0.div_div, H2. apply div_256. }
  rewrite H1, H2, H3. unfold n. rewrite !byte_of_N_to_N.
  replace (Byte.to_N a) with (Byte.to_N a + 256 * 0)%N by lia.
  by rewrite byte_of_N_to_N.
Qed.

Lemma int2ip_ip2int (ip : bytes) :
  length ip = 4%nat → ∃ n, ip2int ip = Ret n ∧ int2ip n = ip.
Proof.
  intros Hlen. destruct ip as [|a [|b [|c [|d [|]]]]]; try done.
  unfold ip2int, int2ip. simpl. apply PutUint32_Uint32.
Qed.

Lemma mod_2_SS (n : nat) : (S (S n) mod 2 = n mod 2)%nat.
Proof.
  replace (S (S n)) with (n + 1 * 2)%nat by lia. apply Nat.Div0.mod_add.
Qed.

Lemma netsOfRaw_rawNets (l : list IPNet) :
  Forall v4net l →
  ∃ raw, rawNets l = Ret raw ∧ netsOfRaw raw = l ∧ (length raw mod 2 = 0)%nat.
Proof.
  induction 1 as [|[ip m] l [Hip Hm] _ (raw & Hraw & Hnets & Heven)].
  - by exists [].
  - cbn [IP Mask] in Hip, Hm. cbn [rawNets IP Mask].
    destruct (int2ip_ip2int ip Hip) as (a & Ha & Hia).
    destruct (int2ip_ip2int m Hm) as (k & Hk & Hik).
    unfold_outcome. rewrite Ha, Hk, Hraw.
    exists (a :: k :: raw). split; [done|]. split.
    + cbn [netsOfRaw]. by rewrite Hia, Hik, Hnets.
    + change (length (a :: k :: raw)) with (S (S (length raw))).
      by rewrite mod_2_SS.
Qed.

Lemma time_Unix_Unix (t : time_Time) : t mod 1000000000 = 0 → time_Unix (Unix t) = t.
Proof.
  intros Hmod. unfold time_Unix, Unix.
  pose proof (Z.div_mod t 1000000000 ltac:(lia)). lia.
Qed.

(** **** Hexadecimal strings *)

Lemma lower_hex_digit_value (c : ascii) :
  lower_hex_digit c = true →
  ∃ v, fromHexChar c = Some v ∧ (v < 16)%N ∧ hexdigit v = c.
Proof.
  destruct c as [[] [] [] [] [] [] [] []]; vm_compute; intros Hc;
    try discriminate Hc; eexists; (split; [reflexivity|]); split; reflexivity.
Qed.

Lemma hex_byte (a b : N) :
  (a < 16)%N → (b < 16)%N →
  (Byte.to_N (byte_of_N (16 * a + b)) / 16 = a)%N
  ∧ (Byte.to_N (byte_of_N (16 * a + b)) mod 16 = b)%N.
Proof.
  intros Ha Hb. rewrite to_N_byte_of_N, (N.mod_small (16 * a + b) 256) by lia.
  split.
  - symmetry. apply (N.div_unique _ 16 a b); lia.
  - symmetry. apply (N.mod_unique _ 16 a b); lia.
Qed.

Lemma hex_Encode_Decode (s : string) :
  canonical_hex s = true →
  snd (hex_DecodeString s) = None
  ∧ hex_EncodeToString (fst (hex_DecodeString s)) = s.
Proof.
  remember (String.length s) as n eqn:Hn. revert s Hn.
  induction n as [n IH] using lt_wf_ind. intros s Hn.
  destruct s as [|p [|q rest]]; [done|done|].
  cbn [canonical_hex hex_DecodeString]. intros Hc.
  apply andb_prop in Hc as [Hc Hrest]. apply andb_prop in Hc as [Hp Hq].
  destruct (lower_hex_digit_value p Hp) as (a & Hfa & Ha & Hda).
  destruct (lower_hex_digit_value q Hq) as (b & Hfb & Hb & Hdb).
  rewrite Hfa, Hfb.
  destruct (IH (String.length rest) ltac:(simpl in Hn; lia) rest eq_refl Hrest)
    as [Herr Henc].
  destruct (hex_DecodeString rest) as [out err]. cbn [fst snd] in *.
  split; [exact Herr|]. cbn [hex_EncodeToString].
  destruct (hex_byte a b Ha Hb) as [-> ->].
  by rewrite Hda, Hdb, Henc.
Qed.

(** **** The round trip *)

Lemma getRawDetails_valid (c : NebulaCertificate) :
  Forall v4net (Ips (Details c)) → Forall v4net (Subnets (Details c)) →
  ∃ rd, getRawDetails c = Ret rd
        ∧ netsOfRaw (rIps rd) = Ips (Details c)
        ∧ netsOfRaw (rSubnets rd) = Subnets (Details c)
        ∧ (length (rIps rd) mod 2 = 0)%nat
        ∧ (length (rSubnets rd) mod 2 = 0)%nat.
Proof.
  intros Hips Hsub. unfold getRawDetails.
  destruct (netsOfRaw_rawNets _ Hips) as (ips & -> & Hi & Hie).
  destruct (netsOfRaw_rawNets _ Hsub) as (subs & -> & Hs & Hse).
  unfold_outcome. eexists. split; [reflexivity|]. by repeat split.
Qed.

Section Roundtrip.
Context `{!GoLib}.

(** C3, amended.  For a certificate with four-byte IPv4 addresses and
    masks, a public key of at least 32 bytes, whole-second timestamps and an
    issuer made of an even number of lower-case hexadecimal digits, whose
    marshalled form the protobuf codec decodes to what it encoded:
    [UnmarshalNebulaCertificate(Marshal(c))] succeeds and returns [c] with
    the inverted groups rebuilt from the groups, [Pkcs11Backed] false and
    the caches empty. *)
Theorem Unmarshal_Marshal_roundtrip c rd b :
  roundtrip_valid c →
  getRawDetails c = Ret rd →
  proto_Marshal {| rDetails := Some rd; rSignature := Signature c |} = Ok b →
  b ≠ [] →
  proto_Unmarshal b = Ok {| rDetails := Some rd; rSignature := Signature c |} →
  Marshal c = Ret (Ok b)
  ∧ UnmarshalNebulaCertificate b = Ok (rebuilt c)
  ∧ equal_modulo_inverted_groups (rebuilt c) c.
Proof.
  intros (Hips & Hsub & Hkey & Hhex & Hnb & Hna) Hrd Hb Hne Hdec.
  split; [|split].
  - unfold Marshal. rewrite Hrd. unfold_outcome. by rewrite Hb.
  - destruct (getRawDetails_valid c Hips Hsub) as (rd' & Hrd' & Hi & Hs & Hie & Hse).
    assert (rd' = rd) as -> by congruence.
    unfold UnmarshalNebulaCertificate.
    destruct b as [|x b]; [done|]. cbn [length Nat.eqb].
    rewrite Hdec. cbn [rDetails rSignature].
    rewrite Hie, Hse. cbn [Nat.eqb negb].
    assert (Hpk : rPublicKey rd = PublicKey (Details c)).
    { unfold getRawDetails in Hrd. unfold_outcome.
      repeat case_match; simplify_eq. reflexivity. }
    rewrite Hpk.
    destruct (Nat.ltb_spec (length (PublicKey (Details c))) publicKeyLen); [lia|].
    unfold rebuilt. rewrite Hi, Hs.
    unfold getRawDetails in Hrd. unfold_outcome.
    repeat case_match; simplify_eq. cbn.
    rewrite !time_Unix_Unix by done.
    by rewrite (proj2 (hex_Encode_Decode _ Hhex)).
  - by repeat split.
Qed.

End Roundtrip.

(** C3, as stated, fails: the issuer "AB" is accepted by [hex.DecodeString],
    and comes back as "ab". *)
Lemma roundtrip_as_specified_fails : ¬ @roundtrip_as_specified testlib.lib.
Proof.
  intros Hspec.
  assert (Hvalid : roundtrip_valid_as_specified testlib.upperIssuerCert).
  { split; [vm_compute; repeat constructor|].
    split; [vm_compute; constructor|].
    split; [vm_compute; lia|].
    repeat split; vm_compute; reflexivity. }
  destruct (Hspec testlib.upperIssuerCert testlib.upperIssuerRaw
              (protowire.enc_Certificate
                 {| rDetails := Some testlib.upperIssuerRaw; rSignature := [] |})
              Hvalid
              ltac:(vm_compute; reflexivity) ltac:(reflexivity)
              ltac:(vm_compute; intros Hnil; discriminate Hnil)
              ltac:(vm_compute; reflexivity))
    as (c' & _ & Hun & Heq).
  destruct Heq as (_ & _ & _ & _ & _ & _ & _ & _ & Hissuer & _).
  assert (Hback : ∃ c0, UnmarshalNebulaCertificate
                          (protowire.enc_Certificate
                             {| rDetails := Some testlib.upperIssuerRaw;
                                rSignature := [] |}) = Ok c0
                        ∧ Issuer (Details c0) = "ab"%string).
  { eexists. split; vm_compute; reflexivity. }
  destruct Hback as (c0 & Hc0 & Hab).
  assert (c' = c0) as -> by congruence.
  rewrite Hab in Hissuer. discriminate Hissuer.
Qed.

(** The sample leaf survives the round trip through the wire format. *)
Lemma Unmarshal_Marshal_roundtrip_witness :
  ∃ b, @Marshal testlib.lib testlib.sampleLeaf = Ret (Ok b)
       ∧ @UnmarshalNebulaCertificate testlib.lib b = Ok (rebuilt testlib.sampleLeaf)
       ∧ equal_modulo_inverted_groups (rebuilt testlib.sampleLeaf) testlib.sampleLeaf.
Proof.
  eexists.
  eapply (@Unmarshal_Marshal_roundtrip testlib.lib testlib.sampleLeaf).
  - split; [vm_compute; repeat constructor|].
    split; [vm_compute; constructor|].
    split; [vm_compute; lia|].
    repeat split; vm_compute; reflexivity.
  - vm_compute. reflexivity.
  - vm_compute. reflexivity.
  - discriminate.
  - vm_compute. reflexivity.
Defined.

(** *** Copy *)

Lemma map_copyNet l : map copyNet l = l.
Proof. induction l as [|[ip m] l IH]; simpl; [done|]. by rewrite IH. Qed.

(** Every field [Copy] names is copied. *)
Lemma Copy_named_fields nc :
  let c := Copy nc in
  Name (Details c) = Name (Details nc)
  ∧ Ips (Details c) = Ips (Details nc)
  ∧ Subnets (Details c) = Subnets (Details nc)
  ∧ Groups (Details c) = Groups (Details nc)
  ∧ NotBefore (Details c) = NotBefore (Details nc)
  ∧ NotAfter (Details c) = NotAfter (Details nc)
  ∧ PublicKey (Details c) = PublicKey (Details nc)
  ∧ IsCA (Details c) = IsCA (Details nc)
  ∧ Issuer (Details c) = Issuer (Details nc)
  ∧ InvertedGroups (Details c) = InvertedGroups (Details nc)
  ∧ Signature c = Signature nc.
Proof. simpl. rewrite !map_copyNet. by repeat split. Qed.

(** C9.  [Copy] does not copy the curve: the copy of any certificate is on
    Curve25519, so the copy of a P-256 certificate differs from it in
    [Details.Curve]. *)
Theorem Copy_resets_Curve :
  (∀ nc, Curve (Details (Copy nc)) = Curve_CURVE25519)
  ∧ Curve (Details testlib.p256CA) = Curve_P256
  ∧ Curve (Details (Copy testlib.p256CA)) ≠ Curve (Details testlib.p256CA)
  ∧ Details (Copy testlib.p256CA) ≠ Details testlib.p256CA.
Proof.
  split; [reflexivity|]. split; [reflexivity|]. split; [discriminate|].
  intros Heq. apply (f_equal Curve) in Heq. discriminate Heq.
Qed.

(** *** Sign *)

Section Sign.
Context `{!GoLib}.

(** A curve other than the certificate's is refused before anything is
    computed. *)
Lemma Sign_curve_mismatch rnd nc curve key :
  curve ≠ Curve (Details nc) →
  Sign rnd nc curve key = Ret (nc, Some ErrCurveMismatch).
Proof.
  intros Hne. unfold Sign.
  destruct (Z.eqb_spec curve (Curve (Details nc))); [done|reflexivity].
Qed.

(** A curve that is neither Curve25519 nor P-256 is refused once the
    details are marshalled. *)
Lemma Sign_unsupported_curve rnd nc key rd b :
  Curve (Details nc) ≠ Curve_CURVE25519 →
  Curve (Details nc) ≠ Curve_P256 →
  getRawDetails nc = Ret rd →
  proto_Marshal_Details rd = Ok b →
  Sign rnd nc (Curve (Details nc)) key
  = Ret (nc, Some (ErrInvalidCurve (Curve (Details nc)))).
Proof.
  intros H1 H2 Hrd Hb. unfold Sign. rewrite Z.eqb_refl. simpl.
  rewrite Hrd. unfold_outcome. rewrite Hb.
  destruct (Z.eqb_spec (Curve (Details nc)) Curve_CURVE25519); [done|].
  destruct (Z.eqb_spec (Curve (Details nc)) Curve_P256); [done|].
  reflexivity.
Qed.

(** With a key of exactly 64 bytes a Curve25519 certificate is signed. *)
Lemma Sign_ed25519 rnd nc key rd b :
  Curve (Details nc) = Curve_CURVE25519 →
  getRawDetails nc = Ret rd →
  proto_Marshal_Details rd = Ok b →
  length key = ed25519_PrivateKeySize →
  Sign rnd nc Curve_CURVE25519 key
  = Ret (with_Signature nc (ed25519_Sign key b), None).
Proof.
  intros Hc Hrd Hb Hlen. unfold Sign. rewrite Hc. simpl.
  rewrite Hrd. unfold_outcome. rewrite Hb, Hlen. reflexivity.
Qed.

(** C7.  On a Curve25519 certificate, [Sign] with a key that is not
    [ed25519.PrivateKeySize] (64) bytes long does not return an error:
    [ed25519.Sign] panics on the length of the key. *)
Theorem Sign_panics_on_short_ed25519_key rnd nc key rd b :
  Curve (Details nc) = Curve_CURVE25519 →
  getRawDetails nc = Ret rd →
  proto_Marshal_Details rd = Ok b →
  length key ≠ ed25519_PrivateKeySize →
  Sign rnd nc Curve_CURVE25519 key = Panic "ed25519: bad private key length".
Proof.
  intros Hc Hrd Hb Hlen. unfold Sign. rewrite Hc. simpl.
  rewrite Hrd. unfold_outcome. rewrite Hb.
  destruct (Nat.eqb_spec (length key) ed25519_PrivateKeySize); [done|reflexivity].
Qed.

End Sign.

(** Signing the sample leaf with the 32-byte seed of the CA key instead of
    the 64-byte private key. *)
Lemma Sign_panics_on_short_ed25519_key_witness :
  Sign [] (testlib.unsigned testlib.leafDetails) Curve_CURVE25519 (testlib.seed Byte.x01)
  = Panic "ed25519: bad private key length".
Proof.
  eapply (@Sign_panics_on_short_ed25519_key testlib.lib).
  - reflexivity.
  - vm_compute. reflexivity.
  - reflexivity.
  - vm_compute. discriminate.
Defined.

(** *** What UnmarshalNebulaCertificate returns *)

Lemma byte_of_N_small (n : N) : (n < 256)%N → Byte.to_N (byte_of_N n) = n.
Proof. intros Hn. rewrite to_N_byte_of_N. by apply N.mod_small. Qed.

Lemma Uint32_PutUint32 (n : N) :
  uint32 n → BigEndian_Uint32 (BigEndian_PutUint32 n) = Ret n.
Proof.
  unfold uint32. intros Hn. unfold BigEndian_PutUint32, BigEndian_Uint32.
  rewrite !to_N_byte_of_N. f_equal.
  assert (D1 : (n / 256 / 256 = n / 65536)%N) by (by rewrite N.Div0.div_div).
  assert (D2 : (n / 65536 / 256 = n / 16777216)%N) by (by rewrite N.Div0.div_div).
  assert (H3 : (n / 16777216 < 256)%N) by (apply N.Div0.div_lt_upper_bound; lia).
  rewrite (N.mod_small (n / 16777216) 256) by exact H3.
  pose proof (N.div_mod n 256 ltac:(lia)) as E0.
  pose proof (N.div_mod (n / 256) 256 ltac:(lia)) as E1. rewrite D1 in E1.
  pose proof (N.div_mod (n / 65536) 256 ltac:(lia)) as E2. rewrite D2 in E2.
  generalize dependent (n mod 256)%N. generalize dependent ((n / 256) mod 256)%N.
  generalize dependent ((n / 65536) mod 256)%N.
  generalize dependent (n / 16777216)%N. generalize dependent (n / 65536)%N.
  generalize dependent (n / 256)%N. intros. lia.
Qed.

Lemma int2ip_length n : length (int2ip n) = 4%nat.
Proof. reflexivity. Qed.

Lemma ip2int_int2ip n : uint32 n → ip2int (int2ip n) = Ret n.
Proof. intros Hn. unfold ip2int. cbn [length int2ip BigEndian_PutUint32 Nat.eqb]. by apply Uint32_PutUint32. Qed.

Lemma netsOfRaw_v4 (l : list N) :
  (length l mod 2 = 0)%nat → Forall v4net (netsOfRaw l).
Proof.
  remember (length l) as n eqn:Hn. revert l Hn.
  induction n as [n IH] using lt_wf_ind. intros l Hn Heven.
  destruct l as [|a [|m rest]]; [constructor| by subst |].
  cbn [netsOfRaw]. constructor; [by split|].
  apply (IH (length rest)); [simpl in Hn; lia|done|].
  subst n. change (length (a :: m :: rest)) with (S (S (length rest))) in Heven.
  by rewrite mod_2_SS in Heven.
Qed.

Lemma rawNets_netsOfRaw (l : list N) :
  (length l mod 2 = 0)%nat → Forall uint32 l → rawNets (netsOfRaw l) = Ret l.
Proof.
  remember (length l) as n eqn:Hn. revert l Hn.
  induction n as [n IH] using lt_wf_ind. intros l Hn Heven Hwords.
  destruct l as [|a [|m rest]]; [done| by subst |].
  apply Forall_cons in Hwords as [Ha Hwords]. apply Forall_cons in Hwords as [Hm Hwords].
  cbn [netsOfRaw rawNets IP Mask]. unfold_outcome.
  rewrite (ip2int_int2ip a Ha), (ip2int_int2ip m Hm).
  rewrite (IH (length rest)); [done|simpl in Hn; lia|done| |done].
  subst n. change (length (a :: m :: rest)) with (S (S (length rest))) in Heven.
  by rewrite mod_2_SS in Heven.
Qed.

Lemma Unix_time_Unix (sec : Z) : Unix (time_Unix sec) = sec.
Proof. unfold Unix, time_Unix. apply Z.div_mul. lia. Qed.

Lemma hexdigit_lower (n : N) :
  (n < 16)%N → lower_hex_digit (hexdigit n) = true ∧ fromHexChar (hexdigit n) = Some n.
Proof.
  intros Hn.
  assert (Hall : forallb (λ k, lower_hex_digit (hexdigit k)
                               && bool_decide (fromHexChar (hexdigit k) = Some k))
                   (map N.of_nat (seq 0 16)) = true) by (vm_compute; reflexivity).
  rewrite forallb_forall in Hall.
  specialize (Hall n). rewrite andb_true_iff in Hall.
  destruct Hall as [H1 H2].
  { apply in_map_iff. exists (N.to_nat n). split; [lia|]. apply in_seq. lia. }
  split; [exact H1|]. by apply bool_decide_eq_true in H2.
Qed.

Lemma byte_nibbles (x : byte) :
  (Byte.to_N x / 16 < 16)%N ∧ (Byte.to_N x mod 16 < 16)%N
  ∧ byte_of_N (16 * (Byte.to_N x / 16) + Byte.to_N x mod 16) = x.
Proof.
  pose proof (Byte.to_N_bounded x) as Hx.
  split; [apply N.Div0.div_lt_upper_bound; lia|].
  split; [apply N.mod_upper_bound; lia|].
  rewrite <- N.div_mod by lia.
  replace (Byte.to_N x) with (Byte.to_N x + 256 * 0)%N by lia.
  apply byte_of_N_to_N.
Qed.

Lemma hex_EncodeToString_canonical (b : bytes) :
  canonical_hex (hex_EncodeToString b) = true.
Proof.
  induction b as [|x b IH]; [done|]. cbn [hex_EncodeToString canonical_hex].
  destruct (byte_nibbles x) as (Hhi & Hlo & _).
  rewrite (proj1 (hexdigit_lower _ Hhi)), (proj1 (hexdigit_lower _ Hlo)). exact IH.
Qed.

Lemma hex_Decode_Encode (b : bytes) :
  hex_DecodeString (hex_EncodeToString b) = (b, None).
Proof.
  induction b as [|x b IH]; [done|]. cbn [hex_EncodeToString hex_DecodeString].
  destruct (byte_nibbles x) as (Hhi & Hlo & Hx).
  rewrite (proj2 (hexdigit_lower _ Hhi)), (proj2 (hexdigit_lower _ Hlo)), IH, Hx.
  reflexivity.
Qed.

Section Unmarshalled.
Context `{!GoLib}.

(** What a successful [UnmarshalNebulaCertificate] has read. *)
Lemma Unmarshal_Ok b c :
  UnmarshalNebulaCertificate b = Ok c →
  ∃ rc rd,
    b ≠ [] ∧ proto_Unmarshal b = Ok rc ∧ rDetails rc = Some rd
    ∧ (length (rIps rd) mod 2 = 0)%nat
    ∧ (length (rSubnets rd) mod 2 = 0)%nat
    ∧ (publicKeyLen <= length (rPublicKey rd))%nat
    ∧ c = {| Details :=
               {| Name := rName rd;
                  Ips := netsOfRaw (rIps rd);
                  Subnets := netsOfRaw (rSubnets rd);
                  Groups := rGroups rd;
                  NotBefore := time_Unix (rNotBefore rd);
                  NotAfter := time_Unix (rNotAfter rd);
                  PublicKey := rPublicKey rd;
                  IsCA := rIsCA rd;
                  Issuer := hex_EncodeToString (rIssuer rd);
                  InvertedGroups := list_to_set (rGroups rd);
                  Curve := rCurve rd |};
             Pkcs11Backed := false;
             Signature := rSignature rc;
             sha256sum := None;
             signatureVerified := None |}.
Proof.
  unfold UnmarshalNebulaCertificate. intros Hu.
  destruct b as [|x b]; [done|]. cbn [length Nat.eqb] in Hu.
  destruct (proto_Unmarshal (x :: b)) as [rc|] eqn:Hrc; [|done].
  destruct (rDetails rc) as [rd|] eqn:Hrd; [|done].
  destruct (length (rIps rd) mod 2 =? 0)%nat eqn:Hi; [|done].
  destruct (length (rSubnets rd) mod 2 =? 0)%nat eqn:Hs; [|done].
  destruct (length (rPublicKey rd) <? publicKeyLen)%nat eqn:Hk; [done|].
  cbn [negb] in Hu. injection Hu as <-.
  exists rc, rd. split; [done|]. split; [done|]. split; [done|].
  split; [by apply Nat.eqb_eq|]. split; [by apply Nat.eqb_eq|].
  split; [apply Nat.ltb_ge in Hk; lia|reflexivity].
Qed.

(** X4.  Every certificate [UnmarshalNebulaCertificate] returns has
    addresses and masks of four bytes, a public key of at least 32 bytes, an
    issuer in lower-case hexadecimal and whole-second timestamps, its
    inverted groups are the set of its groups, it is not PKCS#11-backed and
    its caches are empty: it is a certificate the round trip gives back
    unchanged, and as a signer it cannot make the mask comparison of
    [CheckRootConstrains] overrun. *)
Theorem Unmarshal_returns_canonical b c :
  UnmarshalNebulaCertificate b = Ok c →
  roundtrip_valid c
  ∧ rebuilt c = c
  ∧ plain_masks (Ips (Details c))
  ∧ plain_masks (Subnets (Details c)).
Proof.
  intros Hu. destruct (Unmarshal_Ok b c Hu)
    as (rc & rd & _ & _ & _ & Hi & Hs & Hk & ->).
  pose proof (netsOfRaw_v4 _ Hi) as Hv4i. pose proof (netsOfRaw_v4 _ Hs) as Hv4s.
  split; [|split; [reflexivity|]].
  - unfold roundtrip_valid. cbn.
    split; [exact Hv4i|]. split; [exact Hv4s|]. split; [exact Hk|].
    split; [apply hex_EncodeToString_canonical|].
    unfold time_Unix. split; apply Z.mod_mul; lia.
  - cbn. split; intros net Hin.
    + rewrite Forall_forall in Hv4i. destruct (Hv4i net Hin) as [_ ->]. lia.
    + rewrite Forall_forall in Hv4s. destruct (Hv4s net Hin) as [_ ->]. lia.
Qed.

(** X5.  Unmarshalling loses nothing of the message: for a decoded message
    whose address words fit 32 bits, [getRawDetails] of the certificate
    [UnmarshalNebulaCertificate] returns is the details message that was
    decoded, so that [Marshal] hands the codec the very message it decoded,
    and signature and fingerprint are computed over it. *)
Theorem getRawDetails_Unmarshal b c rc rd :
  UnmarshalNebulaCertificate b = Ok c →
  proto_Unmarshal b = Ok rc →
  rDetails rc = Some rd →
  Forall uint32 (rIps rd) → Forall uint32 (rSubnets rd) →
  getRawDetails c = Ret rd
  ∧ Marshal c = Ret (proto_Marshal rc).
Proof.
  intros Hu Hrc Hrd Hwi Hws.
  destruct (Unmarshal_Ok b c Hu) as (rc' & rd' & _ & Hrc' & Hrd' & Hi & Hs & _ & ->).
  assert (rc' = rc) as -> by congruence. assert (rd' = rd) as -> by congruence.
  assert (Hraw : getRawDetails
                   {| Details :=
                        {| Name := rName rd; Ips := netsOfRaw (rIps rd);
                           Subnets := netsOfRaw (rSubnets rd); Groups := rGroups rd;
                           NotBefore := time_Unix (rNotBefore rd);
                           NotAfter := time_Unix (rNotAfter rd);
                           PublicKey := rPublicKey rd; IsCA := rIsCA rd;
                           Issuer := hex_EncodeToString (rIssuer rd);
                           InvertedGroups := list_to_set (rGroups rd);
                           Curve := rCurve rd |};
                      Pkcs11Backed := false; Signature := rSignature rc;
                      sha256sum := None; signatureVerified := None |}
                 = Ret rd).
  { unfold getRawDetails. cbn [Details Ips Subnets Name Groups NotBefore NotAfter
                                 PublicKey IsCA Issuer Curve].
    rewrite (rawNets_netsOfRaw _ Hi Hwi), (rawNets_netsOfRaw _ Hs Hws).
    unfold_outcome. rewrite !Unix_time_Unix, hex_Decode_Encode. cbn [fst].
    by destruct rd. }
  split; [exact Hraw|].
  unfold Marshal. rewrite Hraw. unfold_outcome. cbn [Signature].
  destruct rc as [d s]. cbn in Hrd. by rewrite Hrd.
Qed.

End Unmarshalled.

(** *** What verification accepts, and what it leaves *)

Section Verification.
Context `{!GoLib}.

Lemma same_body_ResetCache a b : same_body a b → ResetCache a = ResetCache b.
Proof.
  intros (Hd & Hp & Hs). unfold ResetCache, with_signatureVerified, with_sha256sum.
  cbn. by rewrite Hd, Hp, Hs.
Qed.

Lemma checkSignatureWithCache_uncached nc key nc' b :
  checkSignatureWithCache nc key false = Ret (nc', b) → nc' = nc.
Proof.
  unfold checkSignatureWithCache. simpl. unfold_outcome.
  destruct (CheckSignature nc key); by intros [= <- _].
Qed.

Lemma checkSignatureWithCache_true nc key useCache nc' :
  cache_sound nc →
  checkSignatureWithCache nc key useCache = Ret (nc', true) →
  CheckSignature nc key = Ret true.
Proof.
  intros [_ Hsig]. unfold checkSignatureWithCache. unfold_outcome.
  destruct useCache; simpl.
  - destruct (signatureVerified nc) as [v|] eqn:Hv.
    + intros [= _ Heq]. unfold bytes_Equal in Heq.
      apply bool_decide_eq_true in Heq as <-. by apply Hsig.
    + destruct (CheckSignature nc key) as [[]|]; [done| |done]. by intros [= _].
  - destruct (CheckSignature nc key) as [[]|]; [done| |done]. by intros [= _].
Qed.

(** X6.  Verification never alters what is signed: the certificate a call
    of [verify] leaves differs from the one it was given at most in its two
    caches, and not at all when the caches are not in use; so [ResetCache]
    after any call gives what [ResetCache] gave before it. *)
Theorem verify_keeps_body nc t ncp useCache nc' r :
  verify nc t ncp useCache = Ret (nc', r) →
  same_body nc' nc
  ∧ (useCache = false → nc' = nc)
  ∧ ResetCache nc' = ResetCache nc.
Proof.
  unfold verify. unfold_outcome. intros Hrun.
  destruct (isBlocklistedWithCache ncp nc useCache) as [[c blocked]|] eqn:Hb; [|done].
  pose proof (isBlocklistedWithCache_body _ _ _ _ _ Hb) as [Hbody _].
  assert (Hun : useCache = false → c = nc).
  { intros ->. by apply isBlocklisted_uncached in Hb. }
  assert (Hgoal : same_body nc' nc ∧ (useCache = false → nc' = nc)).
  { destruct blocked; [by simplify_eq|].
    destruct (GetCAForCert ncp c) as [signer|e]; [|by simplify_eq].
    destruct (Expired signer t); [by simplify_eq|].
    destruct (Expired c t); [by simplify_eq|].
    destruct (checkSignatureWithCache c (PublicKey (Details signer)) useCache)
      as [[c' ok]|] eqn:Hcs; [|done].
    pose proof (checkSignatureWithCache_body _ _ _ _ _ Hcs) as [Hbody' _].
    assert (Hc' : same_body c' nc ∧ (useCache = false → c' = nc)).
    { split; [by eapply same_body_trans|].
      intros ->. apply checkSignatureWithCache_uncached in Hcs. rewrite Hcs. by apply Hun. }
    destruct ok; simpl in Hrun; [|by simplify_eq].
    destruct (CheckRootConstrains c' signer) as [[e|]|]; [| |done]; by simplify_eq. }
  destruct Hgoal as [Hsame Heq]. split; [exact Hsame|]. split; [exact Heq|].
  by apply same_body_ResetCache.
Qed.

(** X7.  Whatever [verify] accepts is good in every respect it names: with
    or without the caches, on a certificate whose caches hold only what was
    computed from it, an answer [(true, _)] carries no error, and then the
    fingerprint is not blocklisted, the pool has a signer for the issuer,
    neither signer nor certificate is expired at the time given, the
    signature checks under the signer's key, and the root constraints
    hold. *)
Theorem verify_accepts_soundly nc t ncp useCache nc' e :
  cache_sound nc →
  verify nc t ncp useCache = Ret (nc', (true, e)) →
  e = None
  ∧ ∃ fp signer,
      Sha256Sum nc = Ret (Ok fp) ∧ (fp ∉ certBlocklist ncp)
      ∧ GetCAForCert ncp nc = Ok signer
      ∧ Expired signer t = false
      ∧ Expired nc t = false
      ∧ CheckSignature nc (PublicKey (Details signer)) = Ret true
      ∧ CheckRootConstrains nc signer = Ret None.
Proof.
  intros Hsound. unfold verify. unfold_outcome. intros Hrun.
  destruct (isBlocklistedWithCache ncp nc useCache) as [[c blocked]|] eqn:Hb; [|done].
  pose proof (isBlocklistedWithCache_body _ _ _ _ _ Hb) as [Hbody _].
  assert (Hfp : cache_sound c
                ∧ (blocked = false →
                   ∃ fp, Sha256Sum nc = Ret (Ok fp) ∧ (fp ∉ certBlocklist ncp))).
  { unfold isBlocklistedWithCache in Hb. unfold_outcome.
    destruct (sha256SumWithCache nc useCache) as [[c0 h]|] eqn:Hs; [|done].
    destruct (sha256SumWithCache_sound _ _ _ _ Hsound Hs) as [Hsound' Hsum].
    destruct h as [fp|err]; injection Hb as <- <-; (split; [done|]); [|done].
    intros Hnot. exists fp. split; [done|]. by apply bool_decide_eq_false in Hnot. }
  destruct Hfp as [Hc Hfp].
  destruct blocked; [by simplify_eq|].
  destruct (Hfp eq_refl) as (fp & Hsum & Hnot).
  destruct (GetCAForCert ncp c) as [signer|err] eqn:Hca; [|by simplify_eq].
  destruct (Expired signer t) eqn:Hes; [by simplify_eq|].
  destruct (Expired c t) eqn:Hec; [by simplify_eq|].
  destruct (checkSignatureWithCache c (PublicKey (Details signer)) useCache)
    as [[c' ok]|] eqn:Hcs; [|done].
  pose proof (checkSignatureWithCache_body _ _ _ _ _ Hcs) as [Hbody' _].
  destruct ok; simpl in Hrun; [|by simplify_eq].
  apply checkSignatureWithCache_true in Hcs; [|done].
  destruct (CheckRootConstrains c' signer) as [[err|]|] eqn:Hroot; [by simplify_eq| |done].
  injection Hrun as _ <-. split; [done|]. exists fp, signer.
  split; [done|]. split; [done|].
  split; [by rewrite <- (GetCAForCert_body ncp c nc Hbody)|].
  split; [done|].
  split; [by rewrite <- (Expired_body c nc t Hbody)|].
  split; [by rewrite <- (CheckSignature_body c nc _ Hbody)|].
  rewrite <- (CheckRootConstrains_body c nc signer Hbody).
  by rewrite <- (CheckRootConstrains_body c' c signer Hbody').
Qed.

Lemma isBlocklisted_cached_again ncp nc c blocked :
  isBlocklistedWithCache ncp nc true = Ret (c, blocked) →
  isBlocklistedWithCache ncp c true = Ret (c, blocked)
  ∧ (blocked = false → ∃ s, sha256sum c = Some s ∧ (s ∉ certBlocklist ncp)).
Proof.
  unfold isBlocklistedWithCache, sha256SumWithCache. simpl. unfold_outcome.
  destruct (sha256sum nc) as [s|] eqn:Hs.
  - intros [= <- <-]. rewrite Hs. split; [done|].
    intros Hnot. exists s. split; [done|]. by apply bool_decide_eq_false in Hnot.
  - destruct (Sha256Sum nc) as [[s|err]|] eqn:Hsum; [| |done].
    + intros [= <- <-]. simpl. split; [done|].
      intros Hnot. exists s. split; [done|]. by apply bool_decide_eq_false in Hnot.
    + intros [= <- <-]. rewrite Hs, Hsum. by split.
Qed.

Lemma checkSignatureWithCache_again nc key c ok :
  checkSignatureWithCache nc key true = Ret (c, ok) →
  checkSignatureWithCache c key true = Ret (c, ok).
Proof.
  unfold checkSignatureWithCache. simpl. unfold_outcome.
  destruct (signatureVerified nc) as [v|] eqn:Hv.
  - intros [= <- <-]. by rewrite Hv.
  - destruct (CheckSignature nc key) as [[]|] eqn:Hc; [| |done].
    + intros [= <- <-]. simpl. unfold bytes_Equal. by rewrite bool_decide_eq_true_2.
    + intros [= <- <-]. by rewrite Hv, Hc.
Qed.

(** X8.  [VerifyWithCache] settles after one call: called again at the same
    time and against the same pool on the certificate it has left, it gives
    the same answer and leaves the caches as they are. *)
Theorem VerifyWithCache_idempotent nc t ncp nc' r :
  VerifyWithCache nc t ncp = Ret (nc', r) →
  VerifyWithCache nc' t ncp = Ret (nc', r).
Proof.
  unfold VerifyWithCache, verify. unfold_outcome. intros Hrun.
  destruct (isBlocklistedWithCache ncp nc true) as [[c blocked]|] eqn:Hb; [|done].
  destruct (isBlocklisted_cached_again _ _ _ _ Hb) as [Hagain Hcached].
  destruct blocked.
  { injection Hrun as <- <-. by rewrite Hagain. }
  destruct (Hcached eq_refl) as (s & Hs & Hnot).
  assert (Hearly : nc' = c → isBlocklistedWithCache ncp nc' true = Ret (c, false))
    by (intros ->; exact Hagain).
  destruct (GetCAForCert ncp c) as [signer|err] eqn:Hca.
  2: { injection Hrun as <- <-. by rewrite Hagain, Hca. }
  destruct (Expired signer t) eqn:Hes.
  { injection Hrun as <- <-. by rewrite Hagain, Hca, Hes. }
  destruct (Expired c t) eqn:Hec.
  { injection Hrun as <- <-. by rewrite Hagain, Hca, Hes, Hec. }
  destruct (checkSignatureWithCache c (PublicKey (Details signer)) true)
    as [[c' ok]|] eqn:Hcs; [|done].
  pose proof (checkSignatureWithCache_body _ _ _ _ _ Hcs) as [Hbody' Hsha'].
  pose proof (checkSignatureWithCache_again _ _ _ _ Hcs) as Hcs'.
  assert (Hb' : isBlocklistedWithCache ncp c' true = Ret (c', false)).
  { unfold isBlocklistedWithCache, sha256SumWithCache. simpl. unfold_outcome.
    rewrite Hsha', Hs. by rewrite bool_decide_eq_false_2. }
  assert (Hrest : nc' = c' →
            isBlocklistedWithCache ncp nc' true = Ret (c', false)
            ∧ GetCAForCert ncp nc' = Ok signer
            ∧ Expired nc' t = false
            ∧ checkSignatureWithCache nc' (PublicKey (Details signer)) true = Ret (c', ok)).
  { intros ->. split; [exact Hb'|].
    split; [by rewrite (GetCAForCert_body ncp c' c Hbody')|].
    split; [by rewrite (Expired_body c' c t Hbody')|exact Hcs']. }
  destruct ok; simpl in Hrun.
  - destruct (CheckRootConstrains c' signer) as [[err|]|] eqn:Hroot; [| |done];
      injection Hrun as <- <-; destruct (Hrest eq_refl) as (-> & -> & -> & ->);
      rewrite Hes; simpl; by rewrite Hroot.
  - injection Hrun as <- <-. destruct (Hrest eq_refl) as (-> & -> & -> & ->).
    by rewrite Hes.
Qed.

End Verification.

(** *** Addresses and masks too short to marshal *)

Lemma BigEndian_Uint32_outcome (b : bytes) :
  ((4 <= length b)%nat → ∃ n, BigEndian_Uint32 b = Ret n)
  ∧ ((length b < 4)%nat → BigEndian_Uint32 b = Panic "index out of range").
Proof.
  destruct b as [|b0 [|b1 [|b2 [|b3 rest]]]]; cbn [length BigEndian_Uint32];
    split; intros Hlen; try lia; try reflexivity; by eexists.
Qed.

Lemma ip2int_outcome (ip : bytes) :
  ((4 <= length ip)%nat → ∃ n, ip2int ip = Ret n)
  ∧ ((length ip < 4)%nat → ip2int ip = Panic "index out of range").
Proof.
  unfold ip2int. destruct (Nat.eqb_spec (length ip) 16) as [H16|Hne].
  - split; [|lia]. intros _. apply BigEndian_Uint32_outcome.
    rewrite length_take, length_drop. lia.
  - apply BigEndian_Uint32_outcome.
Qed.

Lemma rawNets_outcome (l : list IPNet) :
  (¬ Exists short_net l → ∃ raw, rawNets l = Ret raw)
  ∧ (Exists short_net l → rawNets l = Panic "index out of range").
Proof.
  induction l as [|net l [IHok IHbad]].
  - split; [by exists []|]. intros Hex. inversion Hex.
  - cbn [rawNets]. unfold_outcome.
    destruct (decide (short_net net)) as [Hshort|Hlong].
    + split; [intros Hno; destruct Hno; by left|]. intros _.
      destruct Hshort as [Hip|Hm].
      * by rewrite (proj2 (ip2int_outcome _) Hip).
      * destruct (le_lt_dec 4 (length (IP net))) as [Hip|Hip].
        -- destruct (proj1 (ip2int_outcome _) Hip) as [a ->].
           by rewrite (proj2 (ip2int_outcome _) Hm).
        -- by rewrite (proj2 (ip2int_outcome _) Hip).
    + unfold short_net in Hlong.
      destruct (proj1 (ip2int_outcome (IP net)) ltac:(lia)) as [a ->].
      destruct (proj1 (ip2int_outcome (Mask net)) ltac:(lia)) as [m ->].
      split.
      * intros Hno. destruct IHok as [raw ->]; [|by eexists].
        intros Hex. apply Hno. by right.
      * intros Hex. apply Exists_cons in Hex as [Hhd|Htl]; [done|].
        by rewrite (IHbad Htl).
Qed.

(** X9.  [getRawDetails] panics exactly when an address or a mask among the
    ips and subnets of the certificate has fewer than four bytes, as a nil
    mask has; in every other case it returns. *)
Theorem getRawDetails_panics_iff nc msg :
  getRawDetails nc = Panic msg
  ↔ msg = "index out of range"%string
    ∧ Exists short_net (Ips (Details nc) ++ Subnets (Details nc)).
Proof.
  unfold getRawDetails. unfold_outcome.
  destruct (rawNets_outcome (Ips (Details nc))) as [Hiok Hibad].
  destruct (rawNets_outcome (Subnets (Details nc))) as [Hsok Hsbad].
  rewrite Exists_app.
  destruct (decide (Exists short_net (Ips (Details nc)))) as [Hi|Hi].
  - rewrite (Hibad Hi). split; [intros [= <-]; by split; [|left]|].
    by intros [-> _].
  - destruct (Hiok Hi) as [ips ->].
    destruct (decide (Exists short_net (Subnets (Details nc)))) as [Hs|Hs].
    + rewrite (Hsbad Hs). split; [intros [= <-]; by split; [|right]|].
      by intros [-> _].
    + destruct (Hsok Hs) as [subnets ->]. split; [done|].
      intros [_ [?|?]]; done.
Qed.

Section ShortNets.
Context `{!GoLib}.

(** X10.  A certificate with an address or a mask of fewer than four bytes
    among its ips and subnets makes [Marshal], [Sha256Sum],
    [CheckSignature], [Verify] and, called with the curve of the
    certificate, [Sign] panic, whatever the key, the time and the pool. *)
Theorem short_net_panics nc rnd key t ncp :
  Exists short_net (Ips (Details nc) ++ Subnets (Details nc)) →
  Marshal nc = Panic "index out of range"
  ∧ Sha256Sum nc = Panic "index out of range"
  ∧ CheckSignature nc key = Panic "index out of range"
  ∧ Sign rnd nc (Curve (Details nc)) key = Panic "index out of range"
  ∧ Verify nc t ncp = Panic "index out of range".
Proof.
  intros Hshort.
  assert (Hraw : getRawDetails nc = Panic "index out of range").
  { unfold getRawDetails. unfold_outcome. apply Exists_app in Hshort.
    destruct (rawNets_outcome (Ips (Details nc))) as [Hiok Hibad].
    destruct (rawNets_outcome (Subnets (Details nc))) as [_ Hsbad].
    destruct (decide (Exists short_net (Ips (Details nc)))) as [Hi|Hi].
    - by rewrite (Hibad Hi).
    - destruct (Hiok Hi) as [ips ->]. destruct Hshort as [?|Hs]; [done|].
      by rewrite (Hsbad Hs). }
  assert (Hm : Marshal nc = Panic "index out of range")
    by (unfold Marshal; by rewrite Hraw).
  assert (Hsum : Sha256Sum nc = Panic "index out of range")
    by (unfold Sha256Sum; by rewrite Hm).
  split; [exact Hm|]. split; [exact Hsum|].
  split; [unfold CheckSignature; by rewrite Hraw|].
  split; [unfold Sign; rewrite Z.eqb_refl; cbn [negb]; by rewrite Hraw|].
  unfold Verify, verify, isBlocklistedWithCache, sha256SumWithCache. cbn [negb].
  by rewrite Hsum.
Qed.

End ShortNets.

(** *** Signing *)

Section Signing.
Context `{!GoLib}.

(** What a call of [Sign] that returns has done. *)
Lemma Sign_result rnd nc curve key nc' e :
  Sign rnd nc curve key = Ret (nc', e) →
  match e with
  | Some _ => nc' = nc
  | None =>
      curve = Curve (Details nc)
      ∧ ∃ rd b sig,
          getRawDetails nc = Ret rd ∧ proto_Marshal_Details rd = Ok b
          ∧ nc' = with_Signature nc sig
          ∧ ((curve = Curve_CURVE25519 ∧ length key = ed25519_PrivateKeySize
              ∧ sig = ed25519_Sign key b)
             ∨ (curve = Curve_P256
                ∧ ecdsa_P256_SignASN1 rnd key (sha256_Sum256 b) = Ok sig))
  end.
Proof.
  unfold Sign. unfold_outcome.
  destruct (Z.eqb_spec curve (Curve (Details nc))) as [Hc|Hc]; cbn [negb];
    [|by intros [= <- <-]].
  destruct (getRawDetails nc) as [rd|] eqn:Hrd; [|done].
  destruct (proto_Marshal_Details rd) as [b|err] eqn:Hb; [|by intros [= <- <-]].
  destruct (Z.eqb_spec curve Curve_CURVE25519) as [H25519|Hn25519].
  - destruct (Nat.eqb_spec (length key) ed25519_PrivateKeySize) as [Hlen|Hlen];
      cbn [negb]; [|done].
    intros [= <- <-]. split; [done|]. exists rd, b, (ed25519_Sign key b).
    repeat split; try done. by left.
  - destruct (Z.eqb_spec curve Curve_P256) as [Hp256|Hnp256]; [|by intros [= <- <-]].
    destruct (ecdsa_P256_SignASN1 rnd key (sha256_Sum256 b)) as [sig|err] eqn:Hsig;
      [|by intros [= <- <-]].
    intros [= <- <-]. split; [done|]. exists rd, b, sig.
    repeat split; try done. by right.
Qed.

(** X11.  [Sign] writes the signature and nothing else: details and
    [Pkcs11Backed] are as they were, and so are the two caches, which a new
    signature does not reset; when it returns an error the certificate is
    untouched. *)
Theorem Sign_changes_only_signature rnd nc curve key nc' e :
  Sign rnd nc curve key = Ret (nc', e) →
  Details nc' = Details nc
  ∧ Pkcs11Backed nc' = Pkcs11Backed nc
  ∧ sha256sum nc' = sha256sum nc
  ∧ signatureVerified nc' = signatureVerified nc
  ∧ (e ≠ None → nc' = nc).
Proof.
  intros Hrun. apply Sign_result in Hrun. destruct e as [err|].
  - subst nc'. by repeat split.
  - destruct Hrun as (_ & rd & b & sig & _ & _ & -> & _). by repeat split.
Qed.

(** X12.  What [Sign] signs is what [CheckSignature] checks: after a [Sign]
    that returned no error, [CheckSignature] with a public key accepts the
    certificate, provided the library verifies with that public key what it
    signs with the private key used (for Curve25519 a public key of 32
    bytes, for P-256 the signature made over the SHA-256 digest). *)
Theorem Sign_then_CheckSignature rnd nc curve key nc' pub :
  Sign rnd nc curve key = Ret (nc', None) →
  (curve = Curve_CURVE25519 →
   length pub = ed25519_PublicKeySize
   ∧ ∀ msg, ed25519_Verify pub msg (ed25519_Sign key msg) = true) →
  (curve = Curve_P256 →
   ∀ hashed sig, ecdsa_P256_SignASN1 rnd key hashed = Ok sig →
                 ecdsa_P256_VerifyASN1 pub hashed sig = Ret true) →
  CheckSignature nc' pub = Ret true.
Proof.
  intros Hrun H25519 Hp256. apply Sign_result in Hrun.
  destruct Hrun as (Hc & rd & b & sig & Hrd & Hb & -> & Hsig).
  unfold CheckSignature.
  change (getRawDetails (with_Signature nc sig)) with (getRawDetails nc).
  rewrite Hrd. unfold_outcome. rewrite Hb.
  change (Details (with_Signature nc sig)) with (Details nc).
  change (Signature (with_Signature nc sig)) with sig. rewrite <- Hc.
  destruct Hsig as [(-> & _ & ->)|(-> & Hsig)].
  - destruct (H25519 eq_refl) as [Hlen Hver]. cbn [Z.eqb Curve_CURVE25519].
    rewrite Hlen. cbn. by rewrite Hver.
  - cbn. by apply Hp256.
Qed.

End Signing.

(** *** Private keys *)

Lemma ed25519_PrivateKey_Public_64 key :
  length key = ed25519_PrivateKeySize →
  ed25519_PrivateKey_Public key = Ret (drop 32 key).
Proof.
  intros Hlen. unfold ed25519_PrivateKey_Public, ed25519_PrivateKeySize in *.
  rewrite Hlen. cbn [Nat.ltb Nat.leb]. f_equal.
  rewrite take_app_length'; [done|]. rewrite length_drop, Hlen. reflexivity.
Qed.

Section PrivateKeys.
Context `{!GoLib} `{!KeyLib}.

(** X13.  For a CA certificate on Curve25519 that is not PKCS#11-backed,
    [VerifyPrivateKey] returns, and returns no error exactly for the keys
    of 64 bytes whose second half is the public key of the certificate. *)
Theorem VerifyPrivateKey_ed25519_ca nc key :
  Pkcs11Backed nc = false →
  IsCA (Details nc) = true →
  Curve (Details nc) = Curve_CURVE25519 →
  ∃ r, VerifyPrivateKey nc Curve_CURVE25519 key = Ret r
       ∧ (r = None
          ↔ length key = ed25519_PrivateKeySize
            ∧ drop 32 key = PublicKey (Details nc)).
Proof.
  intros Hp Hca Hc. unfold VerifyPrivateKey. rewrite Hp, Hca, Hc. cbn [Z.eqb negb Curve_CURVE25519].
  destruct (Nat.eqb_spec (length key) ed25519_PrivateKeySize) as [Hlen|Hlen]; cbn [negb].
  - rewrite (ed25519_PrivateKey_Public_64 key Hlen). unfold_outcome.
    unfold bytes_Equal. case_bool_decide as Heq; cbn [negb].
    + exists None. by repeat split.
    + exists (Some ErrKeyMismatch). split; [done|]. split; [done|].
      intros [_ Hd]. by destruct Heq.
  - exists (Some ErrKeyNot64Bytes). split; [done|]. split; [done|]. by intros [? _].
Qed.

(** X14.  [VerifyPrivateKey] never panics, and for a PKCS#11-backed
    certificate it accepts every key on every curve without looking at
    either. *)
Theorem VerifyPrivateKey_total nc curve key :
  (∃ r, VerifyPrivateKey nc curve key = Ret r)
  ∧ (Pkcs11Backed nc = true → VerifyPrivateKey nc curve key = Ret None).
Proof.
  unfold VerifyPrivateKey. split; [|by intros ->].
  destruct (Pkcs11Backed nc); [by eexists|].
  destruct (negb (curve =? Curve (Details nc))); [by eexists|].
  destruct (IsCA (Details nc)).
  - destruct (curve =? Curve_CURVE25519).
    + destruct (Nat.eqb_spec (length key) ed25519_PrivateKeySize) as [Hlen|Hlen];
        cbn [negb]; [|by eexists].
      rewrite (ed25519_PrivateKey_Public_64 key Hlen). unfold_outcome.
      destruct (negb _); by eexists.
    + destruct (curve =? Curve_P256); [|by eexists].
      destruct (ecdh_P256_PublicKey key); [|by eexists].
      destruct (negb _); by eexists.
  - cbn zeta.
    destruct (curve =? Curve_CURVE25519).
    + destruct (curve25519_X25519_Basepoint key); [|by eexists].
      destruct (negb _); by eexists.
    + destruct (curve =? Curve_P256); [|by eexists].
      destruct (ecdh_P256_PublicKey key); [|by eexists].
      destruct (negb _); by eexists.
Qed.

(** X15.  A key [VerifyPrivateKey] accepts for a CA certificate that is not
    PKCS#11-backed is a key [Sign] does not panic on: whenever the details
    can be marshalled, [Sign] on the same curve with that key returns. *)
Theorem VerifyPrivateKey_guards_Sign nc curve key rnd rd :
  Pkcs11Backed nc = false →
  IsCA (Details nc) = true →
  VerifyPrivateKey nc curve key = Ret None →
  getRawDetails nc = Ret rd →
  ∃ r, Sign rnd nc curve key = Ret r.
Proof.
  intros Hp Hca Hv Hrd. unfold VerifyPrivateKey in Hv. rewrite Hp, Hca in Hv.
  unfold Sign. rewrite Hrd. unfold_outcome.
  destruct (negb (curve =? Curve (Details nc))); [by eexists|].
  destruct (proto_Marshal_Details rd); [|by eexists].
  destruct (curve =? Curve_CURVE25519).
  - destruct (Nat.eqb_spec (length key) ed25519_PrivateKeySize) as [Hlen|Hlen];
      cbn [negb] in *; [by eexists|done].
  - destruct (curve =? Curve_P256); [|by eexists].
    destruct (ecdsa_P256_SignASN1 _ _ _); by eexists.
Qed.

(** X16.  [SignPkcs11] signs only PKCS#11-backed certificates on P-256: when
    it returns no error the certificate is PKCS#11-backed, its curve and the
    curve asked for are P-256, the signature is what the client made of the
    marshalled details and nothing else has changed, and [CheckSignature]
    verifies that signature against the SHA-256 digest of the same bytes;
    when it returns an error the certificate is untouched. *)
Theorem SignPkcs11_only_backed_P256 nc curve client_SignASN1 nc' e :
  SignPkcs11 nc curve client_SignASN1 = Ret (nc', e) →
  match e with
  | Some _ => nc' = nc
  | None =>
      Pkcs11Backed nc = true
      ∧ curve = Curve_P256
      ∧ Curve (Details nc) = Curve_P256
      ∧ ∃ rd b sig,
          getRawDetails nc = Ret rd
          ∧ proto_Marshal_Details rd = Ok b
          ∧ client_SignASN1 b = Ok sig
          ∧ nc' = with_Signature nc sig
          ∧ ∀ pub, CheckSignature nc' pub
                   = ecdsa_P256_VerifyASN1 pub (sha256_Sum256 b) sig
  end.
Proof.
  unfold SignPkcs11. unfold_outcome.
  destruct (Pkcs11Backed nc); cbn [negb]; [|by intros [= <- <-]].
  destruct (Z.eqb_spec curve (Curve (Details nc))) as [Hc|Hc]; cbn [negb];
    [|by intros [= <- <-]].
  destruct (Z.eqb_spec curve Curve_P256) as [Hp|Hp]; cbn [negb];
    [|by intros [= <- <-]].
  destruct (getRawDetails nc) as [rd|] eqn:Hrd; [|done].
  destruct (proto_Marshal_Details rd) as [b|err] eqn:Hb; [|by intros [= <- <-]].
  destruct (client_SignASN1 b) as [sig|err] eqn:Hsig; [|by intros [= <- <-]].
  intros [= <- <-]. split; [done|]. split; [done|]. split; [congruence|].
  exists rd, b, sig. do 4 (split; [done|]).
  intros pub. unfold CheckSignature.
  change (getRawDetails (with_Signature nc sig)) with (getRawDetails nc).
  rewrite Hrd. unfold_outcome. rewrite Hb.
  change (Details (with_Signature nc sig)) with (Details nc).
  rewrite <- Hc, Hp. reflexivity.
Qed.

End PrivateKeys.

(** *** Copy *)

Section Copies.
Context `{!GoLib}.

Lemma Verify_body a b t ncp :
  same_body a b → snd <$> Verify a t ncp = snd <$> Verify b t ncp.
Proof.
  intros Hs. unfold Verify, verify, isBlocklistedWithCache, sha256SumWithCache,
    checkSignatureWithCache. cbn [negb]. unfold_outcome.
  rewrite (Sha256Sum_body a b Hs).
  destruct (Sha256Sum b) as [[s|err]|]; [| |done]; [|done].
  destruct (bool_decide (s ∈ certBlocklist ncp)); [done|].
  rewrite (GetCAForCert_body ncp a b Hs).
  destruct (GetCAForCert ncp b) as [signer|err]; [|done].
  destruct (Expired signer t); [done|].
  rewrite (Expired_body a b t Hs). destruct (Expired b t); [done|].
  rewrite (CheckSignature_body a b _ Hs).
  destruct (CheckSignature b (PublicKey (Details signer))) as [[]|]; [| |done]; [|done].
  cbn [negb]. rewrite (CheckRootConstrains_body a b signer Hs).
  by destruct (CheckRootConstrains b signer) as [[err|]|].
Qed.

(** X17.  The copy of a Curve25519 certificate that is not PKCS#11-backed
    has the details, the flag and the signature of the original, hence its
    fingerprint, and it passes and fails [CheckSignature] and [Verify] as
    the original does. *)
Theorem Copy_of_curve25519 nc :
  Curve (Details nc) = Curve_CURVE25519 →
  Pkcs11Backed nc = false →
  same_body (Copy nc) nc
  ∧ Sha256Sum (Copy nc) = Sha256Sum nc
  ∧ (∀ key, CheckSignature (Copy nc) key = CheckSignature nc key)
  ∧ (∀ t ncp, snd <$> Verify (Copy nc) t ncp = snd <$> Verify nc t ncp).
Proof.
  intros Hc Hp.
  assert (Hs : same_body (Copy nc) nc).
  { unfold same_body, Copy. cbn. rewrite !map_copyNet, Hp.
    destruct nc as [d p s c1 c2]. destruct d. cbn in *. by rewrite Hc. }
  split; [exact Hs|]. split; [by apply Sha256Sum_body|].
  split; [intros key; by apply CheckSignature_body|].
  intros t ncp. by apply Verify_body.
Qed.

End Copies.

(** *** The sample runs *)

Lemma Unmarshal_returns_canonical_witness :
  ∃ c, @UnmarshalNebulaCertificate testlib.lib testlib.leafBytes = Ok c
       ∧ roundtrip_valid c
       ∧ rebuilt c = c
       ∧ plain_masks (Ips (Details c))
       ∧ plain_masks (Subnets (Details c)).
Proof.
  assert (Hu : ∃ c, @UnmarshalNebulaCertificate testlib.lib testlib.leafBytes = Ok c)
    by (eexists; vm_compute; reflexivity).
  destruct Hu as [c Hu]. exists c. split; [exact Hu|].
  exact (@Unmarshal_returns_canonical testlib.lib _ _ Hu).
Defined.

Lemma getRawDetails_Unmarshal_witness :
  ∃ c rc,
    @UnmarshalNebulaCertificate testlib.lib testlib.leafBytes = Ok c
    ∧ @proto_Unmarshal testlib.lib testlib.leafBytes = Ok rc
    ∧ @Marshal testlib.lib c = Ret (@proto_Marshal testlib.lib rc).
Proof.
  eexists _, _. split; [vm_compute; reflexivity|]. split; [vm_compute; reflexivity|].
  eapply (@getRawDetails_Unmarshal testlib.lib testlib.leafBytes).
  - vm_compute. reflexivity.
  - vm_compute. reflexivity.
  - vm_compute. reflexivity.
  - repeat constructor.
  - repeat constructor.
Defined.

Lemma plain_masks_decide (nets : list IPNet) :
  forallb (λ n, negb (length (Mask n) =? 16)%nat) nets = true → plain_masks nets.
Proof.
  rewrite forallb_forall. intros Hall net Hin.
  specialize (Hall net (proj1 (list_elem_of_In _ _) Hin)).
  apply negb_true_iff, Nat.eqb_neq in Hall. exact Hall.
Qed.

Lemma cache_sound_cachedLeaf : @cache_sound testlib.lib testlib.cachedLeaf.
Proof.
  split.
  - intros s Hs. vm_compute in Hs. injection Hs as <-. vm_compute. reflexivity.
  - intros k Hk. vm_compute in Hk. injection Hk as <-. vm_compute. reflexivity.
Qed.

(** The sample leaf against the pool of its CA. *)
Lemma Verify_iff_root_constraints_witness :
  ∃ r, @Verify testlib.lib testlib.sampleLeaf (time_Unix 3000) testlib.samplePool
       = Ret (testlib.sampleLeaf, r)
       ∧ (r = (true, None) ↔ root_constraints testlib.sampleLeaf testlib.sampleCA)
       ∧ (∀ b e, r = (b, Some e) →
                 b = false ∧ violated_by e testlib.sampleLeaf testlib.sampleCA).
Proof.
  apply (@Verify_iff_root_constraints testlib.lib).
  - vm_compute. reflexivity.
  - vm_compute. reflexivity.
  - vm_compute. reflexivity.
  - vm_compute. reflexivity.
  - vm_compute. reflexivity.
  - apply plain_masks_decide. vm_compute. reflexivity.
  - apply plain_masks_decide. vm_compute. reflexivity.
Defined.

(** The first [VerifyWithCache] of the sample leaf fills both caches. *)
Lemma verify_keeps_body_witness :
  @verify testlib.lib testlib.sampleLeaf (time_Unix 3000) testlib.samplePool true
  = Ret (testlib.cachedLeaf, (true, None))
  ∧ same_body testlib.cachedLeaf testlib.sampleLeaf
  ∧ (true = false → testlib.cachedLeaf = testlib.sampleLeaf)
  ∧ ResetCache testlib.cachedLeaf = ResetCache testlib.sampleLeaf.
Proof.
  assert (Hrun : @verify testlib.lib testlib.sampleLeaf (time_Unix 3000)
                   testlib.samplePool true
                 = Ret (testlib.cachedLeaf, (true, None))) by (vm_compute; reflexivity).
  split; [exact Hrun|].
  exact (@verify_keeps_body testlib.lib _ _ _ _ _ _ Hrun).
Defined.

(** The cached leaf, verified through its caches. *)
Lemma verify_accepts_soundly_witness :
  ∃ fp signer,
    @Sha256Sum testlib.lib testlib.cachedLeaf = Ret (Ok fp)
    ∧ (fp ∉ certBlocklist testlib.samplePool)
    ∧ GetCAForCert testlib.samplePool testlib.cachedLeaf = Ok signer
    ∧ Expired signer (time_Unix 5000) = false
    ∧ Expired testlib.cachedLeaf (time_Unix 5000) = false
    ∧ @CheckSignature testlib.lib testlib.cachedLeaf (PublicKey (Details signer)) = Ret true
    ∧ CheckRootConstrains testlib.cachedLeaf signer = Ret None.
Proof.
  refine (proj2 (@verify_accepts_soundly testlib.lib testlib.cachedLeaf (time_Unix 5000)
                   testlib.samplePool true testlib.cachedLeaf None
                   cache_sound_cachedLeaf _)).
  vm_compute. reflexivity.
Defined.

Lemma VerifyWithCache_idempotent_witness :
  @VerifyWithCache testlib.lib testlib.cachedLeaf (time_Unix 3000) testlib.samplePool
  = Ret (testlib.cachedLeaf, (true, None)).
Proof.
  apply (@VerifyWithCache_idempotent testlib.lib testlib.sampleLeaf).
  vm_compute. reflexivity.
Defined.

Lemma short_net_panics_witness :
  @Marshal testlib.lib testlib.nilMaskLeaf = Panic "index out of range"
  ∧ @Sha256Sum testlib.lib testlib.nilMaskLeaf = Panic "index out of range"
  ∧ @CheckSignature testlib.lib testlib.nilMaskLeaf testlib.caPrivateKey
    = Panic "index out of range"
  ∧ @Sign testlib.lib [] testlib.nilMaskLeaf (Curve (Details testlib.nilMaskLeaf))
      testlib.caPrivateKey = Panic "index out of range"
  ∧ @Verify testlib.lib testlib.nilMaskLeaf (time_Unix 3000) testlib.samplePool
    = Panic "index out of range".
Proof.
  apply (@short_net_panics testlib.lib).
  apply Exists_cons_hd. right. cbn. lia.
Defined.

Lemma Sign_changes_only_signature_witness :
  @Sign testlib.lib [] (testlib.unsigned testlib.leafDetails) Curve_CURVE25519
    testlib.caPrivateKey = Ret (testlib.sampleLeaf, None)
  ∧ Details testlib.sampleLeaf = Details (testlib.unsigned testlib.leafDetails)
  ∧ Pkcs11Backed testlib.sampleLeaf = Pkcs11Backed (testlib.unsigned testlib.leafDetails)
  ∧ sha256sum testlib.sampleLeaf = sha256sum (testlib.unsigned testlib.leafDetails)
  ∧ signatureVerified testlib.sampleLeaf
    = signatureVerified (testlib.unsigned testlib.leafDetails)
  ∧ (@None error ≠ None → testlib.sampleLeaf = testlib.unsigned testlib.leafDetails).
Proof.
  assert (Hrun : @Sign testlib.lib [] (testlib.unsigned testlib.leafDetails)
                   Curve_CURVE25519 testlib.caPrivateKey
                 = Ret (testlib.sampleLeaf, None)) by (vm_compute; reflexivity).
  split; [exact Hrun|].
  exact (@Sign_changes_only_signature testlib.lib _ _ _ _ _ _ Hrun).
Defined.

Lemma ed25519_sample_pair msg :
  @ed25519_Verify testlib.lib testlib.caPublicKey msg
    (@ed25519_Sign testlib.lib testlib.caPrivateKey msg) = true.
Proof.
  cbv beta iota zeta delta [ed25519_Verify ed25519_Sign testlib.lib].
  replace (drop 32 testlib.caPrivateKey) with testlib.caPublicKey
    by (vm_compute; reflexivity).
  unfold bytes_Equal. by apply bool_decide_eq_true_2.
Qed.

Lemma Sign_then_CheckSignature_witness :
  @CheckSignature testlib.lib testlib.sampleLeaf testlib.caPublicKey = Ret true.
Proof.
  apply (@Sign_then_CheckSignature testlib.lib [] (testlib.unsigned testlib.leafDetails)
           Curve_CURVE25519 testlib.caPrivateKey).
  - vm_compute. reflexivity.
  - intros _. split; [reflexivity|]. exact ed25519_sample_pair.
  - intros Hc. discriminate Hc.
Defined.

Lemma VerifyPrivateKey_ed25519_ca_witness :
  ∃ r, @VerifyPrivateKey testlib.keys testlib.sampleCA Curve_CURVE25519 testlib.caPrivateKey
       = Ret r
       ∧ (r = None
          ↔ length testlib.caPrivateKey = ed25519_PrivateKeySize
            ∧ drop 32 testlib.caPrivateKey = PublicKey (Details testlib.sampleCA)).
Proof.
  apply (@VerifyPrivateKey_ed25519_ca testlib.keys); vm_compute; reflexivity.
Defined.

Lemma VerifyPrivateKey_guards_Sign_witness :
  ∃ r, @Sign testlib.lib [] testlib.sampleCA Curve_CURVE25519 testlib.caPrivateKey = Ret r.
Proof.
  eapply (@VerifyPrivateKey_guards_Sign testlib.lib testlib.keys);
    vm_compute; reflexivity.
Defined.

Lemma SignPkcs11_only_backed_P256_witness :
  ∃ nc',
    @SignPkcs11 testlib.lib testlib.tokenCert Curve_P256 testlib.tokenSignASN1
    = Ret (nc', None)
    ∧ Pkcs11Backed testlib.tokenCert = true
    ∧ Curve_P256 = Curve_P256
    ∧ Curve (Details testlib.tokenCert) = Curve_P256
    ∧ ∃ rd b sig,
        getRawDetails testlib.tokenCert = Ret rd
        ∧ @proto_Marshal_Details testlib.lib rd = Ok b
        ∧ testlib.tokenSignASN1 b = Ok sig
        ∧ nc' = with_Signature testlib.tokenCert sig
        ∧ ∀ pub, @CheckSignature testlib.lib nc' pub
                 = @ecdsa_P256_VerifyASN1 testlib.lib pub (@sha256_Sum256 testlib.lib b) sig.
Proof.
  assert (Hrun : ∃ nc', @SignPkcs11 testlib.lib testlib.tokenCert Curve_P256
                          testlib.tokenSignASN1 = Ret (nc', None))
    by (eexists; vm_compute; reflexivity).
  destruct Hrun as [nc' Hrun]. exists nc'. split; [exact Hrun|].
  exact (@SignPkcs11_only_backed_P256 testlib.lib _ _ _ _ None Hrun).
Defined.

Lemma Copy_of_curve25519_witness :
  same_body (Copy testlib.sampleLeaf) testlib.sampleLeaf
  ∧ @Sha256Sum testlib.lib (Copy testlib.sampleLeaf) = @Sha256Sum testlib.lib testlib.sampleLeaf
  ∧ (∀ key, @CheckSignature testlib.lib (Copy testlib.sampleLeaf) key
            = @CheckSignature testlib.lib testlib.sampleLeaf key)
  ∧ (∀ t ncp, snd <$> @Verify testlib.lib (Copy testlib.sampleLeaf) t ncp
              = snd <$> @Verify testlib.lib testlib.sampleLeaf t ncp).
Proof.
  apply (@Copy_of_curve25519 testlib.lib); vm_compute; reflexivity.
Defined.

End cert_theory.


(** ** The handshake manager *)

Module nebula_theory.
Import nebula nebula_spec.

Ltac unfold_outcome :=
  unfold mbind, outcome_bind, mret, outcome_ret, fmap, outcome_fmap in *.

(** *** CheckAndComplete *)

Lemma installInMain_no_error c hostinfo existing c' r e :
  Ret (installInMain c hostinfo existing) = Ret (c', (r, Some e)) → False.
Proof. unfold installInMain. intros [= _ _ ?]. Qed.

Lemma checkPendingHandshake_error c hostinfo existing overwrite c' r e :
  checkPendingHandshake c hostinfo existing overwrite = Ret (c', (r, Some e)) →
  c' = c ∧ e = ErrExistingHandshake ∧ overwrite = false
  ∧ r = Hosts (pendingHostMap c) !! vpnIp (deref c hostinfo).
Proof.
  unfold checkPendingHandshake. intros Heq.
  destruct (Hosts (pendingHostMap c) !! vpnIp (deref c hostinfo)) as [pendingHostInfo|].
  - destruct overwrite; simpl in Heq.
    + destruct (ConnectionState (deref c pendingHostInfo)); [|done].
      by apply installInMain_no_error in Heq.
    + by simplify_eq.
  - by apply installInMain_no_error in Heq.
Qed.

(** C2.  Whenever [CheckAndComplete] returns an error (one of
    [ErrAlreadySeen], [ErrExistingHostInfo], [ErrLocalIndexCollision],
    [ErrExistingHandshake]), the manager is exactly as it was: both host
    maps, and every [HostInfo] with its packet store. *)
Theorem CheckAndComplete_error_changes_nothing
    c hostinfo handshakePacket overwrite c' r e :
  CheckAndComplete c hostinfo handshakePacket overwrite = Ret (c', (r, Some e)) →
  c' = c
  ∧ pendingHostMap c' = pendingHostMap c
  ∧ mainHostMap c' = mainHostMap c
  ∧ heap c' = heap c.
Proof.
  intros Heq. assert (c' = c) as ->; [|done].
  unfold CheckAndComplete in Heq.
  destruct (checkExistingTunnel c (deref c hostinfo)
              (Hosts (mainHostMap c) !! vpnIp (deref c hostinfo)) handshakePacket);
    [by simplify_eq|].
  destruct (Indexes (mainHostMap c) !! localIndexId (deref c hostinfo));
    [by simplify_eq|].
  destruct (Indexes (pendingHostMap c) !! localIndexId (deref c hostinfo)) as [existingIndex|].
  - case_bool_decide; [by simplify_eq|].
    by apply checkPendingHandshake_error in Heq as (-> & _).
  - by apply checkPendingHandshake_error in Heq as (-> & _).
Qed.

(** The inbound handshake from 10.0.0.7 loses against the pending one when
    [overwrite] is false. *)
Lemma CheckAndComplete_error_changes_nothing_witness :
  ∃ c', CheckAndComplete testlib.sampleManager 4%positive 0%N false
        = Ret (c', (Some 1%positive, Some ErrExistingHandshake))
        ∧ c' = testlib.sampleManager.
Proof.
  eexists. split; [vm_compute; reflexivity|].
  refine (proj1 (CheckAndComplete_error_changes_nothing
                   testlib.sampleManager 4%positive 0%N false _ (Some 1%positive)
                   ErrExistingHandshake _)).
  vm_compute. reflexivity.
Defined.

(** Without an error the new [HostInfo] is installed in the three indices
    of the main table. *)
Lemma installInMain_installs c hostinfo existing :
  let c' := (installInMain c hostinfo existing).1 in
  Hosts (mainHostMap c') !! vpnIp (deref c hostinfo) = Some hostinfo
  ∧ Indexes (mainHostMap c') !! localIndexId (deref c hostinfo) = Some hostinfo
  ∧ RemoteIndexes (mainHostMap c') !! remoteIndexId (deref c hostinfo) = Some hostinfo.
Proof.
  unfold installInMain, addHostInfo, with_main, deref.
  destruct existing; cbn; by rewrite !lookup_insert_eq.
Qed.

(** With [overwrite] the same call succeeds and does change the tables. *)
Example CheckAndComplete_overwrite_installs :
  ∃ c', CheckAndComplete testlib.sampleManager 4%positive 0%N true = Ret (c', (None, None))
        ∧ Hosts (mainHostMap c') !! 167772167%N = Some 4%positive
        ∧ Hosts (pendingHostMap c') !! 167772167%N = None.
Proof. eexists. split; [vm_compute; reflexivity|]. split; reflexivity. Qed.

(** *** handleOutbound before the first packet is built *)




(** In the wheel of the specification a zero duration and a duration of
    one tick land in different slots. *)
Lemma wheel_slot_zero_vs_tick (tick wheelLen cursor : Z) :
  0 < tick → 1 < wheelLen → 0 <= cursor < wheelLen →
  wheel_slot tick wheelLen cursor 0 = cursor
  ∧ wheel_slot tick wheelLen cursor tick ≠ cursor.
Proof.
  intros Ht Hw Hc. unfold wheel_slot.
  replace ((0 + tick - 1) / tick) with 0
    by (symmetry; apply Z.div_small; lia).
  replace ((tick + tick - 1) / tick) with 1
    by (apply Z.div_unique with (r := tick - 1); lia).
  rewrite Z.add_0_r, Z.mod_small by lia. split; [reflexivity|].
  destruct (Z.eq_dec (cursor + 1) wheelLen) as [Heq|Hne].
  - rewrite Heq, Z.mod_same by lia. lia.
  - rewrite Z.mod_small by lia. lia.
Qed.

(** *** handleOutbound on a lighthouse trigger *)

Lemma writes_of_app l1 l2 : writes_of (l1 ++ l2) = writes_of l1 ++ writes_of l2.
Proof. unfold writes_of. by rewrite flat_map_app. Qed.

Lemma deref_store c p h q :
  deref (store c p h) q = if decide (p = q) then h else deref c q.
Proof.
  unfold deref, store, with_heap. simpl.
  destruct (decide (p = q)) as [->|Hne].
  - by rewrite lookup_total_insert_eq.
  - by rewrite lookup_total_insert_ne.
Qed.

Lemma sendToAll_effects pkt subtype to c :
  pkt !! 1%nat = Some subtype →
  ∃ c', sendToAll pkt to c = Ret c'
        ∧ heap c' = heap c
        ∧ OutboundHandshakeTimer c' = OutboundHandshakeTimer c
        ∧ config c' = config c
        ∧ effects c'
          = effects c ++ flat_map (λ addr, [MetricTx subtype; WriteTo pkt addr]) to.
Proof.
  intros Hsub. revert c. induction to as [|addr to IH]; intros c; simpl.
  - exists c. by rewrite app_nil_r.
  - rewrite Hsub.
    destruct (IH (emit (emit c (MetricTx subtype)) (WriteTo pkt addr)))
      as (c' & Hrun & Hheap & Htimer & Hcfg & Heff).
    exists c'. split; [exact Hrun|]. simpl in *.
    rewrite Heff, <- !app_assoc. by repeat split.
Qed.

Lemma writes_of_sends pkt subtype to :
  writes_of (flat_map (λ addr, [MetricTx subtype; WriteTo pkt addr]) to)
  = map (λ addr, (pkt, addr)) to.
Proof. induction to as [|addr to IH]; simpl; [done|]. by rewrite <- IH. Qed.

Section Relays.
Context `{!Env}.

Lemma quiet_refl c : quiet c c.
Proof. repeat split. exists []. by rewrite app_nil_r. Qed.

Lemma quiet_trans c1 c2 c3 : quiet c1 c2 → quiet c2 c3 → quiet c1 c3.
Proof.
  intros (Ht1 & Hc1 & n1 & He1 & Hw1) (Ht2 & Hc2 & n2 & He2 & Hw2).
  split; [congruence|]. split; [intros p; by rewrite Hc2|].
  exists (n1 ++ n2). rewrite He2, He1, <- app_assoc, writes_of_app, Hw1, Hw2. done.
Qed.

Lemma quiet_emit c e : writes_of [e] = [] → quiet c (emit c e).
Proof. intros Hw. repeat split. by exists [e]. Qed.

Lemma sendControl_quiet c relay m : quiet c (sendControl c relay m).
Proof.
  unfold sendControl. destruct (proto_Marshal_Control m).
  - by apply quiet_emit.
  - apply quiet_refl.
Qed.

Lemma AddRelay_quiet c relayHostInfo ip c' r :
  AddRelay c relayHostInfo ip = (c', r) → quiet c c'.
Proof.
  unfold AddRelay. destruct (generateRelayIndex (Relays (mainHostMap c))).
  - intros [= <- _]. split; [reflexivity|]. split.
    + intros p. unfold with_main, deref, store, with_heap. simpl.
      destruct (decide (relayHostInfo = p)) as [->|Hne].
      * by rewrite lookup_total_insert_eq.
      * by rewrite lookup_total_insert_ne.
    + exists []. by rewrite app_nil_r.
  - intros [= <- _]. apply quiet_refl.
Qed.

Lemma relayAttempt_quiet ip hostinfo c relay : quiet c (relayAttempt ip hostinfo c relay).
Proof.
  unfold relayAttempt.
  destruct ((relay =? ip)%N || (relay =? myVpnIp (lightHouse c))%N); [apply quiet_refl|].
  destruct (QueryVpnIp (mainHostMap c) relay) as [relayHostInfo|]; [|by apply quiet_emit].
  destruct (remote (deref c relayHostInfo)); [|by apply quiet_emit].
  destruct (relayState (deref c relayHostInfo) !! ip) as [existingRelay|].
  - destruct (State existingRelay).
    + apply sendControl_quiet.
    + by apply quiet_emit.
    + apply quiet_refl.
  - destruct (AddRelay c relayHostInfo ip) as [c' [idx err]] eqn:Hadd.
    eapply quiet_trans; [by eapply AddRelay_quiet|apply sendControl_quiet].
Qed.

Lemma relayLoop_quiet ip hostinfo relays c :
  quiet c (foldl (relayAttempt ip hostinfo) c relays).
Proof.
  revert c. induction relays as [|relay relays IH]; intros c; simpl.
  - apply quiet_refl.
  - eapply quiet_trans; [apply relayAttempt_quiet|apply IH].
Qed.

(** C8.  For a pending [HostInfo] that is ready (its first packet is built,
    header included), not complete and not timed out, a lighthouse-triggered
    [handleOutbound] does nothing at all when the counter is positive; when
    the counter is zero it hands [handshake_packet[0]] to the UDP socket once
    for each known remote, in order, sets the counter to 1 and makes no
    request to the wheel. *)
Theorem handleOutbound_lighthouse_triggered c ip p :
  QueryVpnIp (pendingHostMap c) ip = Some p →
  HandshakeComplete (deref c p) = false →
  HandshakeReady (deref c p) = true →
  (2 <= length (packet (deref c p) 0))%nat →
  HandshakeCounter (deref c p) < retries (config c) →
  (0 < HandshakeCounter (deref c p) → handleOutbound c ip true = Ret c)
  ∧ (HandshakeCounter (deref c p) = 0 →
     ∃ c' new,
       handleOutbound c ip true = Ret c'
       ∧ effects c' = effects c ++ new
       ∧ writes_of new
         = map (λ addr, (packet (deref c p) 0, addr)) (addrs (knownRemotes c ip p))
       ∧ HandshakeCounter (deref c' p) = 1
       ∧ OutboundHandshakeTimer c' = OutboundHandshakeTimer c).
Proof.
  intros Hq Hc Hr Hlen Hretries.
  assert (Hnot : (retries (config c) <=? HandshakeCounter (deref c p)) = false)
    by (apply Z.leb_gt; lia).
  split.
  - intros Hpos. unfold handleOutbound. rewrite Hq. simpl.
    rewrite Hc, Hr, Hnot. simpl.
    by rewrite (proj2 (Z.ltb_lt 0 _) Hpos).
  - intros Hzero. unfold handleOutbound. rewrite Hq. simpl.
    rewrite Hc, Hr, Hnot. simpl. rewrite Hzero. simpl.
    (* the remotes are fetched if missing *)
    set (c1 := match remotes (deref c p) with
               | Some _ => c
               | None => store c p (set_remotes (deref c p)
                                      (Some (QueryCache (lightHouse c) ip)))
               end).
    assert (Hrl : default {| addrs := []; relays := [] |} (remotes (deref c1 p))
                  = knownRemotes c ip p).
    { unfold c1, knownRemotes. destruct (remotes (deref c p)) as [rl|] eqn:Hrem.
      - by rewrite Hrem.
      - rewrite deref_store. by destruct (decide (p = p)). }
    assert (H1 : packet (deref c1 p) 0 = packet (deref c p) 0
                 ∧ HandshakeCounter (deref c1 p) = 0
                 ∧ effects c1 = effects c
                 ∧ OutboundHandshakeTimer c1 = OutboundHandshakeTimer c).
    { unfold c1. destruct (remotes (deref c p)); [done|].
      rewrite deref_store. destruct (decide (p = p)); [|done]. by repeat split. }
    destruct H1 as (Hpkt & Hcnt1 & Heff1 & Htim1).
    rewrite Hrl. clearbody c1.
    set (rl := knownRemotes c ip p) in *.
    (* the lighthouse is asked again when at most one remote is known *)
    set (c2 := if (length (addrs rl) <=? 1)%nat then emit c1 (QueryServer ip) else c1).
    assert (H2 : heap c2 = heap c1
                 ∧ OutboundHandshakeTimer c2 = OutboundHandshakeTimer c1
                 ∧ ∃ n2, effects c2 = effects c1 ++ n2 ∧ writes_of n2 = []).
    { unfold c2. destruct (length (addrs rl) <=? 1)%nat.
      - repeat split. by exists [QueryServer ip].
      - repeat split. exists []. by rewrite app_nil_r. }
    destruct H2 as (Hheap2 & Htim2 & n2 & Heff2 & Hw2).
    assert (Hd2 : ∀ q, deref c2 q = deref c1 q) by (intros q; unfold deref; by rewrite Hheap2).
    clearbody c2. rewrite Hd2, Hpkt.
    (* the packet goes to every remote *)
    destruct (packet (deref c p) 0 !! 1%nat) as [subtype|] eqn:Hsub.
    2: { apply lookup_ge_None in Hsub. lia. }
    destruct (sendToAll_effects _ subtype (addrs rl) c2 Hsub)
      as (c3 & Hrun & Hheap3 & Htim3 & Hcfg3 & Heff3).
    rewrite Hrun. unfold_outcome.
    (* the relays are tried *)
    set (c4 := if useRelays (config c3)
               then foldl (relayAttempt ip p) c3 (relays rl) else c3).
    assert (H4 : quiet c3 c4).
    { unfold c4. destruct (useRelays (config c3)); [apply relayLoop_quiet|apply quiet_refl]. }
    destruct H4 as (Htim4 & Hcnt4 & n4 & Heff4 & Hw4).
    clearbody c4.
    eexists _, _. split; [reflexivity|].
    assert (Hcnt : HandshakeCounter (deref c4 p) = 0).
    { rewrite Hcnt4. unfold deref. rewrite Hheap3. fold (deref c2 p). by rewrite Hd2. }
    split; [|split; [|split]].
    + simpl. rewrite Heff4, Heff3, Heff2, Heff1, <- !app_assoc. reflexivity.
    + rewrite !writes_of_app, Hw2, Hw4, writes_of_sends, app_nil_r. reflexivity.
    + rewrite deref_store. destruct (decide (p = p)); [|done].
      simpl. rewrite Hcnt. reflexivity.
    + simpl. congruence.
Qed.

End Relays.

(** The untried handshake to 10.0.0.9 is sent to both remotes; the
    handshake to 10.0.0.11, tried twice, is left alone. *)
Lemma handleOutbound_lighthouse_triggered_witness :
  handleOutbound testlib.sampleManager 167772171%N true = Ret testlib.sampleManager
  ∧ ∃ c' new,
      handleOutbound testlib.sampleManager 167772169%N true = Ret c'
      ∧ effects c' = new
      ∧ writes_of new
        = [(testlib.stage1Header, testlib.addr1); (testlib.stage1Header, testlib.addr2)]
      ∧ HandshakeCounter (deref c' 2%positive) = 1
      ∧ OutboundHandshakeTimer c' = [].
Proof.
  split.
  - refine (proj1 (@handleOutbound_lighthouse_triggered testlib.env testlib.sampleManager
                     167772171%N 3%positive _ _ _ _ _) _);
      vm_compute; try reflexivity; lia.
  - destruct (proj2 (@handleOutbound_lighthouse_triggered testlib.env testlib.sampleManager
                       167772169%N 2%positive
                       ltac:(vm_compute; reflexivity) ltac:(vm_compute; reflexivity)
                       ltac:(vm_compute; reflexivity) ltac:(vm_compute; lia)
                       ltac:(vm_compute; reflexivity))
                ltac:(vm_compute; reflexivity))
      as (c' & new & Hrun & Heff & Hw & Hcnt & Htim).
    exists c', new. repeat split; assumption.
Defined.

(** *** The effects of an attempt through relays *)

Lemma same_handshake_refl h : same_handshake h h.
Proof. by repeat split. Qed.

Lemma same_handshake_trans h1 h2 h3 :
  same_handshake h1 h2 → same_handshake h2 h3 → same_handshake h1 h3.
Proof.
  unfold same_handshake.
  intros (?&?&?&?&?&?&?&?) (?&?&?&?&?&?&?&?). repeat split; congruence.
Qed.

Section Attempts.
Context `{!Env}.

Lemma relay_frame_refl c : relay_frame c c.
Proof. repeat split. Qed.

Lemma relay_frame_trans c1 c2 c3 : relay_frame c1 c2 → relay_frame c2 c3 → relay_frame c1 c3.
Proof.
  intros (?&?&?&?&?&?&Hq1) (?&?&?&?&?&?&Hq2).
  repeat split; try congruence;
    destruct (Hq1 q) as (?&?&?&?&?&?&?&?), (Hq2 q) as (?&?&?&?&?&?&?&?); congruence.
Qed.

Lemma relay_frame_emit c e : relay_frame c (emit c e).
Proof. repeat split. Qed.

Lemma sendControl_frame c relay m : relay_frame c (sendControl c relay m).
Proof.
  unfold sendControl. destruct (proto_Marshal_Control m);
    [apply relay_frame_emit|apply relay_frame_refl].
Qed.

Lemma AddRelay_frame c relayHostInfo ip c' r :
  AddRelay c relayHostInfo ip = (c', r) → relay_frame c c'.
Proof.
  unfold AddRelay. destruct (generateRelayIndex (Relays (mainHostMap c))).
  - intros [= <- _]. do 6 (split; [reflexivity|]). intros q.
    unfold deref, with_main, store, with_heap. cbn [heap].
    destruct (decide (relayHostInfo = q)) as [->|Hne].
    + rewrite lookup_total_insert_eq. by repeat split.
    + rewrite lookup_total_insert_ne by done. by repeat split.
  - intros [= <- _]. apply relay_frame_refl.
Qed.

Lemma relayAttempt_frame ip hostinfo c relay : relay_frame c (relayAttempt ip hostinfo c relay).
Proof.
  unfold relayAttempt.
  destruct ((relay =? ip)%N || (relay =? myVpnIp (lightHouse c))%N); [apply relay_frame_refl|].
  destruct (QueryVpnIp (mainHostMap c) relay) as [relayHostInfo|]; [|apply relay_frame_emit].
  destruct (remote (deref c relayHostInfo)); [|apply relay_frame_emit].
  destruct (relayState (deref c relayHostInfo) !! ip) as [existingRelay|].
  - destruct (State existingRelay).
    + apply sendControl_frame.
    + apply relay_frame_emit.
    + apply relay_frame_refl.
  - destruct (AddRelay c relayHostInfo ip) as [c' [idx err]] eqn:Hadd.
    eapply relay_frame_trans; [by eapply AddRelay_frame|apply sendControl_frame].
Qed.

Lemma relayLoop_frame ip hostinfo relays c :
  relay_frame c (foldl (relayAttempt ip hostinfo) c relays).
Proof.
  revert c. induction relays as [|relay relays IH]; intros c; simpl.
  - apply relay_frame_refl.
  - eapply relay_frame_trans; [apply relayAttempt_frame|apply IH].
Qed.

End Attempts.

(** *** handleOutbound: the transmission *)

Lemma sendToAll_sends pkt to c :
  (to ≠ [] → (2 <= length pkt)%nat) →
  ∃ c' new, sendToAll pkt to c = Ret c'
        ∧ heap c' = heap c
        ∧ pendingHostMap c' = pendingHostMap c
        ∧ mainHostMap c' = mainHostMap c
        ∧ lightHouse c' = lightHouse c
        ∧ OutboundHandshakeTimer c' = OutboundHandshakeTimer c
        ∧ config c' = config c
        ∧ effects c' = effects c ++ new
        ∧ writes_of new = map (λ addr, (pkt, addr)) to.
Proof.
  revert c. induction to as [|addr to IH]; intros c Hlen.
  - exists c, []. simpl. rewrite app_nil_r. by repeat split.
  - assert (Hl : (2 <= length pkt)%nat) by (by apply Hlen).
    destruct (pkt !! 1%nat) as [subtype|] eqn:Hsub.
    2: { apply lookup_ge_None in Hsub. lia. }
    destruct (IH (emit (emit c (MetricTx subtype)) (WriteTo pkt addr)) (λ _, Hl))
      as (c' & new & Hrun & Hheap & Hpend & Hmain & Hlh & Htim & Hcfg & Heff & Hw).
    exists c', ([MetricTx subtype; WriteTo pkt addr] ++ new).
    simpl. rewrite Hsub. split; [exact Hrun|].
    simpl in *. rewrite Heff, <- !app_assoc. repeat split; try assumption.
    by rewrite Hw.
Qed.

Lemma sendToAll_panics pkt to c :
  to ≠ [] → (length pkt < 2)%nat → sendToAll pkt to c = Panic "index out of range".
Proof.
  intros Hto Hlen. destruct to as [|addr to]; [done|]. simpl.
  destruct (pkt !! 1%nat) eqn:Hsub; [|done].
  apply lookup_lt_Some in Hsub. lia.
Qed.

Section Transmission.
Context `{!Env}.

(** The branch of [handleOutbound] that transmits, up to the call of
    [sendToAll]. *)
Lemma handleOutbound_transmits c ip p lighthouseTriggered :
  QueryVpnIp (pendingHostMap c) ip = Some p →
  HandshakeComplete (deref c p) = false →
  HandshakeReady (deref c p) = true →
  HandshakeCounter (deref c p) < retries (config c) →
  (lighthouseTriggered = true → HandshakeCounter (deref c p) <= 0) →
  ∃ c2 n2,
    (∀ q, deref c2 q
          = deref (store c p (set_remotes (deref c p) (Some (knownRemotes c ip p)))) q)
    ∧ pendingHostMap c2 = pendingHostMap c
    ∧ mainHostMap c2 = mainHostMap c
    ∧ lightHouse c2 = lightHouse c
    ∧ config c2 = config c
    ∧ OutboundHandshakeTimer c2 = OutboundHandshakeTimer c
    ∧ effects c2 = effects c ++ n2 ∧ writes_of n2 = []
    ∧ handleOutbound c ip lighthouseTriggered
      = (c3 ← sendToAll (packet (deref c p) 0) (addrs (knownRemotes c ip p)) c2;
         let c4 := if useRelays (config c3)
                   then foldl (relayAttempt ip p) c3 (relays (knownRemotes c ip p))
                   else c3 in
         let c5 := store c4 p (set_HandshakeCounter (deref c4 p)
                                 (add64 (HandshakeCounter (deref c4 p)) 1)) in
         if negb lighthouseTriggered
         then Ret (timer_Add c5 ip (mul64 (tryInterval (config c5))
                                          (HandshakeCounter (deref c5 p))))
         else Ret c5).
Proof.
  intros Hq Hc Hr Hretries Hlt.
  assert (Hnot : (retries (config c) <=? HandshakeCounter (deref c p)) = false)
    by (apply Z.leb_gt; lia).
  assert (Htrig : lighthouseTriggered && (0 <? HandshakeCounter (deref c p)) = false).
  { destruct lighthouseTriggered; [|done]. simpl. apply Z.ltb_ge. by apply Hlt. }
  unfold handleOutbound. rewrite Hq. cbn zeta. rewrite Hc, Hr. cbn [negb].
  rewrite Hnot, Htrig.
  set (c1 := match remotes (deref c p) with
             | Some _ => c
             | None => store c p (set_remotes (deref c p)
                                    (Some (QueryCache (lightHouse c) ip)))
             end).
  assert (Hrl : default {| addrs := []; relays := [] |} (remotes (deref c1 p))
                = knownRemotes c ip p).
  { unfold c1, knownRemotes. destruct (remotes (deref c p)) as [rl|] eqn:Hrem.
    - by rewrite Hrem.
    - rewrite deref_store. by destruct (decide (p = p)). }
  assert (H1 : (∀ q, deref c1 q
                     = deref (store c p (set_remotes (deref c p)
                                           (Some (knownRemotes c ip p)))) q)
               ∧ pendingHostMap c1 = pendingHostMap c
               ∧ mainHostMap c1 = mainHostMap c
               ∧ lightHouse c1 = lightHouse c
               ∧ config c1 = config c
               ∧ effects c1 = effects c
               ∧ OutboundHandshakeTimer c1 = OutboundHandshakeTimer c).
  { unfold c1, knownRemotes. destruct (remotes (deref c p)) as [rl|] eqn:Hrem.
    - repeat split. intros q. rewrite deref_store.
      destruct (decide (p = q)) as [<-|]; [|done].
      destruct (deref c p). simpl in *. by rewrite Hrem.
    - by repeat split. }
  destruct H1 as (Hd1 & Hpend1 & Hmain1 & Hlh1 & Hcfg1 & Heff1 & Htim1).
  rewrite Hrl. clearbody c1.
  set (rl := knownRemotes c ip p) in *.
  set (c2 := if (length (addrs rl) <=? 1)%nat then emit c1 (QueryServer ip) else c1).
  assert (H2 : heap c2 = heap c1
               ∧ pendingHostMap c2 = pendingHostMap c1
               ∧ mainHostMap c2 = mainHostMap c1
               ∧ lightHouse c2 = lightHouse c1
               ∧ config c2 = config c1
               ∧ OutboundHandshakeTimer c2 = OutboundHandshakeTimer c1
               ∧ ∃ n2, effects c2 = effects c1 ++ n2 ∧ writes_of n2 = []).
  { unfold c2. destruct (length (addrs rl) <=? 1)%nat.
    - repeat split. by exists [QueryServer ip].
    - repeat split. exists []. by rewrite app_nil_r. }
  destruct H2 as (Hheap2 & Hpend2 & Hmain2 & Hlh2 & Hcfg2 & Htim2 & n2 & Heff2 & Hw2).
  assert (Hd2 : ∀ q, deref c2 q = deref c1 q) by (intros q; unfold deref; by rewrite Hheap2).
  clearbody c2. exists c2, n2.
  split; [intros q; by rewrite Hd2, Hd1|].
  do 5 (split; [congruence|]). split; [congruence|]. split; [done|].
  rewrite Hd2, Hd1, deref_store. destruct (decide (p = p)); [|done].
  reflexivity.
Qed.

(** One transmission: the packet to every known remote, the relays tried,
    the counter incremented, the wheel re-armed unless the lighthouse
    triggered the attempt. *)
Lemma handleOutbound_attempt c ip p lighthouseTriggered :
  QueryVpnIp (pendingHostMap c) ip = Some p →
  HandshakeComplete (deref c p) = false →
  HandshakeReady (deref c p) = true →
  HandshakeCounter (deref c p) < retries (config c) →
  (lighthouseTriggered = true → HandshakeCounter (deref c p) <= 0) →
  (addrs (knownRemotes c ip p) ≠ [] → (2 <= length (packet (deref c p) 0))%nat) →
  ∃ c' new,
    handleOutbound c ip lighthouseTriggered = Ret c'
    ∧ effects c' = effects c ++ new
    ∧ writes_of new
      = map (λ addr, (packet (deref c p) 0, addr)) (addrs (knownRemotes c ip p))
    ∧ OutboundHandshakeTimer c'
      = OutboundHandshakeTimer c
        ++ (if lighthouseTriggered then []
            else [(ip, mul64 (tryInterval (config c))
                             (add64 (HandshakeCounter (deref c p)) 1))])
    ∧ relay_frame (attempted c ip p) c'.
Proof.
  intros Hq Hc Hr Hretries Hlt Hlen.
  destruct (handleOutbound_transmits c ip p lighthouseTriggered Hq Hc Hr Hretries Hlt)
    as (c2 & n2 & Hd2 & Hpend2 & Hmain2 & Hlh2 & Hcfg2 & Htim2 & Heff2 & Hw2 & ->).
  destruct (sendToAll_sends (packet (deref c p) 0) (addrs (knownRemotes c ip p)) c2 Hlen)
    as (c3 & n3 & -> & Hheap3 & Hpend3 & Hmain3 & Hlh3 & Htim3 & Hcfg3 & Heff3 & Hw3).
  unfold_outcome.
  assert (Hd3 : ∀ q, deref c3 q = deref c2 q) by (intros q; unfold deref; by rewrite Hheap3).
  set (c4 := if useRelays (config c3)
             then foldl (relayAttempt ip p) c3 (relays (knownRemotes c ip p)) else c3).
  assert (H4 : quiet c3 c4 ∧ relay_frame c3 c4).
  { unfold c4. destruct (useRelays (config c3)).
    - split; [apply relayLoop_quiet|apply relayLoop_frame].
    - split; [apply quiet_refl|apply relay_frame_refl]. }
  destruct H4 as [(Htim4 & _ & n4 & Heff4 & Hw4)
                  (Hpend4 & Hh4 & Hi4 & Hr4 & Hcfg4 & Hlh4 & Hsame4)].
  clearbody c4. cbn zeta.
  set (c5 := store c4 p (set_HandshakeCounter (deref c4 p)
                           (add64 (HandshakeCounter (deref c4 p)) 1))).
  assert (Hp4 : same_handshake
                  (set_remotes (deref c p) (Some (knownRemotes c ip p))) (deref c4 p)).
  { specialize (Hsame4 p). rewrite Hd3, Hd2, deref_store in Hsame4.
    by destruct (decide (p = p)). }
  assert (Hcnt5 : HandshakeCounter (deref c5 p) = add64 (HandshakeCounter (deref c p)) 1).
  { unfold c5. rewrite deref_store. destruct (decide (p = p)); [|done].
    destruct Hp4 as (_ & _ & Hcnt & _). cbn. by rewrite Hcnt. }
  assert (Hframe : relay_frame (attempted c ip p) c5).
  { unfold attempted, c5. split; [cbn; congruence|].
    split; [cbn; congruence|]. split; [cbn; congruence|]. split; [cbn; congruence|].
    split; [cbn; congruence|]. split; [cbn; congruence|].
    intros q. rewrite !deref_store. destruct (decide (p = q)) as [<-|Hne].
    - destruct Hp4 as (?&?&?&?&?&?&?&?). unfold same_handshake. cbn in *. repeat split; congruence.
    - specialize (Hsame4 q). rewrite Hd3, Hd2, deref_store in Hsame4.
      by destruct (decide (p = q)). }
  assert (Hcfg5 : config c5 = config c) by (cbn; congruence).
  assert (Heff5 : effects c5 = effects c ++ (n2 ++ n3 ++ n4)).
  { cbn. rewrite Heff4, Heff3, Heff2, <- !app_assoc. reflexivity. }
  assert (Htim5 : OutboundHandshakeTimer c5 = OutboundHandshakeTimer c) by (cbn; congruence).
  assert (Hw : writes_of (n2 ++ n3 ++ n4)
               = map (λ addr, (packet (deref c p) 0, addr)) (addrs (knownRemotes c ip p))).
  { rewrite !writes_of_app, Hw2, Hw3, Hw4, app_nil_r. reflexivity. }
  clearbody c5.
  destruct lighthouseTriggered; cbn [negb].
  - exists c5, (n2 ++ n3 ++ n4). rewrite app_nil_r.
    split; [reflexivity|]. split; [exact Heff5|]. split; [exact Hw|].
    split; [exact Htim5|exact Hframe].
  - eexists _, (n2 ++ n3 ++ n4). split; [reflexivity|].
    split; [exact Heff5|]. split; [exact Hw|].
    split; [cbn; by rewrite Htim5, Hcfg5, Hcnt5|].
    exact Hframe.
Qed.

(** The transmission panics when there is a remote to write to and the
    packet is too short to hold the subtype the metric reads. *)
Lemma handleOutbound_attempt_panics c ip p lighthouseTriggered :
  QueryVpnIp (pendingHostMap c) ip = Some p →
  HandshakeComplete (deref c p) = false →
  HandshakeReady (deref c p) = true →
  HandshakeCounter (deref c p) < retries (config c) →
  (lighthouseTriggered = true → HandshakeCounter (deref c p) <= 0) →
  addrs (knownRemotes c ip p) ≠ [] →
  (length (packet (deref c p) 0) < 2)%nat →
  handleOutbound c ip lighthouseTriggered = Panic "index out of range".
Proof.
  intros Hq Hc Hr Hretries Hlt Hne Hlen.
  destruct (handleOutbound_transmits c ip p lighthouseTriggered Hq Hc Hr Hretries Hlt)
    as (c2 & n2 & _ & _ & _ & _ & _ & _ & _ & _ & ->).
  by rewrite sendToAll_panics.
Qed.

End Transmission.

(** *** handleOutbound: retries and teardown *)

Lemma backoff_S ip interval k n :
  backoff ip interval k (S n)
  = backoff ip interval k n ++ [(ip, interval * (k + Z.of_nat (S n)))].
Proof. unfold backoff. rewrite seq_S, map_app. reflexivity. Qed.

Lemma backoff_cons ip interval k n :
  backoff ip interval k (S n)
  = (ip, interval * (k + 1)) :: backoff ip interval (k + 1) n.
Proof.
  unfold backoff. cbn [seq map]. f_equal.
  rewrite <- seq_shift, map_map. apply map_ext. intros i. f_equal. lia.
Qed.

Lemma backoff_total ip interval n :
  foldr Z.add 0 (map snd (backoff ip interval 0 n)) = retryHorizon n interval.
Proof.
  induction n as [|n IH]; [reflexivity|].
  rewrite backoff_S, map_app, foldr_app. cbn [map snd foldr].
  change (retryHorizon (S n) interval)
    with (retryHorizon n interval + Z.of_nat (S n) * interval).
  rewrite <- IH. generalize (map snd (backoff ip interval 0 n)). intros l.
  induction l as [|x l IHl]; cbn [foldr]; lia.
Qed.

Section Retries.
Context `{!Env}.

Lemma handleOutbound_timed_out c ip p lighthouseTriggered :
  QueryVpnIp (pendingHostMap c) ip = Some p →
  HandshakeComplete (deref c p) = false →
  HandshakeReady (deref c p) = true →
  retries (config c) <= HandshakeCounter (deref c p) →
  handleOutbound c ip lighthouseTriggered
  = Ret (with_pending (emit c MetricTimedOut)
           (unlockedDeleteHostInfo (pendingHostMap c) (deref c p))).
Proof.
  intros Hq Hc Hr Hretries. unfold handleOutbound. rewrite Hq. cbn zeta.
  rewrite Hc, Hr. cbn [negb].
  by rewrite (proj2 (Z.leb_le _ _) Hretries).
Qed.

(** One tick of the wheel on a handshake that is not out of tries. *)
Lemma tick_step c ip p :
  transmittable c ip p →
  0 <= HandshakeCounter (deref c p) < retries (config c) →
  0 <= tryInterval (config c) →
  in_int64 (retries (config c)) →
  in_int64 (tryInterval (config c) * retries (config c)) →
  ∃ c' new,
    handleOutbound c ip false = Ret c'
    ∧ effects c' = effects c ++ new
    ∧ writes_of new
      = map (λ addr, (packet (deref c p) 0, addr)) (addrs (knownRemotes c ip p))
    ∧ HandshakeCounter (deref c' p) = HandshakeCounter (deref c p) + 1
    ∧ OutboundHandshakeTimer c'
      = OutboundHandshakeTimer c
        ++ [(ip, tryInterval (config c) * (HandshakeCounter (deref c p) + 1))]
    ∧ transmittable c' ip p
    ∧ config c' = config c
    ∧ pendingHostMap c' = pendingHostMap c
    ∧ packet (deref c' p) 0 = packet (deref c p) 0
    ∧ knownRemotes c' ip p = knownRemotes c ip p
    ∧ vpnIp (deref c' p) = vpnIp (deref c p)
    ∧ localIndexId (deref c' p) = localIndexId (deref c p)
    ∧ remoteIndexId (deref c' p) = remoteIndexId (deref c p).
Proof.
  intros (Hq & Hc & Hr & Hlen) Hcnt Hint Hret Hprod.
  destruct (handleOutbound_attempt c ip p false Hq Hc Hr ltac:(lia)
              ltac:(intros [=]) (λ _, Hlen))
    as (c' & new & Hrun & Heff & Hw & Htim & Hframe).
  destruct Hframe as (Hpend & _ & _ & _ & Hcfg & Hlh & Hsame).
  specialize (Hsame p). unfold attempted in Hsame.
  rewrite deref_store in Hsame. destruct (decide (p = p)); [|done].
  destruct Hsame as (Hrem' & Hr' & Hcnt' & Hc' & Hpkt' & Hip' & Hli' & Hri').
  cbn in Hrem', Hr', Hcnt', Hc', Hpkt', Hip', Hli', Hri', Hpend, Hcfg, Hlh.
  assert (Hadd : add64 (HandshakeCounter (deref c p)) 1 = HandshakeCounter (deref c p) + 1).
  { unfold add64. apply wrap64_id. unfold in_int64 in *. lia. }
  assert (Hmul : mul64 (tryInterval (config c)) (HandshakeCounter (deref c p) + 1)
                 = tryInterval (config c) * (HandshakeCounter (deref c p) + 1)).
  { unfold mul64. apply wrap64_id. unfold in_int64 in *. nia. }
  assert (Hp : packet (deref c' p) 0 = packet (deref c p) 0)
    by (unfold packet; by rewrite Hpkt').
  exists c', new. split; [exact Hrun|]. split; [exact Heff|]. split; [exact Hw|].
  split; [by rewrite Hcnt', Hadd|].
  split; [by rewrite Htim, Hadd, Hmul|].
  split.
  { split; [by rewrite Hpend|]. split; [by rewrite Hc'|]. split; [by rewrite Hr'|].
    by rewrite Hp. }
  split; [exact Hcfg|]. split; [exact Hpend|]. split; [exact Hp|].
  split; [unfold knownRemotes at 1; by rewrite Hrem'|].
  by repeat split.
Qed.

Lemma ticks_app n m c ip :
  ticks (n + m) c ip = (c' ← ticks n c ip; ticks m c' ip).
Proof.
  revert c. induction n as [|n IH]; intros c; [reflexivity|].
  cbn [Nat.add ticks]. unfold_outcome.
  destruct (handleOutbound c ip false) as [c1|msg]; [apply IH|reflexivity].
Qed.

Lemma ticks_backoff_step (n : nat) : ∀ c ip p,
  transmittable c ip p →
  0 <= HandshakeCounter (deref c p) →
  HandshakeCounter (deref c p) + Z.of_nat n <= retries (config c) →
  0 <= tryInterval (config c) →
  in_int64 (retries (config c)) →
  in_int64 (tryInterval (config c) * retries (config c)) →
  ∃ c' new,
    ticks n c ip = Ret c'
    ∧ effects c' = effects c ++ new
    ∧ writes_of new
      = concat (replicate n (map (λ addr, (packet (deref c p) 0, addr))
                               (addrs (knownRemotes c ip p))))
    ∧ HandshakeCounter (deref c' p) = HandshakeCounter (deref c p) + Z.of_nat n
    ∧ OutboundHandshakeTimer c'
      = OutboundHandshakeTimer c
        ++ backoff ip (tryInterval (config c)) (HandshakeCounter (deref c p)) n
    ∧ transmittable c' ip p
    ∧ config c' = config c
    ∧ pendingHostMap c' = pendingHostMap c
    ∧ vpnIp (deref c' p) = vpnIp (deref c p)
    ∧ localIndexId (deref c' p) = localIndexId (deref c p)
    ∧ remoteIndexId (deref c' p) = remoteIndexId (deref c p).
Proof.
  induction n as [|n IH]; intros c ip p Ht Hcnt Hle Hint Hret Hprod.
  - exists c, []. cbn [ticks replicate concat writes_of flat_map backoff seq map].
    rewrite !app_nil_r, Z.add_0_r. do 5 (split; [reflexivity|]).
    split; [exact Ht|]. by repeat split.
  - destruct (tick_step c ip p Ht ltac:(lia) Hint Hret Hprod)
      as (c1 & n1 & Hrun1 & Heff1 & Hw1 & Hcnt1 & Htim1 & Ht1 & Hcfg1 & Hpend1
          & Hpkt1 & Hrl1 & Hip1 & Hli1 & Hri1).
    destruct (IH c1 ip p Ht1 ltac:(lia) ltac:(rewrite Hcfg1; lia)
                ltac:(by rewrite Hcfg1) ltac:(by rewrite Hcfg1) ltac:(by rewrite Hcfg1))
      as (c' & new & Hrun & Heff & Hw & Hcnt' & Htim & Ht' & Hcfg & Hpend
          & Hip & Hli & Hri).
    exists c', (n1 ++ new). cbn [ticks]. rewrite Hrun1. unfold_outcome.
    split; [exact Hrun|].
    split; [by rewrite Heff, Heff1, app_assoc|].
    split; [rewrite writes_of_app, Hw1, Hw, Hpkt1, Hrl1; reflexivity|].
    split; [lia|].
    split.
    { rewrite Htim, Htim1, Hcfg1, Hcnt1, backoff_cons, <- app_assoc. reflexivity. }
    split; [exact Ht'|]. repeat split; congruence.
Qed.

End Retries.

Section Schedule.
Context `{!Env}.

(** X18.  A tick of the wheel on a pending handshake that is ready, not
    complete and not out of tries hands the stage-0 packet to the UDP socket
    once for each known remote, increments the counter by one and makes
    exactly one request to the wheel, [Add(vpn_ip, try_interval * counter)]
    with the counter already incremented: the backoff is linear. *)
Theorem handleOutbound_tick_backs_off c ip p :
  transmittable c ip p →
  0 <= HandshakeCounter (deref c p) < retries (config c) →
  0 <= tryInterval (config c) →
  in_int64 (retries (config c)) →
  in_int64 (tryInterval (config c) * retries (config c)) →
  ∃ c' new,
    handleOutbound c ip false = Ret c'
    ∧ effects c' = effects c ++ new
    ∧ writes_of new
      = map (λ addr, (packet (deref c p) 0, addr)) (addrs (knownRemotes c ip p))
    ∧ HandshakeCounter (deref c' p) = HandshakeCounter (deref c p) + 1
    ∧ OutboundHandshakeTimer c'
      = OutboundHandshakeTimer c
        ++ [(ip, tryInterval (config c) * (HandshakeCounter (deref c p) + 1))]
    ∧ pendingHostMap c' = pendingHostMap c
    ∧ transmittable c' ip p.
Proof.
  intros Ht Hcnt Hint Hret Hprod.
  destruct (tick_step c ip p Ht Hcnt Hint Hret Hprod)
    as (c' & new & Hrun & Heff & Hw & Hcnt' & Htim & Ht' & _ & Hpend & _).
  exists c', new. do 6 (split; [assumption|]). exact Ht'.
Qed.

(** X19.  [n] ticks in a row on a handshake with at least [n] tries left
    transmit [n] times, and the wheel receives the delays
    [try_interval * (k + 1)], ..., [try_interval * (k + n)] in this order,
    [k] being the counter at the start. *)
Theorem ticks_retry_schedule c ip p (n : nat) :
  transmittable c ip p →
  0 <= HandshakeCounter (deref c p) →
  HandshakeCounter (deref c p) + Z.of_nat n <= retries (config c) →
  0 <= tryInterval (config c) →
  in_int64 (retries (config c)) →
  in_int64 (tryInterval (config c) * retries (config c)) →
  ∃ c' new,
    ticks n c ip = Ret c'
    ∧ effects c' = effects c ++ new
    ∧ writes_of new
      = concat (replicate n (map (λ addr, (packet (deref c p) 0, addr))
                               (addrs (knownRemotes c ip p))))
    ∧ HandshakeCounter (deref c' p) = HandshakeCounter (deref c p) + Z.of_nat n
    ∧ OutboundHandshakeTimer c'
      = OutboundHandshakeTimer c
        ++ backoff ip (tryInterval (config c)) (HandshakeCounter (deref c p)) n
    ∧ transmittable c' ip p.
Proof.
  intros Ht Hcnt Hle Hint Hret Hprod.
  destruct (ticks_backoff_step n c ip p Ht Hcnt Hle Hint Hret Hprod)
    as (c' & new & Hrun & Heff & Hw & Hcnt' & Htim & Ht' & _).
  exists c', new. do 5 (split; [assumption|]). exact Ht'.
Qed.

(** X20.  A handshake that never completes is torn down by the tick that
    follows its last try: with [retries = R] and a counter of zero, [R + 1]
    ticks transmit exactly [R] times, the wheel receives the delays
    [1 * try_interval, ..., R * try_interval], which add up to the retry
    horizon, the timed-out metric is counted once, at the end, and the
    [HostInfo] is gone from the three indices of the pending table. *)
Theorem handshake_torn_down_after_retries c ip p (R : nat) :
  transmittable c ip p →
  vpnIp (deref c p) = ip →
  HandshakeCounter (deref c p) = 0 →
  retries (config c) = Z.of_nat R →
  0 <= tryInterval (config c) →
  in_int64 (retries (config c)) →
  in_int64 (tryInterval (config c) * retries (config c)) →
  ∃ c' new,
    ticks (S R) c ip = Ret c'
    ∧ effects c' = effects c ++ new ++ [MetricTimedOut]
    ∧ writes_of new
      = concat (replicate R (map (λ addr, (packet (deref c p) 0, addr))
                               (addrs (knownRemotes c ip p))))
    ∧ OutboundHandshakeTimer c'
      = OutboundHandshakeTimer c ++ backoff ip (tryInterval (config c)) 0 R
    ∧ foldr Z.add 0 (map snd (backoff ip (tryInterval (config c)) 0 R))
      = retryHorizon R (tryInterval (config c))
    ∧ QueryVpnIp (pendingHostMap c') ip = None
    ∧ Indexes (pendingHostMap c') !! localIndexId (deref c p) = None
    ∧ RemoteIndexes (pendingHostMap c') !! remoteIndexId (deref c p) = None.
Proof.
  intros Ht Hip Hzero HR Hint Hret Hprod.
  destruct (ticks_backoff_step R c ip p Ht ltac:(lia) ltac:(lia) Hint Hret Hprod)
    as (c1 & new & Hrun & Heff & Hw & Hcnt & Htim & (Hq1 & Hc1 & Hr1 & _) & Hcfg
        & Hpend & Hip1 & Hli1 & Hri1).
  replace (S R) with (R + 1)%nat by lia.
  rewrite ticks_app, Hrun. unfold_outcome. cbn [ticks]. unfold_outcome.
  rewrite (handleOutbound_timed_out c1 ip p false Hq1 Hc1 Hr1)
    by (rewrite Hcfg, Hcnt; lia).
  eexists _, new. split; [reflexivity|].
  split; [cbn; by rewrite Heff, <- app_assoc|].
  split; [exact Hw|].
  split; [cbn; by rewrite Htim, Hzero|].
  split; [apply backoff_total|].
  unfold QueryVpnIp. cbn. rewrite Hip1, Hli1, Hri1, Hip.
  by rewrite !lookup_delete_eq.
Qed.

(** X21.  Whatever the state of the manager, the only datagrams
    [handleOutbound] hands to the UDP socket are copies of the stage-0
    packet of the pending [HostInfo] of that vpn ip, addressed to its known
    remotes; it writes nothing for a vpn ip that is not pending, nor for a
    handshake that is complete, not ready or out of tries. *)
Theorem handleOutbound_writes_only_stage0 c ip lighthouseTriggered c' :
  handleOutbound c ip lighthouseTriggered = Ret c' →
  ∃ new,
    effects c' = effects c ++ new
    ∧ ∀ b addr, (b, addr) ∈ writes_of new →
        ∃ p, QueryVpnIp (pendingHostMap c) ip = Some p
             ∧ HandshakeComplete (deref c p) = false
             ∧ HandshakeReady (deref c p) = true
             ∧ HandshakeCounter (deref c p) < retries (config c)
             ∧ b = packet (deref c p) 0
             ∧ addr ∈ addrs (knownRemotes c ip p).
Proof.
  intros Hrun.
  destruct (QueryVpnIp (pendingHostMap c) ip) as [p|] eqn:Hq.
  2: { unfold handleOutbound in Hrun. rewrite Hq in Hrun. injection Hrun as <-.
       exists []. rewrite app_nil_r. split; [done|]. intros b addr Hin. inversion Hin. }
  destruct (HandshakeComplete (deref c p)) eqn:Hc.
  { unfold handleOutbound in Hrun. rewrite Hq in Hrun. cbn zeta in Hrun.
    rewrite Hc in Hrun. injection Hrun as <-.
    exists []. rewrite app_nil_r. split; [done|]. intros b addr Hin. inversion Hin. }
  destruct (HandshakeReady (deref c p)) eqn:Hr.
  2: { unfold handleOutbound in Hrun. rewrite Hq in Hrun. cbn zeta in Hrun.
       rewrite Hc, Hr in Hrun. injection Hrun as <-.
       exists []. rewrite app_nil_r. split; [done|]. intros b addr Hin. inversion Hin. }
  destruct (Z_le_gt_dec (retries (config c)) (HandshakeCounter (deref c p))) as [Hout|Hin].
  { rewrite (handleOutbound_timed_out c ip p _ Hq Hc Hr Hout) in Hrun.
    injection Hrun as <-. exists [MetricTimedOut]. split; [done|].
    intros b addr Hin. inversion Hin. }
  destruct (lighthouseTriggered && (0 <? HandshakeCounter (deref c p))) eqn:Htrig.
  { unfold handleOutbound in Hrun. rewrite Hq in Hrun. cbn zeta in Hrun.
    rewrite Hc, Hr in Hrun. cbn [negb] in Hrun.
    rewrite (proj2 (Z.leb_gt _ _)) in Hrun by lia. rewrite Htrig in Hrun.
    injection Hrun as <-.
    exists []. rewrite app_nil_r. split; [done|]. intros b addr Hin'. inversion Hin'. }
  assert (Hlt : lighthouseTriggered = true → HandshakeCounter (deref c p) <= 0).
  { intros ->. cbn in Htrig. by apply Z.ltb_ge. }
  destruct (decide (addrs (knownRemotes c ip p) ≠ []
                    ∧ (length (packet (deref c p) 0) < 2)%nat)) as [[Hne Hshort]|Hok].
  { by rewrite (handleOutbound_attempt_panics c ip p _ Hq Hc Hr ltac:(lia) Hlt Hne Hshort)
      in Hrun. }
  destruct (handleOutbound_attempt c ip p lighthouseTriggered Hq Hc Hr ltac:(lia) Hlt)
    as (c'' & new & Hrun' & Heff & Hw & _).
  { intros Hne. destruct (le_lt_dec 2 (length (packet (deref c p) 0))); [done|].
    destruct Hok. by split. }
  rewrite Hrun' in Hrun. injection Hrun as <-.
  exists new. split; [exact Heff|]. intros b addr Hin'.
  rewrite Hw in Hin'. apply list_elem_of_fmap in Hin' as (a & [= -> ->] & Ha).
  exists p. repeat split; try done. lia.
Qed.

(** X22.  [handleOutbound] panics in exactly one situation: the pending
    handshake is marked ready, is due for a transmission and has a remote to
    write to, while its stage-0 packet is shorter than the two bytes the
    transmit metric reads. *)
Theorem handleOutbound_panics_iff c ip lighthouseTriggered msg :
  handleOutbound c ip lighthouseTriggered = Panic msg
  ↔ ∃ p, QueryVpnIp (pendingHostMap c) ip = Some p
         ∧ HandshakeComplete (deref c p) = false
         ∧ HandshakeReady (deref c p) = true
         ∧ HandshakeCounter (deref c p) < retries (config c)
         ∧ (lighthouseTriggered = true → HandshakeCounter (deref c p) <= 0)
         ∧ addrs (knownRemotes c ip p) ≠ []
         ∧ (length (packet (deref c p) 0) < 2)%nat
         ∧ msg = "index out of range"%string.
Proof.
  split.
  - intros Hrun.
    destruct (QueryVpnIp (pendingHostMap c) ip) as [p|] eqn:Hq.
    2: { unfold handleOutbound in Hrun. by rewrite Hq in Hrun. }
    destruct (HandshakeComplete (deref c p)) eqn:Hc.
    { unfold handleOutbound in Hrun. rewrite Hq in Hrun. cbn zeta in Hrun.
      by rewrite Hc in Hrun. }
    destruct (HandshakeReady (deref c p)) eqn:Hr.
    2: { unfold handleOutbound in Hrun. rewrite Hq in Hrun. cbn zeta in Hrun.
         by rewrite Hc, Hr in Hrun. }
    destruct (Z_le_gt_dec (retries (config c)) (HandshakeCounter (deref c p))) as [Hout|Hin].
    { by rewrite (handleOutbound_timed_out c ip p _ Hq Hc Hr Hout) in Hrun. }
    destruct (lighthouseTriggered && (0 <? HandshakeCounter (deref c p))) eqn:Htrig.
    { unfold handleOutbound in Hrun. rewrite Hq in Hrun. cbn zeta in Hrun.
      rewrite Hc, Hr in Hrun. cbn [negb] in Hrun.
      rewrite (proj2 (Z.leb_gt _ _)) in Hrun by lia. by rewrite Htrig in Hrun. }
    assert (Hlt : lighthouseTriggered = true → HandshakeCounter (deref c p) <= 0).
    { intros ->. cbn in Htrig. by apply Z.ltb_ge. }
    destruct (decide (addrs (knownRemotes c ip p) ≠ []
                      ∧ (length (packet (deref c p) 0) < 2)%nat)) as [[Hne Hshort]|Hok].
    { rewrite (handleOutbound_attempt_panics c ip p _ Hq Hc Hr ltac:(lia) Hlt Hne Hshort)
        in Hrun. injection Hrun as <-.
      exists p. repeat split; try done. lia. }
    destruct (handleOutbound_attempt c ip p lighthouseTriggered Hq Hc Hr ltac:(lia) Hlt)
      as (c'' & new & Hrun' & _).
    { intros Hne. destruct (le_lt_dec 2 (length (packet (deref c p) 0))); [done|].
      destruct Hok. by split. }
    by rewrite Hrun' in Hrun.
  - intros (p & Hq & Hc & Hr & Hcnt & Hlt & Hne & Hshort & ->).
    by apply (handleOutbound_attempt_panics c ip p).
Qed.

End Schedule.

(** Closed side conditions on the sample data. *)
Ltac sample :=
  vm_compute; repeat split;
  first [reflexivity | lia | (let Hx := fresh in intros Hx; discriminate Hx)].

(** The handshake to 10.0.0.11, tried twice: the third try is followed by a
    delay of three intervals. *)
Lemma handleOutbound_tick_backs_off_witness :
  ∃ c' new,
    handleOutbound testlib.sampleManager 167772171%N false = Ret c'
    ∧ effects c' = effects testlib.sampleManager ++ new
    ∧ writes_of new
      = map (λ addr, (packet (deref testlib.sampleManager 3%positive) 0, addr))
          (addrs (knownRemotes testlib.sampleManager 167772171%N 3%positive))
    ∧ HandshakeCounter (deref c' 3%positive)
      = HandshakeCounter (deref testlib.sampleManager 3%positive) + 1
    ∧ OutboundHandshakeTimer c'
      = OutboundHandshakeTimer testlib.sampleManager
        ++ [(167772171%N, tryInterval (config testlib.sampleManager)
                          * (HandshakeCounter (deref testlib.sampleManager 3%positive) + 1))]
    ∧ pendingHostMap c' = pendingHostMap testlib.sampleManager
    ∧ transmittable c' 167772171%N 3%positive.
Proof.
  apply (@handleOutbound_tick_backs_off testlib.env testlib.sampleManager
           167772171%N 3%positive); sample.
Defined.

Lemma ticks_retry_schedule_witness :
  ∃ c' new,
    ticks 3 testlib.sampleManager 167772169%N = Ret c'
    ∧ effects c' = effects testlib.sampleManager ++ new
    ∧ writes_of new
      = concat (replicate 3
                  (map (λ addr, (packet (deref testlib.sampleManager 2%positive) 0, addr))
                     (addrs (knownRemotes testlib.sampleManager 167772169%N 2%positive))))
    ∧ HandshakeCounter (deref c' 2%positive)
      = HandshakeCounter (deref testlib.sampleManager 2%positive) + Z.of_nat 3
    ∧ OutboundHandshakeTimer c'
      = OutboundHandshakeTimer testlib.sampleManager
        ++ backoff 167772169%N (tryInterval (config testlib.sampleManager))
             (HandshakeCounter (deref testlib.sampleManager 2%positive)) 3
    ∧ transmittable c' 167772169%N 2%positive.
Proof.
  apply (@ticks_retry_schedule testlib.env testlib.sampleManager
           167772169%N 2%positive 3); sample.
Defined.

Lemma handshake_torn_down_after_retries_witness :
  ∃ c' new,
    ticks 11 testlib.sampleManager 167772169%N = Ret c'
    ∧ effects c' = effects testlib.sampleManager ++ new ++ [MetricTimedOut]
    ∧ writes_of new
      = concat (replicate 10
                  (map (λ addr, (packet (deref testlib.sampleManager 2%positive) 0, addr))
                     (addrs (knownRemotes testlib.sampleManager 167772169%N 2%positive))))
    ∧ OutboundHandshakeTimer c'
      = OutboundHandshakeTimer testlib.sampleManager
        ++ backoff 167772169%N (tryInterval (config testlib.sampleManager)) 0 10
    ∧ foldr Z.add 0
        (map snd (backoff 167772169%N (tryInterval (config testlib.sampleManager)) 0 10))
      = retryHorizon 10 (tryInterval (config testlib.sampleManager))
    ∧ QueryVpnIp (pendingHostMap c') 167772169%N = None
    ∧ Indexes (pendingHostMap c')
      !! localIndexId (deref testlib.sampleManager 2%positive) = None
    ∧ RemoteIndexes (pendingHostMap c')
      !! remoteIndexId (deref testlib.sampleManager 2%positive) = None.
Proof.
  apply (@handshake_torn_down_after_retries testlib.env testlib.sampleManager
           167772169%N 2%positive 10); sample.
Defined.

(** The first try of the handshake to 10.0.0.9. *)
Lemma handleOutbound_writes_only_stage0_witness :
  ∃ c' new,
    handleOutbound testlib.sampleManager 167772169%N false = Ret c'
    ∧ effects c' = effects testlib.sampleManager ++ new
    ∧ ∀ b addr, (b, addr) ∈ writes_of new →
        ∃ p, QueryVpnIp (pendingHostMap testlib.sampleManager) 167772169%N = Some p
             ∧ HandshakeComplete (deref testlib.sampleManager p) = false
             ∧ HandshakeReady (deref testlib.sampleManager p) = true
             ∧ HandshakeCounter (deref testlib.sampleManager p)
               < retries (config testlib.sampleManager)
             ∧ b = packet (deref testlib.sampleManager p) 0
             ∧ addr ∈ addrs (knownRemotes testlib.sampleManager 167772169%N p).
Proof.
  assert (Hrun : ∃ c', handleOutbound testlib.sampleManager 167772169%N false = Ret c')
    by (eexists; vm_compute; reflexivity).
  destruct Hrun as (c' & Hrun).
  destruct (@handleOutbound_writes_only_stage0 testlib.env testlib.sampleManager
              167772169%N false c' Hrun) as (new & Heff & Hw).
  exists c', new. split; [exact Hrun|]. split; [exact Heff|exact Hw].
Defined.

(** *** The tables *)

Lemma indexed_same_ids c c' hm : same_ids c c' → indexed c hm → indexed c' hm.
Proof.
  intros Hids [Ha Hb]. split.
  - intros ip p Hp. destruct (Hids p) as (-> & -> & _). by apply Ha.
  - intros i p Hp. destruct (Hids p) as (-> & -> & _). by apply Hb.
Qed.

Lemma hosts_keyed_same_ids c c' hm : same_ids c c' → hosts_keyed c hm → hosts_keyed c' hm.
Proof. intros Hids Hk ip p Hp. destruct (Hids p) as (-> & _). by apply Hk. Qed.

Lemma deref_with_main c m q : deref (with_main c m) q = deref c q.
Proof. reflexivity. Qed.

Lemma deref_with_pending c m q : deref (with_pending c m) q = deref c q.
Proof. reflexivity. Qed.

Lemma installed_indexed c hostinfo :
  indexed c (mainHostMap c) →
  Indexes (mainHostMap c) !! localIndexId (deref c hostinfo) = None →
  indexed c (installed c hostinfo).
Proof.
  intros [Ha Hb] Hfree. unfold installed, installInMain.
  destruct (Hosts (mainHostMap c) !! vpnIp (deref c hostinfo)) as [e|] eqn:He.
  - destruct (Ha _ _ He) as [Hip He'].
    assert (Hli : localIndexId (deref c e) ≠ localIndexId (deref c hostinfo))
      by (intros Heq; rewrite Heq in He'; congruence).
    cbn. rewrite !deref_with_main, Hip. split.
    + intros ip p. cbn.
      destruct (decide (vpnIp (deref c hostinfo) = ip)) as [<-|Hne].
      * rewrite lookup_insert_eq. intros [= <-]. by rewrite lookup_insert_eq.
      * rewrite lookup_insert_ne, lookup_delete_ne by done. intros Hp.
        destruct (Ha _ _ Hp) as [Hipp Hlp]. split; [done|].
        rewrite lookup_insert_ne by congruence.
        rewrite lookup_delete_ne; [done|].
        intros Heq. rewrite <- Heq in Hlp. congruence.
    + intros i p. cbn.
      destruct (decide (localIndexId (deref c hostinfo) = i)) as [<-|Hne].
      * rewrite lookup_insert_eq. intros [= <-]. by rewrite lookup_insert_eq.
      * rewrite lookup_insert_ne by done.
        destruct (decide (localIndexId (deref c e) = i)) as [<-|Hne'].
        { by rewrite lookup_delete_eq. }
        rewrite lookup_delete_ne by done. intros Hp.
        destruct (Hb _ _ Hp) as [Hlp Hipp]. split; [done|].
        destruct (decide (vpnIp (deref c hostinfo) = vpnIp (deref c p))) as [Heq|Hneq].
        { rewrite <- Heq in Hipp. congruence. }
        by rewrite lookup_insert_ne, lookup_delete_ne.
  - cbn. split.
    + intros ip p. cbn.
      destruct (decide (vpnIp (deref c hostinfo) = ip)) as [<-|Hne].
      * rewrite lookup_insert_eq. intros [= <-]. by rewrite lookup_insert_eq.
      * rewrite lookup_insert_ne by done. intros Hp.
        destruct (Ha _ _ Hp) as [Hipp Hlp]. split; [done|].
        rewrite lookup_insert_ne by congruence. done.
    + intros i p. cbn.
      destruct (decide (localIndexId (deref c hostinfo) = i)) as [<-|Hne].
      * rewrite lookup_insert_eq. intros [= <-]. by rewrite lookup_insert_eq.
      * rewrite lookup_insert_ne by done. intros Hp.
        destruct (Hb _ _ Hp) as [Hlp Hipp]. split; [done|].
        rewrite lookup_insert_ne by congruence. done.
Qed.

Lemma same_ids_refl c : same_ids c c.
Proof. by intros q. Qed.

Lemma same_ids_store_packetStore c p ps :
  same_ids c (store c p (set_packetStore (deref c p) ps)).
Proof.
  intros q. rewrite deref_store. by destruct (decide (p = q)) as [<-|].
Qed.

(** What a call of [CheckAndComplete] that returns no error has passed,
    and the state [installInMain] is entered in. *)
Lemma CheckAndComplete_success c hostinfo handshakePacket overwrite c' r :
  CheckAndComplete c hostinfo handshakePacket overwrite = Ret (c', (r, None)) →
  checkExistingTunnel c (deref c hostinfo)
    (Hosts (mainHostMap c) !! vpnIp (deref c hostinfo)) handshakePacket = None
  ∧ Indexes (mainHostMap c) !! localIndexId (deref c hostinfo) = None
  ∧ (∀ x, Indexes (pendingHostMap c) !! localIndexId (deref c hostinfo) = Some x →
          x = hostinfo)
  ∧ r = Hosts (mainHostMap c) !! vpnIp (deref c hostinfo)
  ∧ ∃ c2,
      c' = (installInMain c2 hostinfo r).1
      ∧ mainHostMap c2 = mainHostMap c
      ∧ same_ids c c2
      ∧ OutboundHandshakeTimer c2 = OutboundHandshakeTimer c
      ∧ effects c2 = effects c
      ∧ ((Hosts (pendingHostMap c) !! vpnIp (deref c hostinfo) = None ∧ c2 = c)
         ∨ ∃ ph, Hosts (pendingHostMap c) !! vpnIp (deref c hostinfo) = Some ph
                 ∧ overwrite = true
                 ∧ pendingHostMap c2
                   = unlockedDeleteHostInfo (pendingHostMap c) (deref c2 ph)).
Proof.
  unfold CheckAndComplete. intros Heq.
  destruct (checkExistingTunnel c (deref c hostinfo)
              (Hosts (mainHostMap c) !! vpnIp (deref c hostinfo)) handshakePacket);
    [by simplify_eq|].
  split; [done|].
  destruct (Indexes (mainHostMap c) !! localIndexId (deref c hostinfo));
    [by simplify_eq|].
  split; [done|].
  assert (Hpend : (∀ x, Indexes (pendingHostMap c) !! localIndexId (deref c hostinfo)
                        = Some x → x = hostinfo)
                  ∧ checkPendingHandshake c hostinfo
                      (Hosts (mainHostMap c) !! vpnIp (deref c hostinfo)) overwrite
                    = Ret (c', (r, None))).
  { destruct (Indexes (pendingHostMap c) !! localIndexId (deref c hostinfo))
      as [existingIndex|]; [|by split].
    case_bool_decide as Hd; [by simplify_eq|].
    split; [|done]. intros x [= <-]. by destruct (decide (existingIndex = hostinfo)). }
  destruct Hpend as [Hx Hcheck]. split; [exact Hx|]. clear Heq.
  unfold checkPendingHandshake in Hcheck.
  destruct (Hosts (pendingHostMap c) !! vpnIp (deref c hostinfo)) as [ph|] eqn:Hph.
  - destruct overwrite; cbn [negb] in Hcheck; [|by simplify_eq].
    destruct (ConnectionState (deref c ph)); [|done].
    match type of Hcheck with Ret ?X = _ =>
      assert (Hpair : X = (c', (r, None))) by congruence end.
    clear Hcheck.
    assert (Hr : r = Hosts (mainHostMap c) !! vpnIp (deref c hostinfo))
      by (apply (f_equal snd) in Hpair; cbn in Hpair; congruence).
    split; [exact Hr|].
    eexists. split; [rewrite Hr; apply (f_equal fst) in Hpair; symmetry; exact Hpair|].
    split; [reflexivity|]. split.
    { intros q. rewrite deref_with_pending. apply same_ids_store_packetStore. }
    split; [reflexivity|]. split; [reflexivity|].
    right. exists ph. by repeat split.
  - match type of Hcheck with Ret ?X = _ =>
      assert (Hpair : X = (c', (r, None))) by congruence end.
    clear Hcheck.
    assert (Hr : r = Hosts (mainHostMap c) !! vpnIp (deref c hostinfo))
      by (apply (f_equal snd) in Hpair; cbn in Hpair; congruence).
    split; [exact Hr|].
    exists c. split; [rewrite Hr; apply (f_equal fst) in Hpair; symmetry; exact Hpair|].
    split; [reflexivity|]. split; [apply same_ids_refl|].
    split; [reflexivity|]. split; [reflexivity|]. by left.
Qed.

Lemma installInMain_frame c hostinfo existing :
  let c' := (installInMain c hostinfo existing).1 in
  heap c' = heap c ∧ pendingHostMap c' = pendingHostMap c
  ∧ OutboundHandshakeTimer c' = OutboundHandshakeTimer c ∧ effects c' = effects c.
Proof. unfold installInMain. by destruct existing. Qed.

Lemma same_ids_heap c c' : heap c' = heap c → same_ids c c'.
Proof. intros Hh q. unfold deref. by rewrite Hh. Qed.

Lemma same_ids_trans c1 c2 c3 : same_ids c1 c2 → same_ids c2 c3 → same_ids c1 c3.
Proof.
  intros H12 H23 q. destruct (H12 q) as (?&?&?), (H23 q) as (?&?&?).
  repeat split; congruence.
Qed.

(** X23.  A [CheckAndComplete] that returns no error returns the tunnel it
    replaced, has the new [HostInfo] filed under its three ids in the main
    table, leaves no pending handshake for that vpn ip, and keeps the main
    table coherent: every entry of [Hosts] and [Indexes] is filed under the
    ids of the [HostInfo] it points to, in both indices. *)
Theorem CheckAndComplete_installs c hostinfo handshakePacket overwrite c' r :
  indexed c (mainHostMap c) →
  hosts_keyed c (pendingHostMap c) →
  CheckAndComplete c hostinfo handshakePacket overwrite = Ret (c', (r, None)) →
  r = Hosts (mainHostMap c) !! vpnIp (deref c hostinfo)
  ∧ Hosts (mainHostMap c') !! vpnIp (deref c hostinfo) = Some hostinfo
  ∧ Indexes (mainHostMap c') !! localIndexId (deref c hostinfo) = Some hostinfo
  ∧ RemoteIndexes (mainHostMap c') !! remoteIndexId (deref c hostinfo) = Some hostinfo
  ∧ Hosts (pendingHostMap c') !! vpnIp (deref c hostinfo) = None
  ∧ indexed c' (mainHostMap c')
  ∧ hosts_keyed c' (pendingHostMap c').
Proof.
  intros Hidx Hkey Hrun.
  destruct (CheckAndComplete_success _ _ _ _ _ _ Hrun)
    as (_ & Hfree & _ & Hr & c2 & Hc' & Hmain & Hids & _ & _ & Hpend).
  destruct (Hids hostinfo) as (Hip & Hli & Hri).
  destruct (installInMain_frame c2 hostinfo r) as (Hheap' & Hpend' & _).
  rewrite <- Hc' in Hheap', Hpend'.
  pose proof (installInMain_installs c2 hostinfo r) as Hinst.
  cbn zeta in Hinst. rewrite <- Hc', Hip, Hli, Hri in Hinst.
  destruct Hinst as (Hi1 & Hi2 & Hi3).
  split; [exact Hr|]. do 3 (split; [assumption|]).
  assert (Hids' : same_ids c c')
    by (eapply same_ids_trans; [exact Hids|by apply same_ids_heap]).
  split; [|split].
  - rewrite Hpend'. destruct Hpend as [[Hnone ->]|(ph & Hph & _ & ->)]; [done|].
    cbn. destruct (Hids ph) as (-> & _). rewrite (Hkey _ _ Hph).
    by rewrite lookup_delete_eq.
  - apply (indexed_same_ids c2); [by apply same_ids_heap|].
    assert (Hinstalled : mainHostMap c' = installed c2 hostinfo).
    { unfold installed. by rewrite Hc', Hr, Hmain, Hip. }
    rewrite Hinstalled. apply installed_indexed.
    + rewrite Hmain. by apply (indexed_same_ids c).
    + by rewrite Hmain, Hli.
  - apply (hosts_keyed_same_ids c); [exact Hids'|].
    rewrite Hpend'. destruct Hpend as [[Hnone ->]|(ph & Hph & _ & ->)]; [done|].
    intros ip p. cbn. intros Hp.
    apply lookup_delete_Some in Hp as [_ Hp]. by apply Hkey.
Qed.

(** X24.  [CheckAndComplete] never puts one local index in use for two
    [HostInfo]s: if every local index filed in both tables was filed for the
    same [HostInfo] before a call that returns no error, it is so after
    it. *)
Theorem CheckAndComplete_keeps_indexes_unique c hostinfo handshakePacket overwrite c' r :
  indexes_agree c →
  CheckAndComplete c hostinfo handshakePacket overwrite = Ret (c', (r, None)) →
  indexes_agree c'.
Proof.
  intros Hagree Hrun.
  destruct (CheckAndComplete_success _ _ _ _ _ _ Hrun)
    as (_ & Hfree & Hx & Hr & c2 & Hc' & Hmain & Hids & _ & _ & Hpend).
  destruct (Hids hostinfo) as (Hip & Hli & Hri).
  destruct (installInMain_frame c2 hostinfo r) as (_ & Hpend' & _).
  rewrite <- Hc' in Hpend'.
  intros i p q Hp Hq. rewrite Hpend' in Hp.
  assert (Hp0 : Indexes (pendingHostMap c) !! i = Some p).
  { destruct Hpend as [[_ ->]|(ph & _ & _ & Heq)]; [done|].
    rewrite Heq in Hp. cbn in Hp. by apply lookup_delete_Some in Hp as [_ Hp]. }
  rewrite Hc' in Hq. unfold installInMain in Hq.
  destruct (decide (localIndexId (deref c hostinfo) = i)) as [<-|Hne].
  - assert (q = hostinfo) as ->.
    { destruct r; cbn in Hq; rewrite ?deref_with_main, Hli, lookup_insert_eq in Hq;
        congruence. }
    by apply Hx.
  - apply (Hagree i); [done|].
    destruct r; cbn in Hq; rewrite ?deref_with_main, Hli in Hq;
      rewrite lookup_insert_ne in Hq by done.
    + apply lookup_delete_Some in Hq as [_ Hq]. by rewrite <- Hmain.
    + by rewrite <- Hmain.
Qed.

(** X25.  After a [CheckAndComplete] that returned no error, a second call
    for a [HostInfo] of the same vpn ip that carries the same handshake
    packet (the same [HostInfo], for one) answers [ErrAlreadySeen], returns
    the installed [HostInfo] and changes nothing. *)
Theorem CheckAndComplete_replay_already_seen
    c hostinfo handshakePacket overwrite c' r again stage overwrite' :
  CheckAndComplete c hostinfo handshakePacket overwrite = Ret (c', (r, None)) →
  vpnIp (deref c' again) = vpnIp (deref c' hostinfo) →
  packet (deref c' again) stage = packet (deref c' hostinfo) stage →
  CheckAndComplete c' again stage overwrite'
  = Ret (c', (Some hostinfo, Some ErrAlreadySeen)).
Proof.
  intros Hrun Hip Hpkt.
  destruct (CheckAndComplete_success _ _ _ _ _ _ Hrun)
    as (_ & _ & _ & _ & c2 & Hc' & _).
  destruct (installInMain_frame c2 hostinfo r) as (Hheap' & _).
  rewrite <- Hc' in Hheap'.
  pose proof (installInMain_installs c2 hostinfo r) as (Hinst & _).
  rewrite <- Hc' in Hinst.
  assert (Hd : deref c2 hostinfo = deref c' hostinfo) by (unfold deref; by rewrite Hheap').
  rewrite Hd in Hinst.
  unfold CheckAndComplete. rewrite Hip, Hinst.
  unfold checkExistingTunnel. rewrite Hpkt.
  unfold bytes_Equal. by rewrite bool_decide_eq_true_2.
Qed.

(** *** Complete *)

Lemma Complete_main c hostinfo : mainHostMap (Complete c hostinfo) = installed c hostinfo.
Proof.
  unfold Complete, installed, installInMain.
  by destruct (Hosts (mainHostMap c) !! vpnIp (deref c hostinfo)).
Qed.

Lemma installed_same_ids c c2 hostinfo :
  mainHostMap c2 = mainHostMap c → same_ids c c2 →
  installed c2 hostinfo = installed c hostinfo.
Proof.
  intros Hmain Hids. unfold installed, installInMain.
  destruct (Hids hostinfo) as (Hip & Hli & Hri). rewrite Hmain, Hip.
  destruct (Hosts (mainHostMap c) !! vpnIp (deref c hostinfo)) as [e|]; cbn.
  - rewrite ?deref_with_main, ?Hmain. unfold addHostInfo. cbn.
    rewrite Hip, Hli, Hri.
    destruct (Hids e) as (-> & -> & ->). reflexivity.
  - unfold addHostInfo. by rewrite Hip, Hli, Hri, Hmain.
Qed.

Lemma Complete_frame c hostinfo :
  heap (Complete c hostinfo) = heap c
  ∧ effects (Complete c hostinfo) = effects c
  ∧ OutboundHandshakeTimer (Complete c hostinfo) = OutboundHandshakeTimer c.
Proof.
  unfold Complete.
  by destruct (Hosts (mainHostMap c) !! vpnIp (deref c hostinfo)).
Qed.

(** [Complete] files the [HostInfo] under its three ids in the main
    table and removes these ids from the pending table; it changes no
    [HostInfo], sends nothing and makes no request to the wheel. *)
Theorem Complete_moves_to_main c hostinfo :
  let h := deref c hostinfo in
  let c' := Complete c hostinfo in
  Hosts (mainHostMap c') !! vpnIp h = Some hostinfo
  ∧ Indexes (mainHostMap c') !! localIndexId h = Some hostinfo
  ∧ RemoteIndexes (mainHostMap c') !! remoteIndexId h = Some hostinfo
  ∧ Hosts (pendingHostMap c') !! vpnIp h = None
  ∧ Indexes (pendingHostMap c') !! localIndexId h = None
  ∧ RemoteIndexes (pendingHostMap c') !! remoteIndexId h = None
  ∧ heap c' = heap c
  ∧ effects c' = effects c
  ∧ OutboundHandshakeTimer c' = OutboundHandshakeTimer c.
Proof.
  cbn zeta. unfold Complete.
  destruct (Hosts (mainHostMap c) !! vpnIp (deref c hostinfo)) as [e|];
    cbn; rewrite ?deref_with_main, !lookup_insert_eq, !lookup_delete_eq; by repeat split.
Qed.

(** X26.  When the local index of the [HostInfo] is not in use in the main
    table, which is what [Complete] assumes, [Complete] keeps the main table
    coherent; and it never leaves a local index in use for two
    [HostInfo]s. *)
Theorem Complete_keeps_main_indexed c hostinfo :
  indexed c (mainHostMap c) →
  indexes_agree c →
  Indexes (mainHostMap c) !! localIndexId (deref c hostinfo) = None →
  indexed (Complete c hostinfo) (mainHostMap (Complete c hostinfo))
  ∧ indexes_agree (Complete c hostinfo).
Proof.
  intros Hidx Hagree Hfree. split.
  - rewrite Complete_main.
    apply (indexed_same_ids c); [|by apply installed_indexed].
    apply same_ids_heap. by destruct (Complete_frame c hostinfo).
  - intros i p q Hp Hq. rewrite Complete_main in Hq.
    assert (Hpend : Indexes (pendingHostMap (Complete c hostinfo))
                    = delete (localIndexId (deref c hostinfo))
                        (Indexes (pendingHostMap c))).
    { unfold Complete.
      by destruct (Hosts (mainHostMap c) !! vpnIp (deref c hostinfo)). }
    rewrite Hpend in Hp. apply lookup_delete_Some in Hp as [Hne Hp].
    apply (Hagree i); [done|].
    unfold installed, installInMain in Hq.
    destruct (Hosts (mainHostMap c) !! vpnIp (deref c hostinfo)) as [e|];
      cbn in Hq; rewrite ?deref_with_main in Hq;
      rewrite lookup_insert_ne in Hq by done; [|done].
    by apply lookup_delete_Some in Hq as [_ Hq].
Qed.

(** X27.  [Complete] is [CheckAndComplete] without the checks, as far as the
    main table goes: a [CheckAndComplete] that returns no error leaves the
    main table [Complete] would have left. *)
Theorem CheckAndComplete_main_as_Complete c hostinfo handshakePacket overwrite c' r :
  CheckAndComplete c hostinfo handshakePacket overwrite = Ret (c', (r, None)) →
  mainHostMap c' = mainHostMap (Complete c hostinfo).
Proof.
  intros Hrun.
  destruct (CheckAndComplete_success _ _ _ _ _ _ Hrun)
    as (_ & _ & _ & Hr & c2 & Hc' & Hmain & Hids & _).
  destruct (Hids hostinfo) as (Hip & _).
  rewrite Complete_main, <- (installed_same_ids c c2 hostinfo Hmain Hids).
  unfold installed. by rewrite Hc', Hr, Hmain, Hip.
Qed.

(** *** generateIndex and AddIndexHostInfo *)

Lemma buffer_Uint32_range b : (buffer_Uint32 b < 4294967296)%N.
Proof.
  destruct b as [[[b0 b1] b2] b3]. unfold buffer_Uint32.
  pose proof (Byte.to_N_bounded b0). pose proof (Byte.to_N_bounded b1).
  pose proof (Byte.to_N_bounded b2). pose proof (Byte.to_N_bounded b3). lia.
Qed.

(** X28.  [generateIndex] returns the first non-zero word the random source
    yields, having skipped the zero words before it: it never returns index
    zero, and the index fits 32 bits. *)
Theorem generateIndex_first_nonzero rnd rnd' index :
  generateIndex rnd = (rnd', Some index) →
  index ≠ 0%N
  ∧ (index < 4294967296)%N
  ∧ ∃ zeros b,
      rnd = map Some zeros ++ Some b :: rnd'
      ∧ Forall (λ z, buffer_Uint32 z = 0%N) zeros
      ∧ buffer_Uint32 b = index.
Proof.
  induction rnd as [|[b|] rnd IH]; cbn [generateIndex]; [done| |done].
  destruct (buffer_Uint32 b =? 0)%N eqn:Hz.
  - intros Hrun. destruct (IH Hrun) as (Hnz & Hrange & zeros & b' & -> & Hzeros & Hb').
    split; [done|]. split; [done|]. exists (b :: zeros), b'.
    split; [reflexivity|]. split; [|done].
    constructor; [by apply N.eqb_eq|done].
  - intros [= <- <-]. split; [by apply N.eqb_neq|].
    split; [apply buffer_Uint32_range|]. exists [], b. by repeat split.
Qed.

Lemma AddIndexHostInfo_loop_result n rnd c h rnd' c' e :
  AddIndexHostInfo_loop n rnd c h = (rnd', (c', e)) →
  match e with
  | Some _ => c' = c
  | None =>
      ∃ index, index ≠ 0%N
               ∧ Indexes (pendingHostMap c) !! index = None
               ∧ Indexes (mainHostMap c) !! index = None
               ∧ c' = index_added c h index
  end.
Proof.
  revert rnd. induction n as [|n IH]; intros rnd; cbn [AddIndexHostInfo_loop].
  - by intros [= _ <- <-].
  - destruct (generateIndex rnd) as [rnd1 [index|]] eqn:Hgen; [|by intros [= _ <- <-]].
    destruct (generateIndex_first_nonzero _ _ _ Hgen) as (Hnz & _).
    destruct (negb (bool_decide (is_Some (Indexes (mainHostMap c) !! index)))
              && negb (bool_decide (is_Some (Indexes (pendingHostMap c) !! index))))
      eqn:Hfree; [|apply IH].
    intros [= _ <- <-]. exists index.
    apply andb_true_iff in Hfree as [Hm Hp].
    apply negb_true_iff, bool_decide_eq_false in Hm, Hp.
    split; [done|]. split; [by apply eq_None_not_Some|].
    split; [by apply eq_None_not_Some|]. reflexivity.
Qed.

(** X29.  [AddIndexHostInfo] either fails and changes nothing, or gives the
    [HostInfo] a local index that is not zero and was in use in neither
    table, and files it under that index in the pending table; it touches no
    other entry, no other [HostInfo], and nothing of the main table; and no
    local index comes to be in use for two [HostInfo]s. *)
Theorem AddIndexHostInfo_unique_index rnd c h rnd' c' e :
  AddIndexHostInfo rnd c h = (rnd', (c', e)) →
  match e with
  | Some _ => c' = c
  | None =>
      ∃ index, index ≠ 0%N
               ∧ Indexes (pendingHostMap c) !! index = None
               ∧ Indexes (mainHostMap c) !! index = None
               ∧ localIndexId (deref c' h) = index
               ∧ vpnIp (deref c' h) = vpnIp (deref c h)
               ∧ remoteIndexId (deref c' h) = remoteIndexId (deref c h)
               ∧ (∀ q, q ≠ h → deref c' q = deref c q)
               ∧ Indexes (pendingHostMap c') = <[index := h]> (Indexes (pendingHostMap c))
               ∧ Hosts (pendingHostMap c') = Hosts (pendingHostMap c)
               ∧ RemoteIndexes (pendingHostMap c') = RemoteIndexes (pendingHostMap c)
               ∧ mainHostMap c' = mainHostMap c
               ∧ (indexes_agree c → indexes_agree c')
  end.
Proof.
  intros Hrun. apply AddIndexHostInfo_loop_result in Hrun.
  destruct e; [done|]. destruct Hrun as (index & Hnz & Hp & Hm & ->).
  exists index. unfold index_added. cbn zeta.
  rewrite deref_with_pending, deref_store. destruct (decide (h = h)); [|done].
  do 6 (split; [done|]).
  split.
  { intros q Hq. rewrite deref_with_pending, deref_store.
    by destruct (decide (h = q)) as [<-|]. }
  do 4 (split; [done|]).
  intros Hagree i p q. cbn. intros Hip Hiq.
  destruct (decide (index = i)) as [<-|Hne]; [congruence|].
  rewrite lookup_insert_ne in Hip by done. by apply (Hagree i).
Qed.

(** X30.  A [HostInfo] that [AddIndexHostInfo] has just given its index
    never meets [ErrLocalIndexCollision] in [CheckAndComplete]. *)
Theorem AddIndexHostInfo_then_no_collision
    rnd c h rnd' c' handshakePacket overwrite c'' r e :
  AddIndexHostInfo rnd c h = (rnd', (c', None)) →
  CheckAndComplete c' h handshakePacket overwrite = Ret (c'', (r, Some e)) →
  e ≠ ErrLocalIndexCollision.
Proof.
  intros Hadd Hrun. apply AddIndexHostInfo_loop_result in Hadd.
  destruct Hadd as (index & Hnz & Hp & Hm & ->).
  assert (Hli : localIndexId (deref (index_added c h index) h) = index).
  { unfold index_added. cbn zeta. rewrite deref_with_pending, deref_store.
    by destruct (decide (h = h)). }
  unfold CheckAndComplete in Hrun. rewrite Hli in Hrun.
  destruct (checkExistingTunnel _ _ _ _) as [err|] eqn:Hexist.
  { injection Hrun as _ _ <-. unfold checkExistingTunnel in Hexist.
    destruct (Hosts _ !! _); [|done].
    destruct (bytes_Equal _ _); [by injection Hexist as <-|].
    destruct (_ <=? _)%N; [by injection Hexist as <-|done]. }
  replace (Indexes (mainHostMap (index_added c h index)) !! index) with (@None loc)
    in Hrun by (symmetry; exact Hm).
  replace (Indexes (pendingHostMap (index_added c h index)) !! index) with (Some h)
    in Hrun by (unfold index_added; cbn; by rewrite lookup_insert_eq).
  rewrite bool_decide_eq_false_2 in Hrun by (intros Hx; by apply Hx).
  by apply checkPendingHandshake_error in Hrun as (_ & -> & _).
Qed.

(** *** The sample runs *)

(** The coherence of a table, and the uniqueness of the local indices, as
    checks that can be run. *)
Lemma indexed_decide c hm :
  bool_decide
    (map_Forall (λ ip p, vpnIp (deref c p) = ip
                         ∧ Indexes hm !! localIndexId (deref c p) = Some p) (Hosts hm)
     ∧ map_Forall (λ i p, localIndexId (deref c p) = i
                          ∧ Hosts hm !! vpnIp (deref c p) = Some p) (Indexes hm)) = true →
  indexed c hm.
Proof. intros Hd. apply bool_decide_eq_true in Hd. exact Hd. Qed.

Lemma hosts_keyed_decide c hm :
  bool_decide (map_Forall (λ ip p, vpnIp (deref c p) = ip) (Hosts hm)) = true →
  hosts_keyed c hm.
Proof. intros Hd. apply bool_decide_eq_true in Hd. exact Hd. Qed.

Lemma indexes_agree_decide c :
  bool_decide
    (map_Forall (λ i p, default p (Indexes (mainHostMap c) !! i) = p)
       (Indexes (pendingHostMap c))) = true →
  indexes_agree c.
Proof.
  intros Hd. apply bool_decide_eq_true in Hd.
  intros i p q Hp Hq. specialize (Hd i p Hp). cbn in Hd. by rewrite Hq in Hd.
Qed.

Example busyManager_coherent :
  indexed testlib.busyManager (mainHostMap testlib.busyManager)
  ∧ hosts_keyed testlib.busyManager (pendingHostMap testlib.busyManager)
  ∧ indexes_agree testlib.busyManager.
Proof.
  split; [|split].
  - apply indexed_decide. vm_compute. reflexivity.
  - apply hosts_keyed_decide. vm_compute. reflexivity.
  - apply indexes_agree_decide. vm_compute. reflexivity.
Qed.

Lemma CheckAndComplete_installs_witness :
  ∃ c' r,
    CheckAndComplete testlib.busyManager 4%positive 0%N true = Ret (c', (r, None))
    ∧ r = Some 5%positive
    ∧ Hosts (mainHostMap c') !! 167772167%N = Some 4%positive
    ∧ Indexes (mainHostMap c') !! 104%N = Some 4%positive
    ∧ RemoteIndexes (mainHostMap c') !! 9%N = Some 4%positive
    ∧ Hosts (pendingHostMap c') !! 167772167%N = None
    ∧ indexed c' (mainHostMap c')
    ∧ hosts_keyed c' (pendingHostMap c').
Proof.
  assert (Hrun : ∃ c' r, CheckAndComplete testlib.busyManager 4%positive 0%N true
                         = Ret (c', (r, None)))
    by (eexists _, _; vm_compute; reflexivity).
  destruct Hrun as (c' & r & Hrun). exists c', r. split; [exact Hrun|].
  apply (CheckAndComplete_installs testlib.busyManager 4%positive 0%N true c' r).
  - apply indexed_decide. vm_compute. reflexivity.
  - apply hosts_keyed_decide. vm_compute. reflexivity.
  - exact Hrun.
Defined.


Lemma CheckAndComplete_keeps_indexes_unique_witness :
  ∃ c' r,
    CheckAndComplete testlib.busyManager 4%positive 0%N true = Ret (c', (r, None))
    ∧ indexes_agree c'.
Proof.
  assert (Hrun : ∃ c' r, CheckAndComplete testlib.busyManager 4%positive 0%N true
                         = Ret (c', (r, None)))
    by (eexists _, _; vm_compute; reflexivity).
  destruct Hrun as (c' & r & Hrun). exists c', r. split; [exact Hrun|].
  apply (CheckAndComplete_keeps_indexes_unique testlib.busyManager 4%positive 0%N true c' r).
  - apply indexes_agree_decide. vm_compute. reflexivity.
  - exact Hrun.
Defined.

(** The same inbound handshake handed in a second time. *)
Lemma CheckAndComplete_replay_already_seen_witness :
  ∃ c' r,
    CheckAndComplete testlib.busyManager 4%positive 0%N true = Ret (c', (r, None))
    ∧ CheckAndComplete c' 4%positive 0%N true
      = Ret (c', (Some 4%positive, Some ErrAlreadySeen)).
Proof.
  assert (Hrun : ∃ c' r, CheckAndComplete testlib.busyManager 4%positive 0%N true
                         = Ret (c', (r, None)))
    by (eexists _, _; vm_compute; reflexivity).
  destruct Hrun as (c' & r & Hrun). exists c', r. split; [exact Hrun|].
  by apply (CheckAndComplete_replay_already_seen
              testlib.busyManager 4%positive 0%N true c' r).
Defined.

Lemma Complete_keeps_main_indexed_witness :
  indexed (Complete testlib.busyManager 4%positive)
    (mainHostMap (Complete testlib.busyManager 4%positive))
  ∧ indexes_agree (Complete testlib.busyManager 4%positive).
Proof.
  apply Complete_keeps_main_indexed.
  - apply indexed_decide. vm_compute. reflexivity.
  - apply indexes_agree_decide. vm_compute. reflexivity.
  - vm_compute. reflexivity.
Defined.

Lemma CheckAndComplete_main_as_Complete_witness :
  ∃ c' r,
    CheckAndComplete testlib.busyManager 4%positive 0%N true = Ret (c', (r, None))
    ∧ mainHostMap c' = mainHostMap (Complete testlib.busyManager 4%positive).
Proof.
  assert (Hrun : ∃ c' r, CheckAndComplete testlib.busyManager 4%positive 0%N true
                         = Ret (c', (r, None)))
    by (eexists _, _; vm_compute; reflexivity).
  destruct Hrun as (c' & r & Hrun). exists c', r. split; [exact Hrun|].
  exact (CheckAndComplete_main_as_Complete _ _ _ _ _ _ Hrun).
Defined.

(** The zero word is skipped. *)
Lemma generateIndex_first_nonzero_witness :
  ∃ rnd', generateIndex testlib.sampleReads = (rnd', Some 105%N)
          ∧ 105%N ≠ 0%N
          ∧ (105 < 4294967296)%N
          ∧ ∃ zeros b,
              testlib.sampleReads = map Some zeros ++ Some b :: rnd'
              ∧ Forall (λ z, buffer_Uint32 z = 0%N) zeros
              ∧ buffer_Uint32 b = 105%N.
Proof.
  eexists. split; [vm_compute; reflexivity|].
  apply generateIndex_first_nonzero. vm_compute. reflexivity.
Defined.

(** The zero word is skipped, the index 105 is in use in the main table,
    the index 4242 is free. *)
Lemma AddIndexHostInfo_unique_index_witness :
  ∃ rnd' c',
    AddIndexHostInfo testlib.sampleReads testlib.busyManager 4%positive
    = (rnd', (c', None))
    ∧ ∃ index, index ≠ 0%N
        ∧ Indexes (pendingHostMap testlib.busyManager) !! index = None
        ∧ Indexes (mainHostMap testlib.busyManager) !! index = None
        ∧ localIndexId (deref c' 4%positive) = index
        ∧ vpnIp (deref c' 4%positive) = vpnIp (deref testlib.busyManager 4%positive)
        ∧ remoteIndexId (deref c' 4%positive)
          = remoteIndexId (deref testlib.busyManager 4%positive)
        ∧ (∀ q, q ≠ 4%positive → deref c' q = deref testlib.busyManager q)
        ∧ Indexes (pendingHostMap c')
          = <[index := 4%positive]> (Indexes (pendingHostMap testlib.busyManager))
        ∧ Hosts (pendingHostMap c') = Hosts (pendingHostMap testlib.busyManager)
        ∧ RemoteIndexes (pendingHostMap c')
          = RemoteIndexes (pendingHostMap testlib.busyManager)
        ∧ mainHostMap c' = mainHostMap testlib.busyManager
        ∧ (indexes_agree testlib.busyManager → indexes_agree c').
Proof.
  assert (Hrun : ∃ rnd' c',
             AddIndexHostInfo testlib.sampleReads testlib.busyManager 4%positive
             = (rnd', (c', None)))
    by (eexists _, _; vm_compute; reflexivity).
  destruct Hrun as (rnd' & c' & Hrun). exists rnd', c'. split; [exact Hrun|].
  exact (AddIndexHostInfo_unique_index _ _ _ _ _ None Hrun).
Defined.

(** The handshake of our own that is pending wins when [overwrite] is
    false: the error is not a collision. *)
Lemma AddIndexHostInfo_then_no_collision_witness :
  AddIndexHostInfo testlib.sampleReads testlib.busyManager 4%positive
  = ([], (testlib.indexedManager, None))
  ∧ CheckAndComplete testlib.indexedManager 4%positive 0%N false
    = Ret (testlib.indexedManager, (Some 1%positive, Some ErrExistingHandshake))
  ∧ ErrExistingHandshake ≠ ErrLocalIndexCollision.
Proof.
  assert (Hadd : AddIndexHostInfo testlib.sampleReads testlib.busyManager 4%positive
                 = ([], (testlib.indexedManager, None)))
    by (vm_compute; reflexivity).
  assert (Hrun : CheckAndComplete testlib.indexedManager 4%positive 0%N false
                 = Ret (testlib.indexedManager,
                        (Some 1%positive, Some ErrExistingHandshake)))
    by (vm_compute; reflexivity).
  split; [exact Hadd|]. split; [exact Hrun|].
  exact (AddIndexHostInfo_then_no_collision _ _ _ _ _ _ _ _ _ _ Hadd Hrun).
Defined.

End nebula_theory.
